(** * CrazyNote content script: text anchors and highlight restoration

    A shallow embedding of the content script's anchor engine
    (getXPath, getElementByXPath, applyHighlightToSelection,
    applyHighlightFromData, findElementContainingText,
    scheduleHighlightRetry, tryApplyHighlight, removeHighlight,
    restoreNoteContext, loadPageHighlights, setupDynamicContentObserver,
    showToast) over an explicit model of the browser objects it touches:

    - the DOM is a tree of [Node]s addressed by child-index paths; elements
      carry an identity [nid] standing for the JavaScript object, so that a
      closure that captured an element can find it again later;
    - JavaScript strings are [string]s, one character per code unit;
    - [setTimeout], [requestAnimationFrame] and [MutationObserver] are
      queues in a [World] record, and the callbacks the script registers
      are the constructors of [Task];
    - [document.evaluate] and [window.getComputedStyle] belong to the
      browser and are taken from a [Host]. *)

From Stdlib Require Import String Ascii DecimalString DecimalNat ZArith.
From stdpp Require Import base option list strings gmap sorting.

Set Warnings "-register-all".
Local Open Scope string_scope.
Local Open Scope list_scope.
Local Open Scope nat_scope.

(** ** JavaScript strings *)

Module JsString.

Definition dquote : string := String (ascii_of_nat 34) EmptyString.

(** [String.prototype.indexOf]: position of the first occurrence, [None]
    for the [-1] of JavaScript. *)
Fixpoint indexOf (t s : string) : option nat :=
  if String.prefix t s then Some 0
  else match s with
       | EmptyString => None
       | String _ s' => S <$> indexOf t s'
       end.

(** [String.prototype.includes]. *)
Definition includes (t s : string) : bool := bool_decide (is_Some (indexOf t s)).

Fixpoint take (n : nat) (s : string) : string :=
  match n, s with
  | S n', String c s' => String c (take n' s')
  | _, _ => EmptyString
  end.

Fixpoint drop (n : nat) (s : string) : string :=
  match n, s with
  | S n', String _ s' => drop n' s'
  | _, _ => s
  end.

(** [CharacterData.substringData(offset, count)]. *)
Definition substringData (s : string) (offset count : nat) : string :=
  take count (drop offset s).

Definition lowerChar (c : ascii) : ascii :=
  let n := nat_of_ascii c in
  if (65 <=? n) && (n <=? 90) then ascii_of_nat (n + 32) else c.

(** [String.prototype.toLowerCase] on the ASCII range. *)
Fixpoint toLowerCase (s : string) : string :=
  match s with
  | EmptyString => EmptyString
  | String c s' => String (lowerChar c) (toLowerCase s')
  end.

(** Decimal rendering of a number inside a template literal. *)
Definition ofNat (n : nat) : string := NilEmpty.string_of_uint (Nat.to_uint n).

End JsString.

(** ** Completions: a JavaScript call returns or throws *)

Inductive JsError := TypeError | HierarchyRequestError.

Inductive Completion (A : Type) :=
| Normal (a : A)
| Throw (e : JsError).
Arguments Normal {A} a.
Arguments Throw {A} e.

Definition bindC {A B} (c : Completion A) (k : A → Completion B) : Completion B :=
  match c with
  | Normal a => k a
  | Throw e => Throw e
  end.

(** ** The DOM *)

Record ElementData := mkElementData {
  tagName : string;                 (* upper case, as HTML reports it *)
  id : string;                      (* [element.id], empty when absent *)
  classList : list string;
  dataNoteId : option string;       (* the [data-note-id] attribute *)
  style : list (string * string)    (* inline style properties *)
}.

Inductive Node :=
| Text (data : string)
| Element (nid : nat) (e : ElementData) (children : list Node)
| DocumentNode (children : list Node).

(** A node is named by the child indices leading to it from the root of
    its tree; the root of the page's tree is its [DocumentNode]. *)
Definition path := list nat.

Definition childNodes (n : Node) : list Node :=
  match n with
  | Text _ => []
  | Element _ _ cs => cs
  | DocumentNode cs => cs
  end.

Definition setChildNodes (n : Node) (cs : list Node) : Node :=
  match n with
  | Text d => Text d
  | Element i e _ => Element i e cs
  | DocumentNode _ => DocumentNode cs
  end.

Definition isElement (n : Node) : bool :=
  match n with Element _ _ _ => true | _ => false end.

Definition isDocument (n : Node) : bool :=
  match n with DocumentNode _ => true | _ => false end.

Definition tagNameOf (n : Node) : option string :=
  match n with Element _ e _ => Some (tagName e) | _ => None end.

(** [node.id]: [undefined] on nodes that are not elements, which is as
    falsy as the empty string. *)
Definition idOf (n : Node) : string :=
  match n with Element _ e _ => id e | _ => EmptyString end.

Definition nidOf (n : Node) : option nat :=
  match n with Element i _ _ => Some i | _ => None end.

Fixpoint nodeAt (n : Node) (p : path) : option Node :=
  match p with
  | [] => Some n
  | i :: p' =>
      match childNodes n !! i with
      | Some c => nodeAt c p'
      | None => None
      end
  end.

(** Replaces the node at [p] by [f] of it. *)
Fixpoint updateNodeAt (p : path) (f : Node → Node) (n : Node) : Node :=
  match p with
  | [] => f n
  | i :: p' =>
      match childNodes n !! i with
      | Some c => setChildNodes n (<[i := updateNodeAt p' f c]> (childNodes n))
      | None => n
      end
  end.

(** Rewrites the child list of the node at [p]. *)
Definition updateChildren (n : Node) (p : path) (h : list Node → list Node) : Node :=
  updateNodeAt p (λ m, setChildNodes m (h (childNodes m))) n.

(** Replaces child [i] by the nodes [g] makes of it. *)
Definition spliceChild (i : nat) (g : Node → list Node) (cs : list Node) : list Node :=
  match cs !! i with
  | Some c => take i cs ++ g c ++ drop (S i) cs
  | None => cs
  end.

Definition parentPath (p : path) : path := removelast p.

Definition lastIndex (p : path) : option nat := last p.

(** Replaces the node at [p] (not the root) inside its parent. *)
Definition spliceAt (root : Node) (p : path) (g : Node → list Node) : Node :=
  match lastIndex p with
  | Some i => updateChildren root (parentPath p) (spliceChild i g)
  | None => root
  end.

(** Text of all [Text] descendants in document order. *)
Fixpoint descendantText (n : Node) : string :=
  match n with
  | Text d => d
  | Element _ _ cs | DocumentNode cs =>
      (fix go (l : list Node) : string :=
         match l with
         | [] => EmptyString
         | c :: l' => descendantText c +:+ go l'
         end) cs
  end.

Definition concatText (cs : list Node) : string :=
  foldr (λ c acc, descendantText c +:+ acc) EmptyString cs.

(** [node.textContent]; [null] on a document. *)
Definition textContent (n : Node) : option string :=
  match n with
  | DocumentNode _ => None
  | _ => Some (descendantText n)
  end.

(** DOM trees: a document is nobody's child and has only elements for
    children. *)
Fixpoint withoutDocuments (n : Node) : bool :=
  match n with
  | Text _ => true
  | Element _ _ cs =>
      (fix go (l : list Node) : bool :=
         match l with [] => true | c :: l' => withoutDocuments c && go l' end) cs
  | DocumentNode _ => false
  end.

Definition properDocument (doc : Node) : bool :=
  match doc with
  | DocumentNode cs => forallb (λ c, isElement c && withoutDocuments c) cs
  | _ => false
  end.

(** The [Text] nodes of a tree in document order, with their paths. *)
Fixpoint textNodesOf (n : Node) : list (path * string) :=
  match n with
  | Text d => [([], d)]
  | Element _ _ cs | DocumentNode cs =>
      (fix go (i : nat) (l : list Node) : list (path * string) :=
         match l with
         | [] => []
         | c :: l' => map (λ pd, (i :: pd.1, pd.2)) (textNodesOf c) ++ go (S i) l'
         end) 0 cs
  end.

Fixpoint textNodesFrom (i : nat) (cs : list Node) : list (path * string) :=
  match cs with
  | [] => []
  | c :: cs' => map (λ pd, (i :: pd.1, pd.2)) (textNodesOf c) ++ textNodesFrom (S i) cs'
  end.

(** What a [TreeWalker] with [SHOW_TEXT] rooted at [n] can reach: the
    [Text] descendants of [n], never [n] itself. *)
Definition textDescendants (n : Node) : list (path * string) :=
  textNodesFrom 0 (childNodes n).

(** All elements in document order, with their paths. *)
Fixpoint elementsOf (n : Node) : list (path * Node) :=
  match n with
  | Text _ => []
  | Element i e cs =>
      ([], Element i e cs) ::
      (fix go (k : nat) (l : list Node) : list (path * Node) :=
         match l with
         | [] => []
         | c :: l' => map (λ pn, (k :: pn.1, pn.2)) (elementsOf c) ++ go (S k) l'
         end) 0 cs
  | DocumentNode cs =>
      (fix go (k : nat) (l : list Node) : list (path * Node) :=
         match l with
         | [] => []
         | c :: l' => map (λ pn, (k :: pn.1, pn.2)) (elementsOf c) ++ go (S k) l'
         end) 0 cs
  end.

Fixpoint elementsFrom (k : nat) (cs : list Node) : list (path * Node) :=
  match cs with
  | [] => []
  | c :: cs' => map (λ pn, (k :: pn.1, pn.2)) (elementsOf c) ++ elementsFrom (S k) cs'
  end.

(** Index of the first child satisfying [f]. *)
Fixpoint findIndex (f : Node → bool) (cs : list Node) : option nat :=
  match cs with
  | [] => None
  | c :: cs' => if f c then Some 0 else S <$> findIndex f cs'
  end.

Definition hasTag (t : string) (n : Node) : bool :=
  match n with Element _ e _ => bool_decide (tagName e = t) | _ => false end.

(** [document.documentElement]. *)
Definition documentElementPath (root : Node) : option path :=
  match root with
  | DocumentNode cs => (λ i, [i]) <$> findIndex isElement cs
  | _ => None
  end.

(** [document.body]: the first [body] or [frameset] child of the [html]
    element. *)
Definition bodyPath (root : Node) : option path :=
  match documentElementPath root with
  | Some de =>
      match nodeAt root de with
      | Some html =>
          if hasTag "HTML" html
          then (λ j, de ++ [j]) <$>
               findIndex (λ c, hasTag "BODY" c || hasTag "FRAMESET" c) (childNodes html)
          else None
      | None => None
      end
  | None => None
  end.

(** ** XPath utilities *)

(** The sibling loop of [getXPath]: walks [siblings] up to position [pos],
    where the element itself sits, counting the element siblings before it
    that have its tag. [None] when the loop runs off the end. *)
Fixpoint getXPath_loop (siblings : list Node) (pos : nat)
    (elementTag : option string) (index : nat) : option nat :=
  match siblings with
  | [] => None
  | sibling :: rest =>
      match pos with
      | 0 => Some index
      | S pos' =>
          if isElement sibling && bool_decide (tagNameOf sibling = elementTag)
          then getXPath_loop rest pos' elementTag (S index)
          else getXPath_loop rest pos' elementTag index
      end
  end.

(** [getXPath], by recursion on the path to the element read from the
    element upwards: the head of [rp] is the element's index in its parent
    and the tail names the parent. *)
Fixpoint getXPath_up (root : Node) (rp : list nat) : Completion string :=
  let p := rev rp in
  match nodeAt root p with
  | None => Normal EmptyString
  | Some element =>
      if negb (bool_decide (idOf element = EmptyString)) then
        Normal ("//*[@id=" +:+ JsString.dquote +:+ idOf element +:+ JsString.dquote +:+ "]")
      else if bool_decide (bodyPath root = Some p) then Normal "/html/body"
      else if bool_decide (documentElementPath root = Some p) then Normal "/html"
      else
        match rp with
        | [] => Normal EmptyString
        | i :: rp' =>
            match nodeAt root (rev rp') with
            | None => Normal EmptyString
            | Some parent =>
                match getXPath_loop (childNodes parent) i (tagNameOf element) 0 with
                | None => Normal EmptyString
                | Some index =>
                    match element with
                    | Element _ e _ =>
                        bindC (getXPath_up root rp') (λ parentXPath,
                          Normal (parentXPath +:+ "/" +:+ JsString.toLowerCase (tagName e)
                                  +:+ "[" +:+ JsString.ofNat (index + 1) +:+ "]"))
                    | _ => Throw TypeError
                    end
                end
            end
        end
  end.

(** [getXPath(element)] for the node at [p] of the tree rooted at [root]. *)
Definition getXPath (root : Node) (p : path) : Completion string :=
  getXPath_up root (rev p).

(** ** The browser *)

(** Outcome of [document.evaluate(xpath, document, null,
    XPathResult.FIRST_ORDERED_NODE_TYPE, null)]: a syntax error, or a
    result whose [singleNodeValue] is a node of the tree or [null]. *)
Inductive XPathOutcome :=
| XPathThrows
| XPathResult (singleNodeValue : option path).

Record ComputedStyle := mkComputedStyle {
  display : string;
  visibility : string
}.

Class Host := {
  evaluate : string → Node → XPathOutcome;
  getComputedStyle : Node → path → ComputedStyle;
  (* the empty string is not an XPath expression *)
  evaluate_empty : ∀ doc, evaluate EmptyString doc = XPathThrows
}.

(** ** Notes *)

Record NoteData := mkNoteData {
  noteId : string;                  (* [noteData.id] *)
  text : string;
  elementPath : string;
  highlightColor : option string;   (* [undefined] when absent *)
  scrollY : nat
}.

(** ** Ranges and the selection *)

Record Range := mkRange {
  startContainer : path;
  startOffset : nat;
  endContainer : path;
  endOffset : nat
}.

Record Selection := mkSelection {
  ranges : list Range;
  isCollapsed : bool
}.

Definition rangeCount (s : Selection) : nat := length (ranges s).

(** [selection.removeAllRanges()]. *)
Definition removeAllRanges (s : Selection) : Selection :=
  {| ranges := []; isCollapsed := true |}.

(** ** The event loop *)

(** The callbacks the script hands to [setTimeout] and
    [requestAnimationFrame], with what each closure captured. *)
Inductive Task :=
| RetryHighlightTask (noteData : NoteData)     (* scheduleHighlightRetry *)
| RestoreHighlightTask (noteData : NoteData)   (* restoreNoteContext, after the scroll *)
| PulseEndTask (highlight : nat)               (* restoreNoteContext, end of the pulse *)
| DebounceTask                                 (* setupDynamicContentObserver, batch pass *)
| ObserverCapTask                              (* setupDynamicContentObserver, auto-disconnect *)
| ToastVisibleTask (toast : nat)               (* showToast, animation frame *)
| ToastHideTask (toast : nat)
| ToastRemoveTask (toast : nat).

Record Timer := mkTimer {
  timerId : nat;
  due : Z;                          (* milliseconds *)
  task : Task
}.

(** A [MutationObserver] that is observing; [debounceTimer] is the
    variable its callback closes over. *)
Record Observer := mkObserver {
  observerId : nat;
  attachedAt : Z;
  debounceTimer : option nat
}.

(** Calls into the viewport; console output is not modelled. *)
Inductive Effect :=
| ScrollTo (top : nat)
| ScrollIntoView (element : option nat).

Record World := mkWorld {
  document : Node;   (* the page's tree, rooted at its [DocumentNode] *)
  nextNodeId : nat;   (* identity of the next node [createElement] makes *)
  now : Z;   (* milliseconds *)
  timers : list Timer;   (* pending [setTimeout] callbacks *)
  nextTimerId : nat;
  frames : list Task;   (* pending [requestAnimationFrame] callbacks *)
  retryCounts : gmap string nat;   (* the [window[retryKey]] properties *)
  pendingHighlights : list NoteData;
  highlightObserver : option nat;
  observers : list Observer;   (* observers currently observing the body *)
  nextObserverId : nat;
  extensionContextValid : bool;
  selection : option Selection;   (* what [window.getSelection()] returns *)
  effects : list Effect   (* calls into the presentation layer, latest first *)
}.

(** Field updates. *)
Definition withDocument (x : Node) (w : World) : World :=
  {| document := x; nextNodeId := nextNodeId w; now := now w; timers := timers w;
     nextTimerId := nextTimerId w; frames := frames w; retryCounts := retryCounts w;
     pendingHighlights := pendingHighlights w;
     highlightObserver := highlightObserver w; observers := observers w;
     nextObserverId := nextObserverId w;
     extensionContextValid := extensionContextValid w; selection := selection w;
     effects := effects w |}.

Definition withNextNodeId (x : nat) (w : World) : World :=
  {| document := document w; nextNodeId := x; now := now w; timers := timers w;
     nextTimerId := nextTimerId w; frames := frames w; retryCounts := retryCounts w;
     pendingHighlights := pendingHighlights w;
     highlightObserver := highlightObserver w; observers := observers w;
     nextObserverId := nextObserverId w;
     extensionContextValid := extensionContextValid w; selection := selection w;
     effects := effects w |}.

Definition withNow (x : Z) (w : World) : World :=
  {| document := document w; nextNodeId := nextNodeId w; now := x; timers := timers w;
     nextTimerId := nextTimerId w; frames := frames w; retryCounts := retryCounts w;
     pendingHighlights := pendingHighlights w;
     highlightObserver := highlightObserver w; observers := observers w;
     nextObserverId := nextObserverId w;
     extensionContextValid := extensionContextValid w; selection := selection w;
     effects := effects w |}.

Definition withTimers (x : list Timer) (w : World) : World :=
  {| document := document w; nextNodeId := nextNodeId w; now := now w; timers := x;
     nextTimerId := nextTimerId w; frames := frames w; retryCounts := retryCounts w;
     pendingHighlights := pendingHighlights w;
     highlightObserver := highlightObserver w; observers := observers w;
     nextObserverId := nextObserverId w;
     extensionContextValid := extensionContextValid w; selection := selection w;
     effects := effects w |}.

Definition withNextTimerId (x : nat) (w : World) : World :=
  {| document := document w; nextNodeId := nextNodeId w; now := now w;
     timers := timers w; nextTimerId := x; frames := frames w;
     retryCounts := retryCounts w; pendingHighlights := pendingHighlights w;
     highlightObserver := highlightObserver w; observers := observers w;
     nextObserverId := nextObserverId w;
     extensionContextValid := extensionContextValid w; selection := selection w;
     effects := effects w |}.

Definition withFrames (x : list Task) (w : World) : World :=
  {| document := document w; nextNodeId := nextNodeId w; now := now w;
     timers := timers w; nextTimerId := nextTimerId w; frames := x;
     retryCounts := retryCounts w; pendingHighlights := pendingHighlights w;
     highlightObserver := highlightObserver w; observers := observers w;
     nextObserverId := nextObserverId w;
     extensionContextValid := extensionContextValid w; selection := selection w;
     effects := effects w |}.

Definition withRetryCounts (x : gmap string nat) (w : World) : World :=
  {| document := document w; nextNodeId := nextNodeId w; now := now w;
     timers := timers w; nextTimerId := nextTimerId w; frames := frames w;
     retryCounts := x; pendingHighlights := pendingHighlights w;
     highlightObserver := highlightObserver w; observers := observers w;
     nextObserverId := nextObserverId w;
     extensionContextValid := extensionContextValid w; selection := selection w;
     effects := effects w |}.

Definition withPendingHighlights (x : list NoteData) (w : World) : World :=
  {| document := document w; nextNodeId := nextNodeId w; now := now w;
     timers := timers w; nextTimerId := nextTimerId w; frames := frames w;
     retryCounts := retryCounts w; pendingHighlights := x;
     highlightObserver := highlightObserver w; observers := observers w;
     nextObserverId := nextObserverId w;
     extensionContextValid := extensionContextValid w; selection := selection w;
     effects := effects w |}.

Definition withHighlightObserver (x : option nat) (w : World) : World :=
  {| document := document w; nextNodeId := nextNodeId w; now := now w;
     timers := timers w; nextTimerId := nextTimerId w; frames := frames w;
     retryCounts := retryCounts w; pendingHighlights := pendingHighlights w;
     highlightObserver := x; observers := observers w;
     nextObserverId := nextObserverId w;
     extensionContextValid := extensionContextValid w; selection := selection w;
     effects := effects w |}.

Definition withObservers (x : list Observer) (w : World) : World :=
  {| document := document w; nextNodeId := nextNodeId w; now := now w;
     timers := timers w; nextTimerId := nextTimerId w; frames := frames w;
     retryCounts := retryCounts w; pendingHighlights := pendingHighlights w;
     highlightObserver := highlightObserver w; observers := x;
     nextObserverId := nextObserverId w;
     extensionContextValid := extensionContextValid w; selection := selection w;
     effects := effects w |}.

Definition withNextObserverId (x : nat) (w : World) : World :=
  {| document := document w; nextNodeId := nextNodeId w; now := now w;
     timers := timers w; nextTimerId := nextTimerId w; frames := frames w;
     retryCounts := retryCounts w; pendingHighlights := pendingHighlights w;
     highlightObserver := highlightObserver w; observers := observers w;
     nextObserverId := x; extensionContextValid := extensionContextValid w;
     selection := selection w; effects := effects w |}.

Definition withExtensionContextValid (x : bool) (w : World) : World :=
  {| document := document w; nextNodeId := nextNodeId w; now := now w;
     timers := timers w; nextTimerId := nextTimerId w; frames := frames w;
     retryCounts := retryCounts w; pendingHighlights := pendingHighlights w;
     highlightObserver := highlightObserver w; observers := observers w;
     nextObserverId := nextObserverId w; extensionContextValid := x;
     selection := selection w; effects := effects w |}.

Definition withSelection (x : option Selection) (w : World) : World :=
  {| document := document w; nextNodeId := nextNodeId w; now := now w;
     timers := timers w; nextTimerId := nextTimerId w; frames := frames w;
     retryCounts := retryCounts w; pendingHighlights := pendingHighlights w;
     highlightObserver := highlightObserver w; observers := observers w;
     nextObserverId := nextObserverId w;
     extensionContextValid := extensionContextValid w; selection := x;
     effects := effects w |}.

Definition withEffects (x : list Effect) (w : World) : World :=
  {| document := document w; nextNodeId := nextNodeId w; now := now w;
     timers := timers w; nextTimerId := nextTimerId w; frames := frames w;
     retryCounts := retryCounts w; pendingHighlights := pendingHighlights w;
     highlightObserver := highlightObserver w; observers := observers w;
     nextObserverId := nextObserverId w;
     extensionContextValid := extensionContextValid w; selection := selection w;
     effects := x |}.

(** ** DOM operations *)

Definition hasNoteId (x : string) (n : Node) : bool :=
  match n with
  | Element _ e _ => bool_decide (dataNoteId e = Some x)
  | _ => false
  end.

(** First element, in document order, that [f] accepts. *)
Definition firstElement (f : Node → bool) (doc : Node) : option path :=
  fst <$> List.find (λ pn, f pn.2) (elementsOf doc).

(** [document.querySelector('[data-note-id=x]')], for an identifier that
    needs no escaping inside the selector. *)
Definition querySelectorNoteId (x : string) (doc : Node) : option path :=
  firstElement (hasNoteId x) doc.

(** [document.getElementById]. *)
Definition getElementById (x : string) (doc : Node) : option path :=
  firstElement (λ n, isElement n && bool_decide (idOf n = x)) doc.

(** The element object with identity [i], if it is in the tree. *)
Definition findByNid (i : nat) (doc : Node) : option path :=
  firstElement (λ n, bool_decide (nidOf n = Some i)) doc.

(** The first marker for [x] among the elements of the children [cs],
    numbered from [k]. *)
Definition firstMarkerIn (x : string) (k : nat) (cs : list Node) : option path :=
  fst <$> List.find (λ pn, hasNoteId x pn.2) (elementsFrom k cs).

(** The markers carrying identifier [x]. *)
Definition markersOf (x : string) (doc : Node) : list path :=
  fst <$> filter (λ pn, hasNoteId x pn.2 = true) (elementsOf doc).

(** The pre-insertion validity check, for the node kinds of the model:
    whether [child] may be inserted among [parent]'s children. *)
Definition canInsert (parent child : Node) : bool :=
  match parent, child with
  | Text _, _ => false
  | _, DocumentNode _ => false
  | Element _ _ _, _ => true
  | DocumentNode cs, Element _ _ _ => negb (existsb isElement cs)
  | DocumentNode _, Text _ => false
  end.

(** Changes the element data of the node at [p]. *)
Definition updateElementData (p : path) (f : ElementData → ElementData) (doc : Node) : Node :=
  spliceAt doc p (λ n, match n with
                       | Element i e cs => [Element i (f e) cs]
                       | _ => [n]
                       end).

Definition addClass (c : string) (e : ElementData) : ElementData :=
  {| tagName := tagName e; id := id e;
     classList := if bool_decide (c ∈ classList e) then classList e else classList e ++ [c];
     dataNoteId := dataNoteId e; style := style e |}.

Definition removeClass (c : string) (e : ElementData) : ElementData :=
  {| tagName := tagName e; id := id e;
     classList := filter (λ c', c' ≠ c) (classList e);
     dataNoteId := dataNoteId e; style := style e |}.

(** [range.extractContents()] for a range whose two boundary points lie in
    the node at [c]: the tree afterwards and the extracted fragment (empty,
    and nothing changes, when the range is collapsed). The range is left
    collapsed at [(c, so)]. *)
Definition extractContents (c : path) (so eo : nat) (doc : Node) : Node * list Node :=
  if bool_decide (so = eo) then (doc, []) else
  match nodeAt doc c with
  | Some (Text d) =>
      (spliceAt doc c (λ _, [Text (JsString.take so d +:+ JsString.drop eo d)]),
       [Text (JsString.substringData d so (eo - so))])
  | Some n =>
      (updateChildren doc c (λ cs, take so cs ++ drop eo cs),
       take (eo - so) (drop so (childNodes n)))
  | None => (doc, [])
  end.

(** [range.insertNode(node)] for a range collapsed at [(c, so)]: the tree
    afterwards and where [node] sits, or the tree as it is and the error. *)
Definition insertNode (c : path) (so : nat) (node : Node) (doc : Node)
    : Node * Completion path :=
  match nodeAt doc c with
  | Some (Text d) =>
      match lastIndex c, nodeAt doc (parentPath c) with
      | Some i, Some parent =>
          if canInsert parent node then
            (spliceAt doc c (λ _, [Text (JsString.take so d); node; Text (JsString.drop so d)]),
             Normal (parentPath c ++ [S i]))
          else (doc, Throw HierarchyRequestError)
      | _, _ => (doc, Throw HierarchyRequestError)
      end
  | Some n =>
      if canInsert n node then
        (updateChildren doc c (λ cs, take so cs ++ node :: drop so cs),
         Normal (c ++ [so]))
      else (doc, Throw HierarchyRequestError)
  | None => (doc, Throw HierarchyRequestError)
  end.

(** [range.surroundContents(newParent)] for a range whose two boundary
    points lie in the node at [c], the only ranges the script builds:
    extract the contents, insert the emptied [newParent] at the collapsed
    range, append the contents to it. *)
Definition surroundContents (c : path) (so eo : nat) (newParent : Node) (doc : Node)
    : Node * Completion path :=
  let '(doc1, fragment) := extractContents c so eo doc in
  match insertNode c so (setChildNodes newParent []) doc1 with
  | (doc2, Normal sp) => (updateChildren doc2 sp (λ cs, cs ++ fragment), Normal sp)
  | (doc2, Throw e) => (doc2, Throw e)
  end.

(** What a [Text] node holding [d] becomes when [[so, eo)] of it is
    surrounded by [newParent]. *)
Definition wrapText (so eo : nat) (newParent : Node) (d : string) : list Node :=
  let fragment :=
    if bool_decide (so = eo) then []
    else [Text (JsString.substringData d so (eo - so))] in
  let rest :=
    if bool_decide (so = eo) then d
    else JsString.take so d +:+ JsString.drop eo d in
  [Text (JsString.take so rest); setChildNodes newParent fragment;
   Text (JsString.drop so rest)].

Definition isEmptyText (n : Node) : bool :=
  match n with Text d => bool_decide (d = EmptyString) | _ => false end.

(** Merges runs of adjacent [Text] nodes. *)
Fixpoint mergeAdjacentText (cs : list Node) : list Node :=
  match cs with
  | [] => []
  | Text a :: rest =>
      match mergeAdjacentText rest with
      | Text b :: rest' => Text (a +:+ b) :: rest'
      | merged => Text a :: merged
      end
  | c :: rest => c :: mergeAdjacentText rest
  end.

(** [node.normalize()]: in the whole subtree, empty [Text] nodes go and
    adjacent [Text] nodes become one. *)
Fixpoint normalize (n : Node) : Node :=
  match n with
  | Text d => Text d
  | Element i e cs =>
      Element i e (mergeAdjacentText (filter (λ c, isEmptyText c = false)
        ((fix go (l : list Node) : list Node :=
            match l with [] => [] | c :: l' => normalize c :: go l' end) cs)))
  | DocumentNode cs =>
      DocumentNode (mergeAdjacentText (filter (λ c, isEmptyText c = false)
        ((fix go (l : list Node) : list Node :=
            match l with [] => [] | c :: l' => normalize c :: go l' end) cs)))
  end.

(** ** The content script *)

Definition setTimeout (t : Task) (delay : Z) (w : World) : nat * World :=
  (nextTimerId w,
   withNextTimerId (S (nextTimerId w))
     (withTimers (timers w ++ [mkTimer (nextTimerId w) (now w + delay)%Z t]) w)).

Definition clearTimeout (i : nat) (w : World) : World :=
  withTimers (filter (λ t, timerId t ≠ i) (timers w)) w.

Definition requestAnimationFrame (t : Task) (w : World) : World :=
  withFrames (frames w ++ [t]) w.

(** The span [createHighlightSpan] builds, as the element object [i]. *)
Definition highlightSpan (i : nat) (noteId : string) (color : option string) : Node :=
  Element i
    {| tagName := "SPAN"; id := EmptyString; classList := ["mozhii-highlight"];
       dataNoteId := Some noteId;
       style := [("--highlight-color", default "#FFEB3B" color)] |} [].

Definition createHighlightSpan (noteId : string) (color : option string) (w : World)
    : Node * World :=
  (highlightSpan (nextNodeId w) noteId color, withNextNodeId (S (nextNodeId w)) w).

Inductive FilterResult := FILTER_ACCEPT | FILTER_REJECT | FILTER_SKIP.

(** [node.parentElement] for the node at [p]. *)
Definition parentElement (doc : Node) (p : path) : option path :=
  match lastIndex p, nodeAt doc (parentPath p) with
  | Some _, Some (Element _ _ _) => Some (parentPath p)
  | _, _ => None
  end.

Definition retryKey (noteData : NoteData) : string := "retry_" +:+ noteId noteData.

Definition maxRetries : nat := 3.

(** The first [Text] node the loop of [tryApplyHighlight] stops at, with
    the index of the text in it. *)
Fixpoint firstTextWith (t : string) (nodes : list (path * string)) : option (path * nat) :=
  match nodes with
  | [] => None
  | (p, nodeText) :: rest =>
      match JsString.indexOf t nodeText with
      | Some textIndex => Some (p, textIndex)
      | None => firstTextWith t rest
      end
  end.

Section ContentScript.
Context {H : Host}.

Definition getElementByXPath (xpath : string) (doc : Node) : option path :=
  match evaluate xpath doc with
  | XPathThrows => None
  | XPathResult singleNodeValue => singleNodeValue
  end.

(** The [acceptNode] filter of [findElementContainingText], on the
    [Text] node at [p] holding [data]. *)
Definition acceptNode (t : string) (doc : Node) (p : path) (data : string) : FilterResult :=
  match parentElement doc p with
  | None => FILTER_REJECT
  | Some parent =>
      let style := getComputedStyle doc parent in
      if bool_decide (display style = "none") || bool_decide (visibility style = "hidden")
      then FILTER_REJECT
      else if bool_decide (default None (tagNameOf <$> nodeAt doc parent)
                           ∈ [Some "SCRIPT"; Some "STYLE"; Some "NOSCRIPT"])
      then FILTER_REJECT
      else if negb (bool_decide (data = EmptyString)) && JsString.includes t data
      then FILTER_ACCEPT
      else FILTER_SKIP
  end.

Definition accepted (t : string) (doc : Node) (body : path) (pd : path * string) : bool :=
  match acceptNode t doc (body ++ pd.1) pd.2 with
  | FILTER_ACCEPT => true
  | _ => false
  end.

(** [findElementContainingText]; throws when the document has no body
    for the [TreeWalker] to start from. *)
Definition findElementContainingText (t : string) (doc : Node) : Completion (option path) :=
  if bool_decide (t = EmptyString) || (String.length t <? 3) then Normal None
  else
    match bodyPath doc with
    | None => Throw TypeError
    | Some body =>
        match nodeAt doc body with
        | None => Throw TypeError
        | Some bodyNode =>
            match List.find (accepted t doc body) (textDescendants bodyNode) with
            | Some node => Normal (parentElement doc (body ++ node.1))
            | None => Normal None
            end
        end
    end.

(** [tryApplyHighlight]: the world afterwards and the marker, [None] for
    [null]. *)
Definition tryApplyHighlight (element : path) (noteData : NoteData) (w : World)
    : World * option path :=
  match nodeAt (document w) element with
  | None => (w, None)
  | Some root =>
      match firstTextWith (text noteData) (textDescendants root) with
      | Some (p, textIndex) =>
          let node := element ++ p in
          let '(span, w1) :=
            createHighlightSpan (noteId noteData) (highlightColor noteData) w in
          match surroundContents node textIndex
                  (textIndex + String.length (text noteData)) span (document w1) with
          | (doc1, Normal marker) => (withDocument doc1 w1, Some marker)
          | (doc1, Throw _) =>
              (* catch (e): the range is now collapsed at the start *)
              let '(doc2, contents) := extractContents node textIndex textIndex doc1 in
              match insertNode node textIndex
                      (setChildNodes span (childNodes span ++ contents)) doc2 with
              | (doc3, Normal marker) => (withDocument doc3 w1, Some marker)
              | (doc3, Throw _) => (withDocument doc3 w1, None)
              end
          end
      | None => (w, None)
      end
  end.

(** [scheduleHighlightRetry]. *)
Definition scheduleHighlightRetry (noteData : NoteData) (w : World) : World :=
  let retryCount := default 0 (retryCounts w !! retryKey noteData) in
  if retryCount <? maxRetries then
    let w1 := withRetryCounts (<[retryKey noteData := retryCount + 1]> (retryCounts w)) w in
    (setTimeout (RetryHighlightTask noteData) (1000 * Z.of_nat (retryCount + 1))%Z w1).2
  else w.

(** The callback [scheduleHighlightRetry] hands to [setTimeout]. An
    exception ends the callback where it is raised. *)
Definition runRetryHighlight (noteData : NoteData) (w : World) : World :=
  match findElementContainingText (text noteData) (document w) with
  | Normal (Some element) =>
      let w1 := (tryApplyHighlight element noteData w).1 in
      withRetryCounts (delete (retryKey noteData) (retryCounts w1)) w1
  | Normal None => w
  | Throw _ => w
  end.

(** [applyHighlightFromData]; when it throws nothing has changed. *)
Definition applyHighlightFromData (noteData : NoteData) (w : World)
    : Completion (World * option path) :=
  match querySelectorNoteId (noteId noteData) (document w) with
  | Some existing => Normal (w, Some existing)
  | None =>
      match getElementByXPath (elementPath noteData) (document w) with
      | Some element => Normal (tryApplyHighlight element noteData w)
      | None =>
          bindC (findElementContainingText (text noteData) (document w)) (λ found,
            match found with
            | Some element => Normal (tryApplyHighlight element noteData w)
            | None => Normal (scheduleHighlightRetry noteData w, None)
            end)
      end
  end.

(** [applyHighlightToSelection]. *)
Definition applyHighlightToSelection (noteId : string) (color : option string) (w : World)
    : World * bool :=
  match selection w with
  | None => (w, false)
  | Some sel =>
      if (rangeCount sel =? 0) || isCollapsed sel then (w, false)
      else
        match ranges sel with
        | [] => (w, false)
        | range :: _ =>
            if bool_decide (startContainer range ≠ endContainer range) then
              (withSelection (Some (removeAllRanges sel)) w, false)
            else
              let '(span, w1) := createHighlightSpan noteId color w in
              match surroundContents (startContainer range) (startOffset range)
                      (endOffset range) span (document w1) with
              | (doc1, Normal _) =>
                  (withSelection (Some (removeAllRanges sel)) (withDocument doc1 w1), true)
              | (doc1, Throw _) =>
                  (* the extraction collapsed every live range onto the start *)
                  (withSelection
                     (Some {| ranges := [mkRange (startContainer range) (startOffset range)
                                           (startContainer range) (startOffset range)];
                              isCollapsed := true |})
                     (withDocument doc1 w1), false)
              end
        end
  end.

(** The children [removeHighlight] manages to move out of the marker
    before an insertion is refused, and those left behind. *)
Fixpoint movablePrefix (parent : Node) (cs : list Node) : list Node * list Node :=
  match cs with
  | [] => ([], [])
  | c :: rest =>
      if canInsert parent c then
        let '(moved, remaining) := movablePrefix parent rest in (c :: moved, remaining)
      else ([], cs)
  end.

(** [removeHighlight]: the tree afterwards, and the exception if one
    escaped. *)
Definition removeHighlight (noteId : string) (doc : Node) : Node * Completion unit :=
  match querySelectorNoteId noteId doc with
  | None => (doc, Normal ())
  | Some highlight =>
      match lastIndex highlight, nodeAt doc (parentPath highlight), nodeAt doc highlight with
      | Some i, Some parent, Some h =>
          let '(moved, remaining) := movablePrefix parent (childNodes h) in
          match remaining with
          | [] =>
              let doc1 :=
                updateChildren doc (parentPath highlight) (spliceChild i (λ _, moved)) in
              (updateNodeAt (parentPath highlight) normalize doc1, Normal ())
          | _ =>
              (updateChildren doc (parentPath highlight)
                 (spliceChild i (λ _, moved ++ [setChildNodes h remaining])),
               Throw HierarchyRequestError)
          end
      | _, _, _ => (doc, Throw TypeError)
      end
  end.

(** The tree once [showToast] has removed the toast that was showing. *)
Definition withoutToast (doc : Node) : Node :=
  match getElementById "mozhii-toast" doc with
  | Some existingToast => spliceAt doc existingToast (λ _, [])
  | None => doc
  end.

(** The toast [showToast] builds, as the element object [i]. *)
Definition toastElement (i : nat) (message : string) : Node :=
  Element i
    {| tagName := "DIV"; id := "mozhii-toast"; classList := ["mozhii-toast"];
       dataNoteId := None; style := [] |}
    (if bool_decide (message = EmptyString) then [] else [Text message]).

(** [showToast]; without a body the [appendChild] line throws and the
    function ends there. *)
Definition showToast (message : string) (duration : Z) (w : World) : World :=
  let w0 := withDocument (withoutToast (document w)) w in
  let toastId := nextNodeId w0 in
  let toast := toastElement toastId message in
  let w1 := withNextNodeId (S toastId) w0 in
  match bodyPath (document w1) with
  | None => w1
  | Some body =>
      let w2 := withDocument (updateChildren (document w1) body (λ cs, cs ++ [toast])) w1 in
      let w3 := requestAnimationFrame (ToastVisibleTask toastId) w2 in
      (setTimeout (ToastHideTask toastId) duration w3).2
  end.

(** Changes the class list of the element object [i] if it is in the
    tree. *)
Definition updateClasses (i : nat) (f : ElementData → ElementData) (w : World) : World :=
  match findByNid i (document w) with
  | Some p => withDocument (updateElementData p f (document w)) w
  | None => w
  end.

(** [restoreNoteContext]. *)
Definition restoreNoteContext (noteData : NoteData) (w : World) : World :=
  (setTimeout (RestoreHighlightTask noteData) 600%Z
     (withEffects (ScrollTo (scrollY noteData) :: effects w) w)).2.

Definition couldNotLocate : string :=
  "Could not locate the exact text. It may have been modified.".

(** The callback of [restoreNoteContext]. *)
Definition runRestoreHighlight (noteData : NoteData) (w : World) : World :=
  match applyHighlightFromData noteData w with
  | Throw _ => w
  | Normal (w1, Some highlight) =>
      let element := nodeAt (document w1) highlight ≫= nidOf in
      let w2 := withEffects (ScrollIntoView element :: effects w1) w1 in
      let w3 := withDocument (updateElementData highlight (addClass "mozhii-pulse")
                                (document w2)) w2 in
      match element with
      | Some i => (setTimeout (PulseEndTask i) 2500%Z w3).2
      | None => w3
      end
  | Normal (w1, None) => showToast couldNotLocate 3000%Z w1
  end.

(** [observer.disconnect()]. *)
Definition disconnect (o : nat) (w : World) : World :=
  withObservers (filter (λ ob, observerId ob ≠ o) (observers w)) w.

(** [if (highlightObserver) { disconnect(); highlightObserver = null }]. *)
Definition disconnectHighlightObserver (w : World) : World :=
  match highlightObserver w with
  | Some o => withHighlightObserver None (disconnect o w)
  | None => w
  end.

(** [setupDynamicContentObserver]; without a body [observe] throws and
    the function ends there. *)
Definition setupDynamicContentObserver (w : World) : World :=
  match highlightObserver w with
  | Some _ => w
  | None =>
      let o := nextObserverId w in
      let w1 := withNextObserverId (S o) (withHighlightObserver (Some o) w) in
      match bodyPath (document w1) with
      | None => w1
      | Some _ =>
          let w2 := withObservers (observers w1 ++ [mkObserver o (now w1) None]) w1 in
          (setTimeout ObserverCapTask 30000%Z w2).2
      end
  end.

(** The observer's callback, run for observer [ob]. *)
Definition observerCallback (ob : Observer) (w : World) : World :=
  let w1 := match debounceTimer ob with
            | Some t => clearTimeout t w
            | None => w
            end in
  let '(t, w2) := setTimeout DebounceTask 500%Z w1 in
  withObservers
    (map (λ ob', if bool_decide (observerId ob' = observerId ob)
                 then mkObserver (observerId ob') (attachedAt ob') (Some t)
                 else ob') (observers w2)) w2.

(** The [for] loop of the batch pass; [None] when an exception left the
    loop. *)
Fixpoint batchPass (notes : list NoteData) (stillPending : list NoteData) (w : World)
    : World * option (list NoteData) :=
  match notes with
  | [] => (w, Some stillPending)
  | note :: rest =>
      match querySelectorNoteId (noteId note) (document w) with
      | Some _ => batchPass rest stillPending w
      | None =>
          match findElementContainingText (text note) (document w) with
          | Throw _ => (w, None)
          | Normal (Some element) =>
              let '(w1, result) := tryApplyHighlight element note w in
              match result with
              | Some _ => batchPass rest stillPending w1
              | None => batchPass rest (stillPending ++ [note]) w1
              end
          | Normal None => batchPass rest (stillPending ++ [note]) w
          end
      end
  end.

(** The debounced callback of the observer. *)
Definition runDebounce (w : World) : World :=
  match pendingHighlights w with
  | [] =>
      match highlightObserver w with
      | Some o => withHighlightObserver None (disconnect o w)
      | None => w
      end
  | _ =>
      match batchPass (pendingHighlights w) [] w with
      | (w1, None) => w1
      | (w1, Some stillPending) =>
          let w2 := withPendingHighlights stillPending w1 in
          match stillPending with
          | [] => disconnectHighlightObserver w2
          | _ => w2
          end
      end
  end.

(** How the request of [loadPageHighlights] ends. *)
Inductive LoadOutcome :=
| ContextInvalid                                (* the check before the request fails *)
| Rejected (invalidated : bool)                 (* the request throws *)
| Responded (response : option (list NoteData)) (* [None]: not an array *).

(** The [forEach] of [loadPageHighlights]; [false] when an exception
    left it. *)
Fixpoint applyEach (response : list NoteData) (w : World) : World * bool :=
  match response with
  | [] => (w, true)
  | note :: rest =>
      match applyHighlightFromData note w with
      | Throw _ => (w, false)
      | Normal (w1, Some _) =>
          applyEach rest
            (withPendingHighlights
               (filter (λ n, noteId n ≠ noteId note) (pendingHighlights w1)) w1)
      | Normal (w1, None) => applyEach rest w1
      end
  end.

(** [loadPageHighlights]. *)
Definition loadPageHighlights (outcome : LoadOutcome) (w : World) : World :=
  match outcome with
  | ContextInvalid => withExtensionContextValid false w
  | Rejected true => disconnectHighlightObserver (withExtensionContextValid false w)
  | Rejected false => w
  | Responded None => w
  | Responded (Some response) =>
      match applyEach response (withPendingHighlights response w) with
      | (w1, false) => w1
      | (w1, true) =>
          match pendingHighlights w1 with
          | [] => w1
          | _ => setupDynamicContentObserver w1
          end
      end
  end.

(** ** The event loop *)

Definition runTask (t : Task) (w : World) : World :=
  match t with
  | RetryHighlightTask noteData => runRetryHighlight noteData w
  | RestoreHighlightTask noteData => runRestoreHighlight noteData w
  | PulseEndTask highlight => updateClasses highlight (removeClass "mozhii-pulse") w
  | DebounceTask => runDebounce w
  | ObserverCapTask => disconnectHighlightObserver w
  | ToastVisibleTask toast => updateClasses toast (addClass "mozhii-toast-visible") w
  | ToastHideTask toast =>
      (setTimeout (ToastRemoveTask toast) 300%Z
         (updateClasses toast (removeClass "mozhii-toast-visible") w)).2
  | ToastRemoveTask toast =>
      match findByNid toast (document w) with
      | Some p => withDocument (spliceAt (document w) p (λ _, [])) w
      | None => w
      end
  end.

(** The commands of the message listener that reach the anchor engine. *)
Inductive Message :=
| HighlightSaved (noteId : string)
| RestoreNote (noteData : NoteData)
| RemoveHighlight (noteId : string).

Definition onMessage (m : Message) (w : World) : World :=
  if negb (extensionContextValid w) then w
  else
    match m with
    | HighlightSaved noteId => (applyHighlightToSelection noteId None w).1
    | RestoreNote noteData => restoreNoteContext noteData w
    | RemoveHighlight noteId => withDocument (removeHighlight noteId (document w)).1 w
    end.

End ContentScript.

(** Largest element identity in a tree. *)
Fixpoint maxNid (n : Node) : nat :=
  match n with
  | Text _ => 0
  | Element i _ cs =>
      Nat.max i ((fix go (l : list Node) : nat :=
                    match l with [] => 0 | c :: l' => Nat.max (maxNid c) (go l') end) cs)
  | DocumentNode cs =>
      (fix go (l : list Node) : nat :=
         match l with [] => 0 | c :: l' => Nat.max (maxNid c) (go l') end) cs
  end.

(** The world in which the content script starts on the page [doc]. *)
Definition initialWorld (doc : Node) : World :=
  {| document := doc; nextNodeId := S (maxNid doc); now := 0%Z; timers := [];
     nextTimerId := 1; frames := []; retryCounts := ∅; pendingHighlights := [];
     highlightObserver := None; observers := []; nextObserverId := 0;
     extensionContextValid := true; selection := None; effects := [] |}.

(** What happens to the content script: a timer or an animation frame is
    due, time passes, the tree changes and the observers hear of it (the
    page rebuilt it as [doc'], or, with [doc'] the tree as it stands, the
    script's own insertions are being reported), the user changes the
    selection, a command arrives, the request of [loadPageHighlights]
    ends. *)
Inductive Event :=
| FireTimer (i : nat)
| AnimationFrame
| Tick (d : Z)
| Mutation (doc' : Node)
| Select (sel : option Selection)
| Incoming (m : Message)
| PageHighlights (outcome : LoadOutcome).

Section EventLoop.
Context {H : Host}.

(** Delivers a mutation record to every observing observer. *)
Definition notifyObservers (w : World) : World :=
  foldl (λ w' ob,
           match List.find (λ ob', bool_decide (observerId ob' = observerId ob))
                   (observers w') with
           | Some current => observerCallback current w'
           | None => w'
           end) w (observers w).

(** One turn of the event loop, [None] when the event cannot happen now:
    timers fire in the order they are due and never late, so a timer can
    fire only if none is due before it, and time cannot pass beyond a
    pending timer. *)
Definition dispatch (ev : Event) (w : World) : option World :=
  match ev with
  | FireTimer i =>
      match List.find (λ t, bool_decide (timerId t = i)) (timers w) with
      | Some t =>
          if forallb (λ t', (due t <=? due t')%Z) (timers w) then
            Some (runTask (task t)
                    (withNow (Z.max (now w) (due t))
                       (withTimers (filter (λ t', timerId t' ≠ i) (timers w)) w)))
          else None
      | None => None
      end
  | AnimationFrame =>
      Some (foldl (λ w' t, runTask t w') (withFrames [] w) (frames w))
  | Tick d =>
      if (0 <=? d)%Z && forallb (λ t, (now w + d <=? due t)%Z) (timers w)
      then Some (withNow (now w + d)%Z w)
      else None
  | Mutation doc' =>
      Some (notifyObservers
              (withNextNodeId (Nat.max (nextNodeId w) (S (maxNid doc')))
                 (withDocument doc' w)))
  | Select sel => Some (withSelection sel w)
  | Incoming m => Some (onMessage m w)
  | PageHighlights outcome => Some (loadPageHighlights outcome w)
  end.

(** Runs a list of events. *)
Fixpoint run (evs : list Event) (w : World) : option World :=
  match evs with
  | [] => Some w
  | ev :: evs' =>
      match dispatch ev w with
      | Some w' => run evs' w'
      | None => None
      end
  end.

Inductive reachable : World → Prop :=
| reachable_initial doc : reachable (initialWorld doc)
| reachable_step w ev w' : reachable w → dispatch ev w = Some w' → reachable w'.

End EventLoop.

(** ** A host for examples

    Its XPath engine covers the paths [getXPath] emits, the identifier
    shortcut and the absolute chain of [tag] and [tag[k]] steps, and
    reports a syntax error on anything else; its computed style is the
    inline style, [visibility] being inherited. *)

Module ExampleHost.

Fixpoint splitSlash (s : string) : list string :=
  match s with
  | EmptyString => [EmptyString]
  | String c s' =>
      if bool_decide (c = "/"%char) then EmptyString :: splitSlash s'
      else match splitSlash s' with
           | h :: t => String c h :: t
           | [] => [String c EmptyString]
           end
  end.

Definition digit (c : ascii) : option nat :=
  let n := nat_of_ascii c in
  if (48 <=? n) && (n <=? 57) then Some (n - 48) else None.

Fixpoint parseNat (acc : nat) (s : string) : option nat :=
  match s with
  | EmptyString => Some acc
  | String c s' =>
      match digit c with
      | Some d => parseNat (10 * acc + d) s'
      | None => None
      end
  end.

(** Splits [name[k]] into [name] and [k]; a bare [name] has no index. *)
Fixpoint parseStep (s : string) : option (string * option nat) :=
  match s with
  | EmptyString => Some (EmptyString, None)
  | String c s' =>
      if bool_decide (c = "["%char) then
        let n := String.length s' in
        if bool_decide (JsString.drop (n - 1) s' = "]") && negb (n =? 1) then
          match parseNat 0 (JsString.take (n - 1) s') with
          | Some k => Some (EmptyString, Some k)
          | None => None
          end
        else None
      else match parseStep s' with
           | Some (name, k) => Some (String c name, k)
           | None => None
           end
  end.

Definition matchingChildren (name : string) (n : Node) : list nat :=
  (fix go (i : nat) (cs : list Node) : list nat :=
     match cs with
     | [] => []
     | c :: cs' =>
         if bool_decide (JsString.toLowerCase <$> tagNameOf c = Some (JsString.toLowerCase name))
         then i :: go (S i) cs' else go (S i) cs'
     end) 0 (childNodes n).

(** One location step from the context node at [p]. *)
Definition stepFrom (doc : Node) (st : string * option nat) (p : path) : list path :=
  match nodeAt doc p with
  | Some n =>
      let hits := matchingChildren st.1 n in
      match st.2 with
      | None => (λ i, p ++ [i]) <$> hits
      | Some 0 => []
      | Some (S k) => match hits !! k with Some i => [p ++ [i]] | None => [] end
      end
  | None => []
  end.

Fixpoint evalSteps (doc : Node) (steps : list string) (ctx : list path) : option (list path) :=
  match steps with
  | [] => Some ctx
  | s :: steps' =>
      match parseStep s with
      | Some (EmptyString, _) => None
      | Some st => evalSteps doc steps' (ctx ≫= stepFrom doc st)
      | None => None
      end
  end.

Definition idPrefix : string := "//*[@id=" +:+ JsString.dquote.
Definition idSuffix : string := JsString.dquote +:+ "]".

Definition evaluatePath (xpath : string) (doc : Node) : XPathOutcome :=
  let n := String.length xpath in
  if String.prefix idPrefix xpath
     && bool_decide (JsString.drop (n - 2) xpath = idSuffix) && (11 <=? n) then
    let x := JsString.take (n - 11) (JsString.drop 9 xpath) in
    XPathResult (firstElement (λ e, isElement e && bool_decide (idOf e = x)) doc)
  else
    match splitSlash xpath with
    | EmptyString :: s :: steps =>
        match evalSteps doc (s :: steps) [[]] with
        | Some hits => XPathResult (head hits)
        | None => XPathThrows
        end
    | _ => XPathThrows
    end.

Definition inlineStyle (prop : string) (n : Node) : option string :=
  match n with
  | Element _ e _ => snd <$> List.find (λ kv, bool_decide (kv.1 = prop)) (style e)
  | _ => None
  end.

(** The inherited [visibility] along the path [p] from [n]. *)
Fixpoint visibilityAlong (n : Node) (p : path) (inherited : string) : string :=
  let own := default inherited (inlineStyle "visibility" n) in
  match p with
  | [] => own
  | i :: p' =>
      match childNodes n !! i with
      | Some c => visibilityAlong c p' own
      | None => own
      end
  end.

Definition inlineComputedStyle (doc : Node) (p : path) : ComputedStyle :=
  {| display := default "block" (nodeAt doc p ≫= inlineStyle "display");
     visibility := visibilityAlong doc p "visible" |}.

#[export] Instance host : Host :=
  {| evaluate := evaluatePath;
     getComputedStyle := inlineComputedStyle;
     evaluate_empty := λ _, eq_refl |}.

End ExampleHost.


(** ** What a successful [tryApplyHighlight] leaves

    The world after [tryApplyHighlight] wrapped the text [t], found at
    index [k] of the [Text] node that is child [i] of the node at [q]. *)
Definition wrappedWorld (q : path) (i k : nat) (d : string) (noteData : NoteData)
    (w : World) : World :=
  withDocument
    (updateChildren (document w) q
       (spliceChild i (λ _,
          wrapText k (k + String.length (text noteData))
            (highlightSpan (nextNodeId w) (noteId noteData) (highlightColor noteData)) d)))
    (withNextNodeId (S (nextNodeId w)) w).

(** ** Invariants of the event loop *)

(** Pending timers carry identifiers that were handed out, one timer per
    identifier, and none is overdue. *)
Definition timersSound (w : World) : Prop :=
  ∀ t, t ∈ timers w →
    timerId t < nextTimerId w
    ∧ (now w <= due t)%Z
    ∧ ∀ t', t' ∈ timers w → timerId t' = timerId t → t' = t.

(** An observer that is observing is the one [highlightObserver] refers
    to; the timer its callback may clear is a debounce timer; and the
    timer that was set when it was attached, 30 s ahead, is still
    pending. *)
Definition observersCapped (w : World) : Prop :=
  ∀ ob, ob ∈ observers w →
    highlightObserver w = Some (observerId ob)
    ∧ (∀ i, debounceTimer ob = Some i →
         i < nextTimerId w
         ∧ ∀ t, t ∈ timers w → timerId t = i → task t = DebounceTask)
    ∧ ∃ t, t ∈ timers w ∧ task t = ObserverCapTask
           ∧ due t = (attachedAt ob + 30000)%Z.

Definition loopInvariant (w : World) : Prop := timersSound w ∧ observersCapped w.

(** Two worlds with the same clock, timers, and observers. *)
Definition sameSchedule (w w' : World) : Prop :=
  now w' = now w ∧ timers w' = timers w ∧ nextTimerId w' = nextTimerId w
  ∧ observers w' = observers w ∧ highlightObserver w' = highlightObserver w.

(** ** Example pages and notes *)

Module Example.

Definition element (i : nat) (tag : string) (cs : list Node) : Node :=
  Element i {| tagName := tag; id := EmptyString; classList := [];
               dataNoteId := None; style := [] |} cs.

Definition page (body : list Node) : Node :=
  DocumentNode [element 1 "HTML" [element 2 "HEAD" []; element 3 "BODY" body]].

(** A page whose only paragraph holds the noted text. *)
Definition helloPage : Node := page [element 4 "P" [Text "say hello world now"]].

(** The same page before the paragraph has loaded. *)
Definition loadingPage : Node := page [element 7 "DIV" [Text "Loading"]].

(** A note taken on a second paragraph that is no longer there. *)
Definition helloNote : NoteData :=
  {| noteId := "n1"; text := "hello world"; elementPath := "/html/body/p[2]";
     highlightColor := None; scrollY := 120 |}.

(** A stored note whose text is empty. *)
Definition emptyNote : NoteData :=
  {| noteId := "e1"; text := EmptyString; elementPath := "/html/body/p[2]";
     highlightColor := None; scrollY := 0 |}.

(** A [div] that is in no document and carries an identifier. *)
Definition detachedDiv : Node :=
  Element 9 {| tagName := "DIV"; id := "intro"; classList := [];
               dataNoteId := None; style := [] |} [Text "hello"].

(** A page on which the noted text already sits in a marker of the note. *)
Definition markedPage : Node :=
  page [element 4 "P" [setChildNodes (highlightSpan 5 "n1" None) [Text "hello world"]]].

(** A selection running from the first paragraph into the second. *)
Definition twoParagraphs : Node :=
  page [element 4 "P" [Text "first"]; element 5 "P" [Text "second"]].

Definition crossSelection : Selection :=
  {| ranges := [mkRange [0; 1; 0; 0] 2 [0; 1; 1; 0] 3]; isCollapsed := false |}.

End Example.

(** ** Counting markers *)

(** Number of elements of the tree of [n] that carry identifier [x]. *)
Fixpoint countMarkers (x : string) (n : Node) : nat :=
  (if hasNoteId x n then 1 else 0) +
  match n with
  | Text _ => 0
  | Element _ _ cs | DocumentNode cs =>
      (fix go (l : list Node) : nat :=
         match l with
         | [] => 0
         | c :: l' => countMarkers x c + go l'
         end) cs
  end.

Definition countMarkersIn (x : string) (cs : list Node) : nat :=
  foldr (λ c acc, countMarkers x c + acc) 0 cs.

(** The first element that [f] accepts among the elements of the
    children [cs], numbered from [k]. *)
Definition firstElementIn (f : Node → bool) (k : nat) (cs : list Node) : option path :=
  fst <$> List.find (λ pn, f pn.2) (elementsFrom k cs).

(** ** Invariants of the retry counters and of the context flag *)

(** A retry counter that is set counts between one and [maxRetries]
    timers. *)
Definition retryBounded (w : World) : Prop :=
  ∀ key count, retryCounts w !! key = Some count → 1 ≤ count ≤ maxRetries.

(** What a step of the script keeps: the bound on the retry counters,
    and the verdict that the extension context is gone. *)
Definition kept (w w' : World) : Prop :=
  (retryBounded w → retryBounded w')
  ∧ (extensionContextValid w = false → extensionContextValid w' = false).

(** * The database module

    The notes live in one IndexedDB object store whose key path is [id].
    IndexedDB belongs to the browser: the store is a finite map from keys
    to notes that is read in the order of its keys, [add] refuses a key
    that is taken, [put] overwrites, and both refuse a note without a
    key. A promise is the value it resolves with or the error it rejects
    with, and an [await] is the sequencing of the calls. *)

(** [Array.prototype.sort(compareFn)], which is stable: [le a b] says
    that [compareFn(a, b)] is not positive. *)
Fixpoint insertSorted {A} (le : A → A → bool) (x : A) (l : list A) : list A :=
  match l with
  | [] => [x]
  | y :: l' => if le x y then x :: l else y :: insertSorted le x l'
  end.

Definition stableSort {A} (le : A → A → bool) (l : list A) : list A :=
  foldr (insertSorted le) [] l.

Module Db.

(** A note as the module reads it. Keys and tags are strings; [timestamp]
    is the time value, in milliseconds, of [new Date(note.timestamp)]. *)
Record Note := mkNote {
  id : option string;           (* [None]: the note has no key *)
  timestamp : Z;
  url : option string;
  title : option string;
  text : option string;
  comment : option string;
  tags : option (list string)   (* [None]: absent, or no array *)
}.

Inductive DbError :=
| OpenFailed        (* [indexedDB.open] reports an error *)
| ConstraintError   (* [add] on a key that is taken *)
| DataError         (* [add] or [put] of a note without a key *)
| JsTypeError.      (* a method called on [undefined] *)

Inductive Settled (A : Type) :=
| Resolved (a : A)
| Rejected (e : DbError).
Arguments Resolved {A} a.
Arguments Rejected {A} e.

Record Database := mkDatabase {
  opens : bool;                 (* whether [openDatabase] resolves *)
  store : gmap string Note      (* the object store [notes] *)
}.

Definition withStore (s : gmap string Note) (db : Database) : Database :=
  {| opens := opens db; store := s |}.

(** [IDBObjectStore.getAll()]: the records in the order of their keys. *)
Definition getAll (s : gmap string Note) : list Note :=
  (stableSort (λ a b : string * Note, String.leb a.1 b.1) (map_to_list s)).*2.

(** [saveNote]: [store.add(note)]. *)
Definition saveNote (note : Note) (db : Database) : Database * Settled string :=
  if opens db then
    match id note with
    | None => (db, Rejected DataError)
    | Some key =>
        match store db !! key with
        | Some _ => (db, Rejected ConstraintError)
        | None => (withStore (<[key := note]> (store db)) db, Resolved key)
        end
    end
  else (db, Rejected OpenFailed).

(** [updateNote]: [store.put(note)]. *)
Definition updateNote (note : Note) (db : Database) : Database * Settled unit :=
  if opens db then
    match id note with
    | None => (db, Rejected DataError)
    | Some key => (withStore (<[key := note]> (store db)) db, Resolved ())
    end
  else (db, Rejected OpenFailed).

(** The comparison of [getAllNotes]:
    [new Date(b.timestamp) - new Date(a.timestamp)] is not positive. *)
Definition newestFirst (a b : Note) : bool := (timestamp b <=? timestamp a)%Z.

(** [getAllNotes]: all notes, the newest first. *)
Definition getAllNotes (db : Database) : Settled (list Note) :=
  if opens db then Resolved (stableSort newestFirst (getAll (store db)))
  else Rejected OpenFailed.

(** [getNoteById]: [None] for [null]. *)
Definition getNoteById (noteId : string) (db : Database) : Settled (option Note) :=
  if opens db then Resolved (store db !! noteId) else Rejected OpenFailed.

(** [getNotesByUrl]: [index('url').getAll(url)]. *)
Definition getNotesByUrl (u : string) (db : Database) : Settled (list Note) :=
  if opens db then Resolved (filter (λ n, url n = Some u) (getAll (store db)))
  else Rejected OpenFailed.

(** [getNotesByTag]: the index on [tags] has an entry for each tag of a
    note. *)
Definition getNotesByTag (tag : string) (db : Database) : Settled (list Note) :=
  if opens db then Resolved (filter (λ n, tag ∈ default [] (tags n)) (getAll (store db)))
  else Rejected OpenFailed.

(** [deleteNote]: [store.delete(noteId)]. *)
Definition deleteNote (noteId : string) (db : Database) : Database * Settled unit :=
  if opens db then (withStore (delete noteId (store db)) db, Resolved ())
  else (db, Rejected OpenFailed).

(** [getAllTags]: the tags of all notes, each once, in the order of
    [Array.prototype.sort()] without a comparison, by code units. *)
Definition getAllTags (db : Database) : Settled (list string) :=
  match getAllNotes db with
  | Resolved notes =>
      Resolved (stableSort String.leb (remove_dups (notes ≫= λ n, default [] (tags n))))
  | Rejected e => Rejected e
  end.

(** The test of [searchNotes] on one note; reading [text] or [title] of a
    note that has none throws. *)
Definition matchesQuery (lowerQuery : string) (note : Note) : Settled bool :=
  match text note with
  | None => Rejected JsTypeError
  | Some t =>
      if JsString.includes lowerQuery (JsString.toLowerCase t) then Resolved true
      else
        match title note with
        | None => Rejected JsTypeError
        | Some ti =>
            if JsString.includes lowerQuery (JsString.toLowerCase ti) then Resolved true
            else
              match comment note with
              | Some c =>
                  if negb (bool_decide (c = EmptyString))
                     && JsString.includes lowerQuery (JsString.toLowerCase c)
                  then Resolved true
                  else Resolved (existsb (λ tag, JsString.includes lowerQuery
                                                   (JsString.toLowerCase tag))
                                   (default [] (tags note)))
              | None =>
                  Resolved (existsb (λ tag, JsString.includes lowerQuery
                                              (JsString.toLowerCase tag))
                              (default [] (tags note)))
              end
        end
  end.

(** [notes.filter(...)] with a test that may throw. *)
Fixpoint filterNotes (lowerQuery : string) (notes : list Note) : Settled (list Note) :=
  match notes with
  | [] => Resolved []
  | note :: rest =>
      match matchesQuery lowerQuery note with
      | Rejected e => Rejected e
      | Resolved keep =>
          match filterNotes lowerQuery rest with
          | Rejected e => Rejected e
          | Resolved found => Resolved (if keep then note :: found else found)
          end
      end
  end.

(** [searchNotes]. *)
Definition searchNotes (query : string) (db : Database) : Settled (list Note) :=
  match getAllNotes db with
  | Resolved notes => filterNotes (JsString.toLowerCase query) notes
  | Rejected e => Rejected e
  end.

(** [clearAllNotes]: [store.clear()]. *)
Definition clearAllNotes (db : Database) : Database * Settled unit :=
  if opens db then (withStore ∅ db, Resolved ()) else (db, Rejected OpenFailed).

(** One turn of the loop of [importNotes]: [saveNote], and [updateNote]
    when that rejects; the note counts when either resolves. *)
Definition importNote (acc : Database * nat) (note : Note) : Database * nat :=
  let '(db, importedCount) := acc in
  match saveNote note db with
  | (db1, Resolved _) => (db1, importedCount + 1)
  | (db1, Rejected _) =>
      match updateNote note db1 with
      | (db2, Resolved _) => (db2, importedCount + 1)
      | (db2, Rejected _) => (db2, importedCount)
      end
  end.

(** [importNotes], on the notes [JSON.parse] made of the text. *)
Definition importNotes (notes : list Note) (db : Database) : Database * nat :=
  foldl importNote (db, 0) notes.

(** The store once a note has been put into it; a note without a key
    is not stored. *)
Definition upsert (s : gmap string Note) (note : Note) : gmap string Note :=
  match id note with
  | Some key => <[key := note]> s
  | None => s
  end.

(** Every note is stored under its own key. *)
Definition keyed (db : Database) : Prop :=
  ∀ key note, store db !! key = Some note → id note = Some key.

End Db.

(** Example notes and a database holding two of them. *)
Module DbExample.

Definition older : Db.Note :=
  {| Db.id := Some "a1"; Db.timestamp := 1000; Db.url := Some "https://example.org/";
     Db.title := Some "Example"; Db.text := Some "Hello World";
     Db.comment := None; Db.tags := Some ["research"; "Important"] |}.

Definition newer : Db.Note :=
  {| Db.id := Some "b2"; Db.timestamp := 2000; Db.url := Some "https://example.org/";
     Db.title := Some "Example"; Db.text := Some "second thoughts";
     Db.comment := Some "to read"; Db.tags := Some ["research"] |}.

(** A later version of [older]. *)
Definition revised : Db.Note :=
  {| Db.id := Some "a1"; Db.timestamp := 3000; Db.url := Some "https://example.org/";
     Db.title := Some "Example"; Db.text := Some "Hello again";
     Db.comment := None; Db.tags := None |}.

Definition empty : Db.Database := {| Db.opens := true; Db.store := ∅ |}.

Definition two : Db.Database :=
  {| Db.opens := true; Db.store := <["a1" := older]> (<["b2" := newer]> ∅) |}.

End DbExample.

(** * The XPath utility module *)

Module XPathUtils.

(** [getXPath] as the module exports it: there is no guard for a missing
    element, whose [id] cannot be read. *)
Fixpoint getXPath_up (root : Node) (rp : list nat) : Completion string :=
  let p := rev rp in
  match nodeAt root p with
  | None => Throw TypeError
  | Some element =>
      if negb (bool_decide (idOf element = EmptyString)) then
        Normal ("//*[@id=" +:+ JsString.dquote +:+ idOf element +:+ JsString.dquote +:+ "]")
      else if bool_decide (bodyPath root = Some p) then Normal "/html/body"
      else if bool_decide (documentElementPath root = Some p) then Normal "/html"
      else
        match rp with
        | [] => Normal EmptyString
        | i :: rp' =>
            match nodeAt root (rev rp') with
            | None => Normal EmptyString
            | Some parent =>
                match getXPath_loop (childNodes parent) i (tagNameOf element) 0 with
                | None => Normal EmptyString
                | Some index =>
                    match element with
                    | Element _ e _ =>
                        bindC (getXPath_up root rp') (λ parentXPath,
                          Normal (parentXPath +:+ "/" +:+ JsString.toLowerCase (tagName e)
                                  +:+ "[" +:+ JsString.ofNat (index + 1) +:+ "]"))
                    | _ => Throw TypeError
                    end
                end
            end
        end
  end.

Definition getXPath (root : Node) (p : path) : Completion string :=
  getXPath_up root (rev p).

(** [findTextInElement]: the first [Text] node below the element, in
    document order, that contains the text, with the index of the text
    in it; [None] for [null]. A walker cannot start from a missing
    element. *)
Definition findTextInElement (doc : Node) (element : path) (t : string)
    : Completion (option (path * nat)) :=
  match nodeAt doc element with
  | None => Throw TypeError
  | Some root =>
      Normal ((λ found : path * nat, (element ++ found.1, found.2))
                <$> firstTextWith t (textDescendants root))
  end.

End XPathUtils.

(** * Capturing a note *)

(** The white space and line terminators of JavaScript among the code
    units below 256. *)
Definition isWhiteSpace (c : ascii) : bool :=
  let n := nat_of_ascii c in
  ((9 <=? n) && (n <=? 13)) || (n =? 32) || (n =? 160).

Fixpoint trimStart (s : string) : string :=
  match s with
  | EmptyString => EmptyString
  | String c s' => if isWhiteSpace c then trimStart s' else s
  end.

Fixpoint trimEnd (s : string) : string :=
  match s with
  | EmptyString => EmptyString
  | String c s' =>
      match trimEnd s' with
      | EmptyString => if isWhiteSpace c then EmptyString else String c EmptyString
      | t => String c t
      end
  end.

(** [String.prototype.trim]. *)
Definition trim (s : string) : string := trimEnd (trimStart s).

(** What the window reports to [captureNoteContext] besides the tree
    and the ranges of the selection. *)
Record Window := mkWindow {
  selectionText : string;   (* [selection.toString()] *)
  href : string;            (* [window.location.href] *)
  documentTitle : string;
  roundedScrollY : Z;       (* [Math.round(window.scrollY)] *)
  roundedScrollX : Z;
  innerWidth : Z;
  innerHeight : Z;
  scrollHeight : Z          (* of the document element *)
}.

(** The object [captureNoteContext] returns. *)
Record CapturedNote := mkCapturedNote {
  capturedText : string;
  capturedUrl : string;
  capturedTitle : string;
  capturedScrollY : Z;
  capturedScrollX : Z;
  capturedElementPath : string;
  capturedStartOffset : nat;
  capturedEndOffset : nat;
  textInParentOffset : Z;   (* [-1] when the text is not in the parent's text *)
  viewportWidth : Z;
  viewportHeight : Z;
  documentHeight : Z;
  parentTagName : string
}.

Fixpoint commonPrefix (p q : path) : path :=
  match p, q with
  | i :: p', j :: q' => if bool_decide (i = j) then i :: commonPrefix p' q' else []
  | _, _ => []
  end.

(** [range.commonAncestorContainer]. *)
Definition commonAncestorContainer (range : Range) : path :=
  commonPrefix (startContainer range) (endContainer range).

(** [captureNoteContext]. *)
Definition captureNoteContext (win : Window) (w : World)
    : Completion (option CapturedNote) :=
  match selection w with
  | None => Normal None
  | Some sel =>
      match ranges sel with
      | [] => Normal None
      | range :: _ =>
          let t := trim (selectionText win) in
          if String.length t =? 0 then Normal None
          else
            let container := commonAncestorContainer range in
            let element :=
              match nodeAt (document w) container with
              | Some (Text _) =>
                  match lastIndex container with
                  | Some _ => Some (parentPath container)
                  | None => None
                  end
              | Some _ => Some container
              | None => None
              end in
            match element ≫= (λ p, pair p <$> nodeAt (document w) p) with
            | None => Throw TypeError
            | Some (p, elementNode) =>
                let parentText := default EmptyString (textContent elementNode) in
                let textInParent :=
                  match JsString.indexOf t parentText with
                  | Some k => Z.of_nat k
                  | None => (-1)%Z
                  end in
                bindC (getXPath (document w) p) (λ xpath,
                  match documentElementPath (document w) with
                  | None => Throw TypeError
                  | Some _ =>
                      Normal (Some
                        {| capturedText := t;
                           capturedUrl := href win;
                           capturedTitle := documentTitle win;
                           capturedScrollY := roundedScrollY win;
                           capturedScrollX := roundedScrollX win;
                           capturedElementPath := xpath;
                           capturedStartOffset := startOffset range;
                           capturedEndOffset := endOffset range;
                           textInParentOffset := textInParent;
                           viewportWidth := innerWidth win;
                           viewportHeight := innerHeight win;
                           documentHeight := scrollHeight win;
                           parentTagName :=
                             match tagNameOf elementNode with
                             | Some tag =>
                                 if bool_decide (tag = EmptyString) then "unknown"
                                 else JsString.toLowerCase tag
                             | None => "unknown"
                             end |})
                  end)
            end
      end
  end.

(** ** Paths that the example engine resolves

    [getXPath] writes an element's path either from its [id] or as a
    chain of [tag[k]] steps below [/html/body]. What follows is what the
    second form relies on: the names of an HTML document and elements
    without an [id] from the body down. *)







(** * Properties *)

(** ** Strings *)

Lemma append_nil_l (s : string) : EmptyString +:+ s = s.
Proof. reflexivity. Qed.

Lemma append_cons (c : ascii) (s t : string) : String c s +:+ t = String c (s +:+ t).
Proof. reflexivity. Qed.

Lemma append_empty_r (s : string) : s +:+ EmptyString = s.
Proof. induction s as [|c s IH]; [done | by rewrite append_cons, IH]. Qed.

Lemma append_assoc (a b c : string) : (a +:+ b) +:+ c = a +:+ (b +:+ c).
Proof. induction a as [|x a IH]; [done | by rewrite !append_cons, IH]. Qed.

Lemma take_drop (n : nat) (s : string) : JsString.take n s +:+ JsString.drop n s = s.
Proof.
  revert s; induction n as [|n IH]; intros [|c s]; try done.
  cbn [JsString.take JsString.drop]. by rewrite append_cons, IH.
Qed.

(** Cutting [[so, eo)] out of [d] and splitting what is left at [so]
    loses nothing: the three pieces still spell [d]. *)
Lemma extract_split_text (d : string) (so eo : nat) :
  so ≤ eo →
  JsString.take so (JsString.take so d +:+ JsString.drop eo d)
    +:+ JsString.substringData d so (eo - so)
    +:+ JsString.drop so (JsString.take so d +:+ JsString.drop eo d) = d.
Proof.
  unfold JsString.substringData.
  revert d eo; induction so as [|so IH]; intros d eo Hle.
  - replace (eo - 0) with eo by lia.
    assert (Ht : ∀ s, JsString.take 0 s = EmptyString) by (by intros []).
    assert (Hd : ∀ s, JsString.drop 0 s = s) by (by intros []).
    rewrite !Ht, !Hd, !append_nil_l. apply take_drop.
  - destruct d as [|c d].
    { assert (Ht : ∀ n, JsString.take n EmptyString = EmptyString) by (by intros []).
      assert (Hd : ∀ n, JsString.drop n EmptyString = EmptyString) by (by intros []).
      rewrite ?Ht, ?Hd, ?append_nil_l. by rewrite ?Ht, ?Hd. }
    destruct eo as [|eo]; [lia|].
    cbn [JsString.take JsString.drop]. rewrite !append_cons.
    cbn [JsString.take JsString.drop]. rewrite ?append_cons.
    f_equal. replace (S eo - S so) with (eo - so) by lia. apply IH. lia.
Qed.

Lemma includes_indexOf (t s : string) :
  JsString.includes t s = true → ∃ k, JsString.indexOf t s = Some k.
Proof.
  unfold JsString.includes. intros Hb. apply bool_decide_eq_true in Hb.
  destruct Hb as [k Hk]. eauto.
Qed.

(** ** Host-independent facts about the script *)

Section ScriptFacts.
Context {H : Host}.

Lemma findElementContainingText_short (t : string) (doc : Node) :
  String.length t < 3 → findElementContainingText t doc = Normal None.
Proof.
  intros Hlen. unfold findElementContainingText.
  destruct (bool_decide (t = EmptyString)); [done|].
  by destruct (Nat.ltb_spec (String.length t) 3); [|lia].
Qed.

Lemma applyHighlightFromData_existing (noteData : NoteData) (w : World) (m : path) :
  querySelectorNoteId (noteId noteData) (document w) = Some m →
  applyHighlightFromData noteData w = Normal (w, Some m).
Proof. intros Hq. unfold applyHighlightFromData. by rewrite Hq. Qed.

Lemma applyHighlightFromData_path (noteData : NoteData) (w : World) (e : path) :
  querySelectorNoteId (noteId noteData) (document w) = None →
  getElementByXPath (elementPath noteData) (document w) = Some e →
  applyHighlightFromData noteData w = Normal (tryApplyHighlight e noteData w).
Proof. intros Hq Hx. unfold applyHighlightFromData. by rewrite Hq, Hx. Qed.

Lemma applyHighlightFromData_search (noteData : NoteData) (w : World) (e : path) :
  querySelectorNoteId (noteId noteData) (document w) = None →
  getElementByXPath (elementPath noteData) (document w) = None →
  findElementContainingText (text noteData) (document w) = Normal (Some e) →
  applyHighlightFromData noteData w = Normal (tryApplyHighlight e noteData w).
Proof. intros Hq Hx Hf. unfold applyHighlightFromData. by rewrite Hq, Hx, Hf. Qed.

Lemma applyHighlightFromData_retry (noteData : NoteData) (w : World) :
  querySelectorNoteId (noteId noteData) (document w) = None →
  getElementByXPath (elementPath noteData) (document w) = None →
  findElementContainingText (text noteData) (document w) = Normal None →
  applyHighlightFromData noteData w = Normal (scheduleHighlightRetry noteData w, None).
Proof. intros Hq Hx Hf. unfold applyHighlightFromData. by rewrite Hq, Hx, Hf. Qed.

Lemma runRetryHighlight_not_found (noteData : NoteData) (w : World) :
  findElementContainingText (text noteData) (document w) = Normal None →
  runRetryHighlight noteData w = w.
Proof. intros Hf. unfold runRetryHighlight. by rewrite Hf. Qed.

Lemma getElementByXPath_empty (doc : Node) : getElementByXPath EmptyString doc = None.
Proof. unfold getElementByXPath. by rewrite evaluate_empty. Qed.

End ScriptFacts.

(** ** C7: the minimum-length gate of the text search *)

(** C7. For every target text shorter than 3 code units (the empty text
    included) and every tree, [findElementContainingText] returns [null];
    such a text resolves only through an existing marker or the structural
    path: when neither is there, [applyHighlightFromData] returns [null]
    after handing the note to the retry scheduler, and the retry callback
    changes nothing. *)
Theorem C7_short_text_never_found `{Host} (noteData : NoteData) (w : World) :
  String.length (text noteData) < 3 →
  (∀ doc, findElementContainingText (text noteData) doc = Normal None)
  ∧ (querySelectorNoteId (noteId noteData) (document w) = None →
     getElementByXPath (elementPath noteData) (document w) = None →
     applyHighlightFromData noteData w = Normal (scheduleHighlightRetry noteData w, None))
  ∧ runRetryHighlight noteData w = w.
Proof.
  intros Hlen. split; [|split].
  - intros doc. by apply findElementContainingText_short.
  - intros Hq Hx. apply applyHighlightFromData_retry; [done..|].
    by apply findElementContainingText_short.
  - apply runRetryHighlight_not_found. by apply findElementContainingText_short.
Qed.

Lemma C7_witness :
  String.length (text (mkNoteData "n2" "hi" "/html/body/p[2]" None 0)) < 3
  ∧ findElementContainingText (H := ExampleHost.host) "hi"
      (Example.page [Example.element 4 "P" [Text "oh hi there"]]) = Normal None.
Proof.
  split; [simpl; lia|].
  apply (C7_short_text_never_found (H := ExampleHost.host)
           (mkNoteData "n2" "hi" "/html/body/p[2]" None 0)
           (initialWorld Example.helloPage)).
  simpl; lia.
Defined.

(** ** C9: encoding a detached node *)

Lemma C9_counterexample :
  ¬ (∀ root : Node, getXPath root [] = Normal EmptyString).
Proof. intros Hall. specialize (Hall Example.detachedDiv). vm_compute in Hall. discriminate. Qed.

(** C9, amended. For every node without a parent that carries no
    identifier, [getXPath] returns the empty string (a parentless node
    with an identifier gets the identifier shortcut instead); and the
    empty string decodes to no node, so a caller that stores it ends up
    with an unresolved path. *)
Theorem C9_detached_without_id `{Host} (root : Node) :
  idOf root = EmptyString →
  getXPath root [] = Normal EmptyString
  ∧ ∀ doc, getElementByXPath EmptyString doc = None.
Proof.
  intros Hid. split; [|apply getElementByXPath_empty].
  unfold getXPath. simpl. rewrite Hid. simpl.
  assert (bodyPath root ≠ Some []) as Hb.
  { unfold bodyPath. destruct (documentElementPath root) as [de|]; [|done].
    destruct (nodeAt root de); [|done]. destruct (hasTag "HTML" n); [|done].
    destruct (findIndex _ _); simpl; [|done]. intros [= Heq]. by destruct de. }
  assert (documentElementPath root ≠ Some []) as Hd.
  { unfold documentElementPath. destruct root; try done.
    by destruct (findIndex isElement children). }
  rewrite (bool_decide_eq_false_2 _ Hb), (bool_decide_eq_false_2 _ Hd). done.
Qed.

Lemma C9_witness :
  idOf (Example.element 9 "DIV" [Text "hello"]) = EmptyString
  ∧ getXPath (Example.element 9 "DIV" [Text "hello"]) [] = Normal EmptyString.
Proof.
  split; [reflexivity|].
  apply (C9_detached_without_id (H := ExampleHost.host) (Example.element 9 "DIV" [Text "hello"])).
  reflexivity.
Defined.

(** ** C10: a selection the script will not wrap *)

(** C10. When there is no selection, or it has no range, or it is
    collapsed, or its first range starts and ends in different nodes,
    [applyHighlightToSelection] returns [false] and leaves the document as
    it is: nothing changes at all, except that in the last case the
    selection is cleared. *)
Theorem C10_selection_left_alone (noteId : string) (color : option string) (w : World) :
  (selection w = None
   ∨ ∃ sel, selection w = Some sel
       ∧ (rangeCount sel = 0 ∨ isCollapsed sel = true
          ∨ ∃ range, head (ranges sel) = Some range
              ∧ startContainer range ≠ endContainer range)) →
  (applyHighlightToSelection noteId color w).2 = false
  ∧ document (applyHighlightToSelection noteId color w).1 = document w
  ∧ ((applyHighlightToSelection noteId color w).1 = w
     ∨ ∃ sel, selection w = Some sel
         ∧ (applyHighlightToSelection noteId color w).1
           = withSelection (Some (removeAllRanges sel)) w).
Proof.
  unfold applyHighlightToSelection.
  intros [Hnone | (sel & Hsel & Hcase)].
  - rewrite Hnone. simpl. repeat split; auto.
  - rewrite Hsel.
    destruct ((rangeCount sel =? 0) || isCollapsed sel) eqn:Hguard; [simpl; repeat split; auto|].
    apply orb_false_iff in Hguard as [Hcount Hcollapsed].
    apply Nat.eqb_neq in Hcount.
    destruct Hcase as [Hzero | [Hcol | (range & Hhead & Hdiff)]];
      [done | congruence |].
    destruct (ranges sel) as [|r rest]; [done|].
    injection Hhead as ->.
    rewrite bool_decide_eq_true_2 by done. simpl. repeat split; eauto.
Qed.

Lemma C10_witness :
  let w := withSelection (Some Example.crossSelection) (initialWorld Example.twoParagraphs) in
  (applyHighlightToSelection "n1" None w).2 = false
  ∧ document (applyHighlightToSelection "n1" None w).1
    = Example.twoParagraphs.
Proof.
  intros w.
  destruct (C10_selection_left_alone "n1" None w) as (Hr & Hd & _).
  - right. exists Example.crossSelection. split; [reflexivity|].
    right. right. eexists. split; [reflexivity|]. simpl. discriminate.
  - split; [exact Hr | exact Hd].
Defined.

(** ** C5: an anchor whose text is empty *)

(** On a page where the stored path no longer decodes, the note with the
    empty text is not turned away: it comes back from
    [applyHighlightFromData] with one retry counted and one retry timer
    pending. *)
Lemma C5_counterexample :
  text Example.emptyNote = EmptyString
  ∧ ∃ w',
      applyHighlightFromData (H := ExampleHost.host) Example.emptyNote
        (initialWorld Example.helloPage) = Normal (w', None)
      ∧ timers w' = [mkTimer 1 1000 (RetryHighlightTask Example.emptyNote)]
      ∧ retryCounts w' !! retryKey Example.emptyNote = Some 1.
Proof. split; [reflexivity|]. eexists. split; [reflexivity|]. split; reflexivity. Qed.

(** C5, amended. An anchor whose text is empty is not rejected where
    resolution starts. The text search never locates it, in any tree, so
    it resolves only through a marker that is already there or through
    its structural path; when neither yields a container it is handed to
    the retry scheduler like any other anchor, and the retry callback
    then changes nothing. *)
Theorem C5_empty_text `{Host} (noteData : NoteData) (w : World) :
  text noteData = EmptyString →
  (∀ doc, findElementContainingText (text noteData) doc = Normal None)
  ∧ (querySelectorNoteId (noteId noteData) (document w) = None →
     getElementByXPath (elementPath noteData) (document w) = None →
     applyHighlightFromData noteData w = Normal (scheduleHighlightRetry noteData w, None))
  ∧ (∀ w', runRetryHighlight noteData w' = w').
Proof.
  intros Hempty.
  assert (Hnone : ∀ doc, findElementContainingText (text noteData) doc = Normal None).
  { intros doc. apply findElementContainingText_short. rewrite Hempty. simpl. lia. }
  split; [done|]. split.
  - intros Hq Hx. by apply applyHighlightFromData_retry.
  - intros w'. by apply runRetryHighlight_not_found.
Qed.

Lemma C5_witness :
  text Example.emptyNote = EmptyString
  ∧ applyHighlightFromData (H := ExampleHost.host) Example.emptyNote
      (initialWorld Example.helloPage)
    = Normal (scheduleHighlightRetry Example.emptyNote (initialWorld Example.helloPage), None).
Proof.
  split; [reflexivity|].
  apply (C5_empty_text (H := ExampleHost.host) Example.emptyNote
           (initialWorld Example.helloPage)); reflexivity.
Defined.

(** ** Trees *)

(** Induction on a node with the hypothesis for each child. *)
Lemma Node_forall_ind (P : Node → Prop) :
  (∀ d, P (Text d)) →
  (∀ i e cs, Forall P cs → P (Element i e cs)) →
  (∀ cs, Forall P cs → P (DocumentNode cs)) →
  ∀ n, P n.
Proof.
  intros HT HE HD. fix IH 1. intros [d | i e cs | cs].
  - apply HT.
  - apply HE. induction cs as [|c cs IHcs]; constructor; [apply IH | apply IHcs].
  - apply HD. induction cs as [|c cs IHcs]; constructor; [apply IH | apply IHcs].
Qed.

Lemma parentPath_snoc (q : path) (i : nat) : parentPath (q ++ [i]) = q.
Proof. unfold parentPath. by rewrite removelast_last. Qed.

Lemma lastIndex_snoc (q : path) (i : nat) : lastIndex (q ++ [i]) = Some i.
Proof. unfold lastIndex. apply last_snoc. Qed.

Lemma path_snoc (p : path) : p = [] ∨ ∃ q i, p = q ++ [i].
Proof.
  destruct p as [|a p] using rev_ind; [by left | right; eauto].
Qed.

Lemma childNodes_setChildNodes (n : Node) (cs : list Node) :
  childNodes n ≠ [] ∨ isElement n = true →
  childNodes (setChildNodes n cs) = cs.
Proof. destruct n; simpl; intros [?|?]; done. Qed.

Lemma setChildNodes_twice (n : Node) (a b : list Node) :
  setChildNodes (setChildNodes n a) b = setChildNodes n b.
Proof. by destruct n. Qed.

Lemma setChildNodes_same (n : Node) : setChildNodes n (childNodes n) = n.
Proof. by destruct n. Qed.

Lemma nidOf_setChildNodes (n : Node) (cs : list Node) : nidOf (setChildNodes n cs) = nidOf n.
Proof. by destruct n. Qed.

Lemma isElement_setChildNodes (n : Node) (cs : list Node) :
  isElement (setChildNodes n cs) = isElement n.
Proof. by destruct n. Qed.

Lemma child_lookup_not_nil (n c : Node) (i : nat) :
  childNodes n !! i = Some c → childNodes n ≠ [].
Proof. by destruct (childNodes n). Qed.

Lemma nodeAt_app (n : Node) (p q : path) :
  nodeAt n (p ++ q) = nodeAt n p ≫= λ m, nodeAt m q.
Proof.
  revert n; induction p as [|i p IH]; intros n; simpl; [done|].
  destruct (childNodes n !! i); simpl; [apply IH | done].
Qed.

Lemma nodeAt_snoc (n : Node) (q : path) (i : nat) :
  nodeAt n (q ++ [i]) = nodeAt n q ≫= λ m, childNodes m !! i.
Proof.
  rewrite nodeAt_app. destruct (nodeAt n q) as [m|]; simpl; [|done].
  by destruct (childNodes m !! i).
Qed.

Lemma updateNodeAt_app (p q : path) (f : Node → Node) (n : Node) :
  updateNodeAt (p ++ q) f n = updateNodeAt p (updateNodeAt q f) n.
Proof.
  revert n; induction p as [|i p IH]; intros n; simpl; [done|].
  destruct (childNodes n !! i); [by rewrite IH | done].
Qed.

Lemma nodeAt_updateNodeAt (p : path) (f : Node → Node) (n m : Node) :
  nodeAt n p = Some m → nodeAt (updateNodeAt p f n) p = Some (f m).
Proof.
  revert n; induction p as [|i p IH]; intros n; simpl; [congruence|].
  destruct (childNodes n !! i) as [c|] eqn:Hc; [|done]. intros Hm.
  rewrite childNodes_setChildNodes by (left; by eapply child_lookup_not_nil).
  rewrite list_lookup_insert_eq by (by eapply lookup_lt_Some).
  by apply IH.
Qed.

Lemma nodeAt_updateNodeAt_prefix (p q : path) (f : Node → Node) (n m : Node) :
  nodeAt n p = Some m →
  nodeAt (updateNodeAt (p ++ q) f n) p = Some (updateNodeAt q f m).
Proof. intros Hm. rewrite updateNodeAt_app. by apply nodeAt_updateNodeAt. Qed.

Lemma updateNodeAt_compose (p : path) (f g : Node → Node) (n : Node) :
  updateNodeAt p g (updateNodeAt p f n) = updateNodeAt p (g ∘ f) n.
Proof.
  revert n; induction p as [|i p IH]; intros n; simpl; [done|].
  destruct (childNodes n !! i) as [c|] eqn:Hc; [|by rewrite Hc].
  rewrite childNodes_setChildNodes by (left; by eapply child_lookup_not_nil).
  rewrite list_lookup_insert_eq by (by eapply lookup_lt_Some).
  by rewrite setChildNodes_twice, list_insert_insert_eq, IH.
Qed.

Lemma updateNodeAt_ext (p : path) (f g : Node → Node) (n : Node) :
  (∀ m, nodeAt n p = Some m → f m = g m) →
  updateNodeAt p f n = updateNodeAt p g n.
Proof.
  revert n; induction p as [|i p IH]; intros n Hfg; simpl; [by apply Hfg|].
  destruct (childNodes n !! i) as [c|] eqn:Hc; [|done].
  f_equal. f_equal. apply IH. intros m Hm. apply Hfg. simpl. by rewrite Hc.
Qed.

Lemma updateChildren_compose (n : Node) (p : path) (h k : list Node → list Node) (m : Node) :
  nodeAt n p = Some m → isElement m = true →
  updateChildren (updateChildren n p h) p k = updateChildren n p (k ∘ h).
Proof.
  intros Hm He. unfold updateChildren. rewrite updateNodeAt_compose.
  apply updateNodeAt_ext. intros m' Hm'. simpl.
  rewrite setChildNodes_twice. f_equal.
  assert (m' = m) as -> by congruence.
  by rewrite childNodes_setChildNodes by (by right).
Qed.

Lemma spliceAt_snoc (root : Node) (q : path) (i : nat) (g : Node → list Node) :
  spliceAt root (q ++ [i]) g = updateChildren root q (spliceChild i g).
Proof. unfold spliceAt. by rewrite lastIndex_snoc, parentPath_snoc. Qed.

(** *** Text content *)

Lemma descendantText_children (n : Node) :
  descendantText n = match n with Text d => d | _ => concatText (childNodes n) end.
Proof.
  destruct n as [d | i e cs | cs]; simpl; [done | |];
    induction cs as [|c cs IH]; simpl; [done | by rewrite IH | done | by rewrite IH].
Qed.

Lemma concatText_app (a b : list Node) : concatText (a ++ b) = concatText a +:+ concatText b.
Proof.
  induction a as [|c a IH]; simpl; [done|].
  unfold concatText in *. simpl. by rewrite IH, append_assoc.
Qed.

Lemma concatText_cons (c : Node) (cs : list Node) :
  concatText (c :: cs) = descendantText c +:+ concatText cs.
Proof. done. Qed.

Lemma concatText_insert (cs : list Node) (i : nat) (c c' : Node) :
  cs !! i = Some c → descendantText c' = descendantText c →
  concatText (<[i := c']> cs) = concatText cs.
Proof.
  unfold concatText. revert i; induction cs as [|x cs IH]; intros [|i]; simpl; try done.
  - intros [= ->] Heq. by rewrite Heq.
  - intros Hc Heq. by rewrite (IH i).
Qed.

Lemma descendantText_setChildNodes (n : Node) (cs : list Node) :
  concatText cs = concatText (childNodes n) →
  descendantText (setChildNodes n cs) = descendantText n.
Proof.
  intros Heq. destruct n as [d | i e cs0 | cs0]; [done | |];
    by rewrite !descendantText_children.
Qed.

Lemma descendantText_updateNodeAt (p : path) (f : Node → Node) (n : Node) :
  (∀ m, nodeAt n p = Some m → descendantText (f m) = descendantText m) →
  descendantText (updateNodeAt p f n) = descendantText n.
Proof.
  revert n; induction p as [|i p IH]; intros n Hf; simpl; [by apply Hf|].
  destruct (childNodes n !! i) as [c|] eqn:Hc; [|done].
  apply descendantText_setChildNodes. eapply concatText_insert; [done|].
  apply IH. intros m Hm. apply Hf. simpl. by rewrite Hc.
Qed.

Lemma concatText_spliceChild (i : nat) (g : Node → list Node) (cs : list Node) :
  (∀ c, cs !! i = Some c → concatText (g c) = descendantText c) →
  concatText (spliceChild i g cs) = concatText cs.
Proof.
  intros Hg. unfold spliceChild. destruct (cs !! i) as [c|] eqn:Hc; [|done].
  rewrite !concatText_app, (Hg c eq_refl).
  rewrite <- (take_drop_middle cs i c Hc) at 3.
  by rewrite concatText_app, concatText_cons.
Qed.

(** *** DOM trees *)

Lemma withoutDocuments_children (i : nat) (e : ElementData) (cs : list Node) :
  withoutDocuments (Element i e cs) = forallb withoutDocuments cs.
Proof. simpl. induction cs as [|c cs IH]; simpl; [done | by rewrite IH]. Qed.

Lemma withoutDocuments_nodeAt (n m : Node) (p : path) :
  withoutDocuments n = true → nodeAt n p = Some m → withoutDocuments m = true.
Proof.
  revert n; induction p as [|i p IH]; intros n Hn; simpl; [congruence|].
  destruct (childNodes n !! i) as [c|] eqn:Hc; [|done].
  apply IH. destruct n as [d | j e cs | cs]; [done | | done].
  rewrite withoutDocuments_children in Hn. simpl in Hc.
  rewrite forallb_forall in Hn. apply Hn. apply list_elem_of_In.
  by eapply list_elem_of_lookup_2.
Qed.

(** In a DOM tree the parent of a [Text] node is an element. *)
Lemma properDocument_text_parent (doc : Node) (q : path) (i : nat) (d : string) :
  properDocument doc = true → nodeAt doc (q ++ [i]) = Some (Text d) →
  ∃ j e cs, nodeAt doc q = Some (Element j e cs) ∧ cs !! i = Some (Text d).
Proof.
  intros Hdoc Ht. rewrite nodeAt_snoc in Ht.
  destruct (nodeAt doc q) as [parent|] eqn:Hq; simpl in Ht; [|done].
  destruct doc as [| |roots]; try done. simpl in Hdoc. rewrite forallb_forall in Hdoc.
  destruct q as [|r q].
  - simpl in Hq. injection Hq as <-. simpl in Ht.
    apply list_elem_of_lookup_2, list_elem_of_In, Hdoc in Ht. done.
  - simpl in Hq. destruct (roots !! r) as [c|] eqn:Hr; [|done].
    apply list_elem_of_lookup_2, list_elem_of_In, Hdoc in Hr.
    apply andb_true_iff in Hr as [_ Hr].
    pose proof (withoutDocuments_nodeAt _ _ _ Hr Hq) as Hp.
    destruct parent as [d' | j e cs | cs]; [done | eauto | done].
Qed.

(** *** The text nodes a walker visits *)

Lemma textNodesOf_children (n : Node) :
  textNodesOf n = match n with
                  | Text d => [([], d)]
                  | _ => textNodesFrom 0 (childNodes n)
                  end.
Proof.
  destruct n as [d | i e cs | cs]; simpl; [done | |];
    generalize 0; induction cs as [|c cs IH]; intros k; simpl; [done | by rewrite IH | done | by rewrite IH].
Qed.

Lemma textNodesFrom_In (k : nat) (cs : list Node) (p : path) (d : string) :
  In (p, d) (textNodesFrom k cs) →
  ∃ j c p', p = (k + j) :: p' ∧ cs !! j = Some c ∧ In (p', d) (textNodesOf c).
Proof.
  revert k; induction cs as [|c cs IH]; intros k; simpl; [done|].
  rewrite in_app_iff, in_map_iff. intros [([p' d'] & [= <- <-] & Hin) | Hin].
  - exists 0, c, p'. simpl. by rewrite Nat.add_0_r.
  - destruct (IH _ Hin) as (j & c' & p' & -> & Hc & Hin').
    exists (S j), c', p'. simpl. split; [f_equal; lia | done].
Qed.

Lemma textNodesFrom_direct (k : nat) (cs : list Node) (j : nat) (d : string) :
  cs !! j = Some (Text d) → In ([k + j], d) (textNodesFrom k cs).
Proof.
  revert k j; induction cs as [|c cs IH]; intros k [|j]; simpl; try done.
  - intros [= ->]. rewrite Nat.add_0_r. simpl. by left.
  - intros Hc. apply in_app_iff. right.
    replace (k + S j) with (S k + j) by lia. by apply IH.
Qed.

Lemma textNodesOf_nodeAt (n : Node) (p : path) (d : string) :
  In (p, d) (textNodesOf n) → nodeAt n p = Some (Text d).
Proof.
  revert p. induction n as [d' | i e cs IH | cs IH] using Node_forall_ind; intros p;
    rewrite textNodesOf_children.
  - simpl. by intros [[= <- <-] | []].
  - intros (j & c & p' & -> & Hc & Hin)%textNodesFrom_In. simpl in Hc |- *. rewrite Hc.
    rewrite Forall_forall in IH. eapply IH; [|done]. by eapply list_elem_of_lookup_2.
  - intros (j & c & p' & -> & Hc & Hin)%textNodesFrom_In. simpl in Hc |- *. rewrite Hc.
    rewrite Forall_forall in IH. eapply IH; [|done]. by eapply list_elem_of_lookup_2.
Qed.

Lemma textDescendants_nodeAt (n : Node) (p : path) (d : string) :
  In (p, d) (textDescendants n) →
  ∃ q i, p = q ++ [i] ∧ nodeAt n p = Some (Text d).
Proof.
  intros Hin. unfold textDescendants in Hin.
  pose proof Hin as (j & c & p' & -> & Hc & Hin')%textNodesFrom_In.
  destruct (path_snoc ((0 + j) :: p')) as [? | (q & i & Hqi)]; [done|].
  exists q, i. split; [done|]. simpl. rewrite Hc. by apply textNodesOf_nodeAt.
Qed.

Lemma textDescendants_direct (n : Node) (i : nat) (d : string) :
  childNodes n !! i = Some (Text d) → In ([i], d) (textDescendants n).
Proof. intros Hc. by apply (textNodesFrom_direct 0). Qed.

Lemma firstTextWith_Some (t : string) (nodes : list (path * string)) (p : path) (k : nat) :
  firstTextWith t nodes = Some (p, k) →
  ∃ d, In (p, d) nodes ∧ JsString.indexOf t d = Some k.
Proof.
  induction nodes as [|[p' d'] nodes IH]; simpl; [done|].
  destruct (JsString.indexOf t d') as [k'|] eqn:Hi.
  - intros [= <- <-]. eauto.
  - intros (d & Hin & Hk)%IH. eauto.
Qed.

Lemma firstTextWith_exists (t : string) (nodes : list (path * string)) (p : path) (d : string) :
  In (p, d) nodes → is_Some (JsString.indexOf t d) → is_Some (firstTextWith t nodes).
Proof.
  induction nodes as [|[p' d'] nodes IH]; simpl; [done|].
  intros [[= -> ->] | Hin] Hsome.
  - destruct Hsome as [k ->]. eauto.
  - destruct (JsString.indexOf t d'); [eauto | by apply IH].
Qed.

(** *** Wrapping a text range *)

Lemma spliceChild_single (i : nat) (x c : Node) (cs : list Node) :
  cs !! i = Some c → spliceChild i (λ _, [x]) cs = <[i := x]> cs.
Proof.
  intros Hc. unfold spliceChild. rewrite Hc.
  rewrite <- (take_drop_middle cs i c Hc) at 3.
  rewrite insert_app_r_alt by (rewrite length_take; lia).
  rewrite length_take, Nat.min_l by (apply lookup_lt_Some in Hc; lia).
  by rewrite Nat.sub_diag.
Qed.

Lemma spliceChild_insert (i : nat) (g : Node → list Node) (x c : Node) (cs : list Node) :
  cs !! i = Some c → spliceChild i g (<[i := x]> cs) = spliceChild i (λ _, g x) cs.
Proof.
  intros Hc. pose proof (lookup_lt_Some _ _ _ Hc) as Hlt. unfold spliceChild.
  rewrite list_lookup_insert_eq, Hc by done.
  rewrite take_insert_ge, drop_insert_lt by lia. done.
Qed.

Lemma spliceChild_three_lookup (i : nat) (a s b c : Node) (cs : list Node) :
  cs !! i = Some c → spliceChild i (λ _, [a; s; b]) cs !! S i = Some s.
Proof.
  intros Hc. pose proof (lookup_lt_Some _ _ _ Hc) as Hlt. unfold spliceChild. rewrite Hc.
  rewrite lookup_app_r by (rewrite length_take; lia).
  rewrite length_take, Nat.min_l by lia.
  by replace (S i - i) with 1 by lia.
Qed.

Lemma spliceChild_three_insert (i : nat) (a s s' b c : Node) (cs : list Node) :
  cs !! i = Some c →
  <[S i := s']> (spliceChild i (λ _, [a; s; b]) cs) = spliceChild i (λ _, [a; s'; b]) cs.
Proof.
  intros Hc. pose proof (lookup_lt_Some _ _ _ Hc) as Hlt. unfold spliceChild. rewrite Hc.
  rewrite insert_app_r_alt by (rewrite length_take; lia).
  rewrite length_take, Nat.min_l by lia.
  by replace (S i - i) with 1 by lia.
Qed.

Lemma updateChildren_at (doc : Node) (q : path) (h : list Node → list Node)
    (j : nat) (e : ElementData) (cs : list Node) :
  nodeAt doc q = Some (Element j e cs) →
  nodeAt (updateChildren doc q h) q = Some (Element j e (h cs)).
Proof. intros Hq. unfold updateChildren. by rewrite (nodeAt_updateNodeAt _ _ _ _ Hq). Qed.

(** Changing a child of the node whose children were just rewritten. *)
Lemma updateNodeAt_child_of_updated (doc : Node) (q : path) (k : nat) (f : Node → Node)
    (h : list Node → list Node) (j : nat) (e : ElementData) (cs : list Node) (c : Node) :
  nodeAt doc q = Some (Element j e cs) → h cs !! k = Some c →
  updateNodeAt (q ++ [k]) f (updateChildren doc q h)
  = updateChildren doc q (λ l, <[k := f c]> (h cs)).
Proof.
  intros Hq Hk. unfold updateChildren.
  rewrite updateNodeAt_app, updateNodeAt_compose.
  apply updateNodeAt_ext. intros m Hm. assert (m = Element j e cs) as -> by congruence.
  simpl. by rewrite Hk.
Qed.

Lemma updateChildren_ext (doc : Node) (q : path) (h k : list Node → list Node) :
  (∀ m, nodeAt doc q = Some m → h (childNodes m) = k (childNodes m)) →
  updateChildren doc q h = updateChildren doc q k.
Proof.
  intros Hhk. unfold updateChildren. apply updateNodeAt_ext.
  intros m Hm. by rewrite (Hhk m Hm).
Qed.

Lemma insertNode_text (doc : Node) (q : path) (i so : nat) (d : string) (node : Node)
    (j : nat) (e : ElementData) (cs : list Node) :
  nodeAt doc q = Some (Element j e cs) → cs !! i = Some (Text d) → isElement node = true →
  insertNode (q ++ [i]) so node doc
  = (updateChildren doc q
       (spliceChild i (λ _, [Text (JsString.take so d); node; Text (JsString.drop so d)])),
     Normal (q ++ [S i])).
Proof.
  intros Hq Hc Hel. unfold insertNode.
  rewrite nodeAt_snoc, Hq. simpl. rewrite Hc, lastIndex_snoc, parentPath_snoc, Hq.
  destruct node; try done. simpl. by rewrite spliceAt_snoc.
Qed.

(** Surrounding part of a [Text] node whose parent is an element never
    throws: the node gives way to the three nodes of [wrapText]. *)
Lemma surroundContents_text (doc : Node) (q : path) (i so eo : nat) (d : string)
    (span : Node) (j : nat) (e : ElementData) (cs : list Node) :
  nodeAt doc q = Some (Element j e cs) → cs !! i = Some (Text d) → isElement span = true →
  surroundContents (q ++ [i]) so eo span doc
  = (updateChildren doc q (spliceChild i (λ _, wrapText so eo span d)),
     Normal (q ++ [S i])).
Proof.
  intros Hq Hc Hel. unfold surroundContents, extractContents, wrapText.
  assert (Hel' : isElement (setChildNodes span []) = true)
    by (by rewrite isElement_setChildNodes).
  destruct (bool_decide (so = eo)) eqn:Hcollapsed.
  - rewrite (insertNode_text _ _ _ _ _ _ _ _ _ Hq Hc Hel').
    cbv beta iota. unfold updateChildren at 1.
    erewrite updateNodeAt_child_of_updated;
      [| done | by eapply spliceChild_three_lookup].
    f_equal. apply updateChildren_ext. intros m Hm.
    assert (m = Element j e cs) as -> by congruence. simpl.
    rewrite (spliceChild_three_insert _ _ _ _ _ _ _ Hc). do 4 f_equal.
    rewrite setChildNodes_twice. f_equal.
    rewrite childNodes_setChildNodes by (by right). done.
  - rewrite nodeAt_snoc, Hq. simpl. rewrite Hc, spliceAt_snoc.
    set (rest := JsString.take so d +:+ JsString.drop eo d).
    assert (Hq1 : nodeAt (updateChildren doc q (spliceChild i (λ _, [Text rest]))) q
                  = Some (Element j e (<[i := Text rest]> cs))).
    { rewrite (updateChildren_at _ _ _ _ _ _ Hq). by erewrite spliceChild_single. }
    assert (Hc1 : <[i := Text rest]> cs !! i = Some (Text rest)).
    { apply list_lookup_insert_eq. by eapply lookup_lt_Some. }
    rewrite (insertNode_text _ _ _ _ _ _ _ _ _ Hq1 Hc1 Hel').
    cbv beta iota. unfold updateChildren at 1.
    erewrite updateNodeAt_child_of_updated;
      [| done | by eapply spliceChild_three_lookup].
    f_equal. erewrite updateChildren_compose; [| done | done].
    apply updateChildren_ext. intros m Hm.
    assert (m = Element j e cs) as -> by congruence. simpl.
    rewrite (spliceChild_three_insert _ _ _ _ _ _ _ Hc1).
    rewrite (spliceChild_insert _ _ _ _ _ Hc). do 4 f_equal.
    rewrite setChildNodes_twice. f_equal.
    rewrite childNodes_setChildNodes by (by right). done.
Qed.

(** *** What [tryApplyHighlight] does to a DOM tree *)

Lemma tryApplyHighlight_found (c : path) (noteData : NoteData) (w : World)
    (root : Node) (p : path) (k : nat) :
  properDocument (document w) = true →
  nodeAt (document w) c = Some root →
  firstTextWith (text noteData) (textDescendants root) = Some (p, k) →
  ∃ q0 i d j e cs,
    p = q0 ++ [i]
    ∧ nodeAt (document w) (c ++ q0) = Some (Element j e cs)
    ∧ cs !! i = Some (Text d)
    ∧ JsString.indexOf (text noteData) d = Some k
    ∧ tryApplyHighlight c noteData w
      = (wrappedWorld (c ++ q0) i k d noteData w, Some (c ++ q0 ++ [S i])).
Proof.
  intros Hdoc Hroot Hfirst.
  pose proof Hfirst as (d & Hin & Hk)%firstTextWith_Some.
  pose proof Hin as (q0 & i & -> & Hnode)%textDescendants_nodeAt.
  assert (Ht : nodeAt (document w) ((c ++ q0) ++ [i]) = Some (Text d)).
  { by rewrite <- app_assoc, nodeAt_app, Hroot. }
  destruct (properDocument_text_parent _ _ _ _ Hdoc Ht) as (j & e & cs & Hq & Hc).
  exists q0, i, d, j, e, cs. repeat split; try done.
  unfold tryApplyHighlight. rewrite Hroot, Hfirst. simpl.
  rewrite app_assoc.
  erewrite surroundContents_text; [| exact Hq | exact Hc | reflexivity].
  by rewrite <- !app_assoc.
Qed.

(** In a DOM tree [tryApplyHighlight] fails only by finding no text. *)
Lemma tryApplyHighlight_result (c : path) (noteData : NoteData) (w w' : World)
    (r : option path) :
  properDocument (document w) = true →
  tryApplyHighlight c noteData w = (w', r) →
  (r = None ∧ w' = w)
  ∨ ∃ q0 i d k j e cs,
      nodeAt (document w) (c ++ q0) = Some (Element j e cs)
      ∧ cs !! i = Some (Text d)
      ∧ JsString.indexOf (text noteData) d = Some k
      ∧ w' = wrappedWorld (c ++ q0) i k d noteData w
      ∧ r = Some (c ++ q0 ++ [S i]).
Proof.
  intros Hdoc Hres.
  destruct (nodeAt (document w) c) as [root|] eqn:Hroot.
  - destruct (firstTextWith (text noteData) (textDescendants root)) as [[p k]|] eqn:Hfirst.
    + destruct (tryApplyHighlight_found _ _ _ _ _ _ Hdoc Hroot Hfirst)
        as (q0 & i & d & j & e & cs & _ & Hq & Hc & Hk & Heq).
      rewrite Heq in Hres. injection Hres as <- <-. right.
      exists q0, i, d, k, j, e, cs. done.
    + unfold tryApplyHighlight in Hres. rewrite Hroot, Hfirst in Hres.
      injection Hres as <- <-. by left.
  - unfold tryApplyHighlight in Hres. rewrite Hroot in Hres.
    injection Hres as <- <-. by left.
Qed.

Lemma concatText_wrapText (so eo : nat) (span : Node) (d : string) :
  so ≤ eo → isElement span = true →
  concatText (wrapText so eo span d) = d.
Proof.
  intros Hle Hel. unfold wrapText, concatText. simpl.
  destruct span as [| i e cs |]; try done. simpl.
  destruct (bool_decide (so = eo)) eqn:Hcollapsed; simpl.
  - rewrite append_empty_r. apply take_drop.
  - rewrite !append_empty_r. by apply extract_split_text.
Qed.

(** Wrapping keeps the text of every node above the wrapped one. *)
Lemma wrappedWorld_text (c q0 : path) (i k : nat) (d : string) (noteData : NoteData)
    (w : World) (j : nat) (e : ElementData) (cs : list Node) :
  nodeAt (document w) (c ++ q0) = Some (Element j e cs) → cs !! i = Some (Text d) →
  descendantText <$> nodeAt (document (wrappedWorld (c ++ q0) i k d noteData w)) c
  = descendantText <$> nodeAt (document w) c.
Proof.
  intros Hq Hc. simpl. unfold updateChildren.
  rewrite nodeAt_app in Hq.
  destruct (nodeAt (document w) c) as [root|] eqn:Hroot; [|done]. simpl in Hq.
  rewrite (nodeAt_updateNodeAt_prefix _ _ _ _ _ Hroot). simpl. f_equal.
  apply descendantText_updateNodeAt. intros m Hm.
  assert (m = Element j e cs) as -> by congruence.
  apply descendantText_setChildNodes. simpl.
  apply concatText_spliceChild. intros c0 Hc0.
  assert (c0 = Text d) as -> by congruence.
  apply concatText_wrapText; [lia | done].
Qed.

(** *** Finding a marker *)

Lemma find_app_first {A} (P : A → bool) (l1 l2 : list A) :
  List.find P (l1 ++ l2)
  = match List.find P l1 with Some x => Some x | None => List.find P l2 end.
Proof. induction l1 as [|x l1 IH]; simpl; [done|]. by destruct (P x). Qed.

Lemma find_map_shift {A B} (P : B → bool) (g : A → B) (l : list A) :
  List.find P (map g l) = g <$> List.find (λ x, P (g x)) l.
Proof. induction l as [|x l IH]; simpl; [done|]. by destruct (P (g x)). Qed.

Lemma elementsOf_children (n : Node) :
  elementsOf n = match n with
                 | Text _ => []
                 | Element _ _ cs => ([], n) :: elementsFrom 0 cs
                 | DocumentNode cs => elementsFrom 0 cs
                 end.
Proof.
  destruct n as [d | i e cs | cs]; simpl; [done | f_equal |];
    generalize 0; induction cs as [|c cs IH]; intros k; simpl;
    try done; by rewrite IH.
Qed.

Section Markers.
Variable x : string.

Lemma firstMarkerIn_cons (k : nat) (c : Node) (cs : list Node) :
  firstMarkerIn x k (c :: cs)
  = match querySelectorNoteId x c with
    | Some p => Some (k :: p)
    | None => firstMarkerIn x (S k) cs
    end.
Proof.
  unfold firstMarkerIn, querySelectorNoteId, firstElement. simpl.
  rewrite find_app_first, find_map_shift. simpl.
  change (List.find (λ x0 : list nat * Node, hasNoteId x x0.2) (elementsOf c))
    with (List.find (λ pn : path * Node, hasNoteId x pn.2) (elementsOf c)).
  by destruct (List.find (λ pn : path * Node, hasNoteId x pn.2) (elementsOf c)) as [[p n]|].
Qed.

Lemma querySelectorNoteId_children (n : Node) :
  querySelectorNoteId x n
  = if hasNoteId x n then Some [] else firstMarkerIn x 0 (childNodes n).
Proof.
  unfold querySelectorNoteId, firstElement, firstMarkerIn. rewrite elementsOf_children.
  destruct n as [d | i e cs | cs]; simpl; [done | | done].
  by destruct (bool_decide (dataNoteId e = Some x)).
Qed.

(** The first marker sits in child [k0] when no earlier child holds one. *)
Lemma firstMarkerIn_lookup (b k0 : nat) (cs : list Node) (c0 : Node) (p : path) :
  (∀ k c, k < k0 → cs !! k = Some c → querySelectorNoteId x c = None) →
  cs !! k0 = Some c0 → querySelectorNoteId x c0 = Some p →
  firstMarkerIn x b cs = Some ((b + k0) :: p).
Proof.
  revert b k0; induction cs as [|c cs IH]; intros b k0 Hbefore Hk0 Hp; [done|].
  rewrite firstMarkerIn_cons. destruct k0 as [|k0].
  - injection Hk0 as ->. by rewrite Hp, Nat.add_0_r.
  - rewrite (Hbefore 0 c) by (done || lia).
    rewrite (IH (S b) k0); [f_equal; f_equal; lia | | done | done].
    intros k c' Hlt Hc'. apply (Hbefore (S k) c'); [lia | done].
Qed.

Lemma firstMarkerIn_None (b : nat) (cs : list Node) :
  firstMarkerIn x b cs = None → ∀ k c, cs !! k = Some c → querySelectorNoteId x c = None.
Proof.
  revert b; induction cs as [|c cs IH]; intros b Hnone k c' Hc'; [done|].
  rewrite firstMarkerIn_cons in Hnone.
  destruct (querySelectorNoteId x c) eqn:Hq; [done|].
  destruct k as [|k]; [by injection Hc' as <- | by eapply IH].
Qed.

Lemma querySelectorNoteId_None_children (n : Node) (k : nat) (c : Node) :
  querySelectorNoteId x n = None → childNodes n !! k = Some c →
  querySelectorNoteId x c = None.
Proof.
  rewrite querySelectorNoteId_children. destruct (hasNoteId x n); [done|].
  intros Hnone Hc. by eapply firstMarkerIn_None.
Qed.

Lemma hasNoteId_setChildNodes (n : Node) (cs : list Node) :
  hasNoteId x (setChildNodes n cs) = hasNoteId x n.
Proof. by destruct n. Qed.

(** After a text of a tree without markers for [x] has been wrapped in a
    marker for [x], the first marker for [x] is that one. *)
Lemma querySelectorNoteId_wrapped (doc : Node) (q : path) (i : nat) (d : string)
    (a b : string) (s : Node) (j : nat) (e : ElementData) (cs : list Node) :
  querySelectorNoteId x doc = None →
  nodeAt doc q = Some (Element j e cs) → cs !! i = Some (Text d) →
  hasNoteId x s = true →
  querySelectorNoteId x (updateChildren doc q (spliceChild i (λ _, [Text a; s; Text b])))
  = Some (q ++ [S i]).
Proof.
  unfold updateChildren.
  revert doc; induction q as [|r q IH]; intros doc Hnone Hq Hc Hs.
  - simpl in Hq. injection Hq as ->. simpl.
    rewrite querySelectorNoteId_children in *. simpl in *.
    destruct (bool_decide (dataNoteId e = Some x)); [done|].
    pose proof (lookup_lt_Some _ _ _ Hc) as Hlt.
    apply (firstMarkerIn_lookup 0 (S i) _ s []).
    + intros k c Hk Hkc. unfold spliceChild in Hkc. rewrite Hc in Hkc.
      destruct (decide (k < i)) as [Hki | Hki].
      * rewrite lookup_app_l in Hkc by (rewrite length_take; lia).
        rewrite lookup_take_lt in Hkc by done. by eapply firstMarkerIn_None.
      * assert (k = i) as -> by lia.
        rewrite lookup_app_r in Hkc by (rewrite length_take; lia).
        rewrite length_take, Nat.min_l, Nat.sub_diag in Hkc by lia.
        by injection Hkc as <-.
    + by eapply spliceChild_three_lookup.
    + rewrite querySelectorNoteId_children. by rewrite Hs.
  - simpl in Hq |- *. destruct (childNodes doc !! r) as [c|] eqn:Hr; [|done].
    rewrite querySelectorNoteId_children in Hnone |- *.
    rewrite hasNoteId_setChildNodes.
    destruct (hasNoteId x doc); [done|].
    rewrite childNodes_setChildNodes by (left; by eapply child_lookup_not_nil).
    pose proof (lookup_lt_Some _ _ _ Hr) as Hlt.
    eapply (firstMarkerIn_lookup 0 r _ _ (q ++ [S i])).
    + intros k c' Hk Hkc. rewrite list_lookup_insert_ne in Hkc by lia.
      by eapply firstMarkerIn_None.
    + by apply list_lookup_insert_eq.
    + apply IH; try done. by eapply firstMarkerIn_None.
Qed.

End Markers.

(** *** The text search and what it hands to [tryApplyHighlight] *)

Lemma prefix_take (t s : string) :
  String.prefix t s = true → JsString.take (String.length t) s = t.
Proof.
  revert s; induction t as [|c t IH]; intros [|c' s]; simpl; try done.
  destruct (ascii_dec c c') as [->|]; [|done]. intros Hp. by rewrite (IH s Hp).
Qed.

Lemma indexOf_cons (t : string) (c : ascii) (s : string) :
  JsString.indexOf t (String c s)
  = if String.prefix t (String c s) then Some 0 else S <$> JsString.indexOf t s.
Proof. done. Qed.

(** The range [tryApplyHighlight] builds spells the note's text. *)
Lemma indexOf_substringData (t s : string) (k : nat) :
  JsString.indexOf t s = Some k → JsString.substringData s k (String.length t) = t.
Proof.
  unfold JsString.substringData.
  revert k; induction s as [|c s IH]; intros k.
  - destruct t; [|done]. by destruct k.
  - rewrite indexOf_cons. destruct (String.prefix t (String c s)) eqn:Hp.
    + intros [= <-]. by apply prefix_take.
    + destruct (JsString.indexOf t s) as [k'|]; [|done].
      intros [= <-]. by apply IH.
Qed.

Lemma textNodesFrom_lookup (k : nat) (cs : list Node) (j : nat) (c : Node)
    (p : path) (d : string) :
  cs !! j = Some c → In (p, d) (textNodesOf c) → In ((k + j) :: p, d) (textNodesFrom k cs).
Proof.
  revert k j; induction cs as [|c0 cs IH]; intros k [|j]; simpl; try done.
  - intros [= ->] Hin. apply in_app_iff. left. rewrite Nat.add_0_r.
    apply in_map_iff. by exists (p, d).
  - intros Hc Hin. apply in_app_iff. right.
    replace (k + S j) with (S k + j) by lia. by apply IH.
Qed.

Lemma nodeAt_textNodesOf (n : Node) (p : path) (d : string) :
  nodeAt n p = Some (Text d) → In (p, d) (textNodesOf n).
Proof.
  revert n; induction p as [|i p IH]; intros n; simpl.
  - intros [= ->]. by left.
  - destruct (childNodes n !! i) as [c|] eqn:Hc; [|done]. intros Hp.
    rewrite textNodesOf_children. destruct n as [d' | j e cs | cs]; [done | |];
      by apply (textNodesFrom_lookup 0 _ i c); [|apply IH].
Qed.

Lemma nodeAt_textDescendants (n : Node) (p : path) (d : string) :
  p ≠ [] → nodeAt n p = Some (Text d) → In (p, d) (textDescendants n).
Proof.
  intros Hp Hn. apply nodeAt_textNodesOf in Hn. rewrite textNodesOf_children in Hn.
  destruct n; [|done..]. simpl in Hn. destruct Hn as [[= <- _]|[]]. done.
Qed.

Lemma find_exists {A} (P : A → bool) (l : list A) (x : A) :
  In x l → P x = true → ∃ y, List.find P l = Some y.
Proof.
  induction l as [|a l IH]; simpl; [done|]. intros [-> | Hin] Hx.
  - rewrite Hx. eauto.
  - destruct (P a); eauto.
Qed.

Section Search.
Context {H : Host}.

Lemma accepted_inv (t : string) (doc : Node) (body : path) (pd : path * string) :
  accepted t doc body pd = true →
  ∃ parent, parentElement doc (body ++ pd.1) = Some parent
    ∧ JsString.includes t pd.2 = true.
Proof.
  unfold accepted, acceptNode.
  destruct (parentElement doc (body ++ pd.1)) as [parent|]; [|done].
  destruct (_ || _); [done|]. destruct (bool_decide (_ ∈ _)); [done|].
  destruct (negb _ && JsString.includes t pd.2) eqn:Hacc; [|done].
  apply andb_true_iff in Hacc as [_ Hacc]. eauto.
Qed.

Lemma parentElement_inv (doc : Node) (p parent : path) :
  parentElement doc p = Some parent →
  ∃ i j e cs, p = parent ++ [i] ∧ nodeAt doc parent = Some (Element j e cs).
Proof.
  unfold parentElement. destruct (path_snoc p) as [-> | (q & i & ->)]; [done|].
  rewrite lastIndex_snoc, parentPath_snoc.
  destruct (nodeAt doc q) as [[| j e cs |]|] eqn:Hq; try done.
  intros [= <-]. by exists i, j, e, cs.
Qed.

(** The container the text search returns is an element with a [Text]
    child that contains the text. *)
Lemma findElementContainingText_Some (t : string) (doc : Node) (container : path) :
  findElementContainingText t doc = Normal (Some container) →
  ∃ j e cs i d,
    nodeAt doc container = Some (Element j e cs)
    ∧ cs !! i = Some (Text d)
    ∧ JsString.includes t d = true.
Proof.
  unfold findElementContainingText.
  destruct (_ || _); [done|].
  destruct (bodyPath doc) as [body|]; [|done].
  destruct (nodeAt doc body) as [bodyNode|] eqn:Hbody; [|done].
  destruct (List.find _ _) as [[p d]|] eqn:Hfind; [|done].
  apply find_some in Hfind as [Hin Hacc]. simpl. intros [= Hparent].
  apply accepted_inv in Hacc as (parent & Hparent' & Hincl). simpl in *.
  assert (parent = container) as -> by congruence.
  apply parentElement_inv in Hparent as (i & j & e & cs & Hp & Hnode).
  apply textDescendants_nodeAt in Hin as (q & i' & -> & Hin).
  assert (Ht : nodeAt doc (body ++ q ++ [i']) = Some (Text d))
    by (by rewrite nodeAt_app, Hbody).
  rewrite Hp, nodeAt_snoc, Hnode in Ht. simpl in Ht.
  exists j, e, cs, i, d. done.
Qed.

(** When the text stands in a [Text] node of the body that the filter
    accepts, the search returns a container. *)
Lemma findElementContainingText_finds (t : string) (doc : Node) (body p : path) (d : string) :
  3 ≤ String.length t →
  bodyPath doc = Some body → p ≠ [] → nodeAt doc (body ++ p) = Some (Text d) →
  acceptNode t doc (body ++ p) d = FILTER_ACCEPT →
  ∃ container, findElementContainingText t doc = Normal (Some container).
Proof.
  intros Hlen Hbody Hp Hnode Hacc. unfold findElementContainingText.
  rewrite bool_decide_eq_false_2 by (intros ->; simpl in Hlen; lia).
  destruct (Nat.ltb_spec (String.length t) 3); [lia|]. simpl. rewrite Hbody.
  rewrite nodeAt_app in Hnode.
  destruct (nodeAt doc body) as [bodyNode|]; [|done]. simpl in Hnode.
  destruct (find_exists (accepted t doc body) (textDescendants bodyNode) (p, d))
    as [[p' d'] Hfind].
  { by apply nodeAt_textDescendants. }
  { unfold accepted. simpl. by rewrite Hacc. }
  rewrite Hfind. apply find_some in Hfind as [_ (parent & Hparent & _)%accepted_inv].
  simpl in *. rewrite Hparent. eauto.
Qed.

End Search.

(** On a DOM tree, a container with a [Text] child that contains the
    text gets a marker: an element that carries the note's identifier,
    holds exactly the note's text and sits in the new tree where
    [tryApplyHighlight] says. *)
Lemma tryApplyHighlight_succeeds (container : path) (noteData : NoteData) (w : World)
    (j : nat) (e : ElementData) (cs : list Node) (i : nat) (d : string) :
  properDocument (document w) = true →
  nodeAt (document w) container = Some (Element j e cs) →
  cs !! i = Some (Text d) →
  JsString.includes (text noteData) d = true →
  text noteData ≠ EmptyString →
  ∃ w' marker span,
    tryApplyHighlight container noteData w = (w', Some marker)
    ∧ nodeAt (document w') marker = Some span
    ∧ hasNoteId (noteId noteData) span = true
    ∧ descendantText span = text noteData.
Proof.
  intros Hdoc Hroot Hc Hincl Hne.
  destruct (firstTextWith_exists (text noteData) (textDescendants (Element j e cs)) [i] d)
    as [[p k] Hfirst].
  { by apply textDescendants_direct. }
  { apply bool_decide_eq_true in Hincl. done. }
  destruct (tryApplyHighlight_found _ _ _ _ _ _ Hdoc Hroot Hfirst)
    as (q0 & i' & d' & j' & e' & cs' & -> & Hq & Hc' & Hk & Heq).
  eexists _, _, _. split; [exact Heq|].
  pose proof (spliceChild_three_lookup i' (Text (JsString.take k
    (if bool_decide (k = k + String.length (text noteData)) then d'
     else JsString.take k d' +:+ JsString.drop (k + String.length (text noteData)) d')))
    (setChildNodes (highlightSpan (nextNodeId w) (noteId noteData) (highlightColor noteData))
       (if bool_decide (k = k + String.length (text noteData)) then []
        else [Text (JsString.substringData d' k
                     (k + String.length (text noteData) - k))]))
    (Text (JsString.drop k
    (if bool_decide (k = k + String.length (text noteData)) then d'
     else JsString.take k d' +:+ JsString.drop (k + String.length (text noteData)) d')))
    _ _ Hc') as Hspan.
  split; [|split].
  - simpl. rewrite app_assoc, nodeAt_snoc.
    rewrite (updateChildren_at _ _ _ _ _ _ Hq). simpl. exact Hspan.
  - simpl. by rewrite bool_decide_eq_true_2.
  - simpl. rewrite bool_decide_eq_false_2.
    + replace (k + String.length (text noteData) - k) with (String.length (text noteData))
        by lia.
      rewrite append_empty_r. by apply indexOf_substringData.
    + destruct (text noteData); [done | simpl; lia].
Qed.

(** ** C1: the order in which an anchor is resolved *)

(** C1. [applyHighlightFromData] first looks for a marker carrying the
    note's identifier and returns it untouched; otherwise it decodes the
    structural path and, when that yields a node, takes it as the
    container; only when the path yields no node does it search the whole
    document for the text, and the container the search returns is used
    (on a DOM tree this succeeds: a marker holding exactly the note's
    text is in the tree afterwards, and the search does return a
    container whenever the text stands in a [Text] node of the body that
    its filter accepts); when neither yields a container the call returns
    [null] after handing the note to [scheduleHighlightRetry]. *)
Theorem C1_resolution_precedence `{Host} (noteData : NoteData) (w : World) :
  (∀ existing, querySelectorNoteId (noteId noteData) (document w) = Some existing →
     applyHighlightFromData noteData w = Normal (w, Some existing))
  ∧ (querySelectorNoteId (noteId noteData) (document w) = None →
     (∀ element, getElementByXPath (elementPath noteData) (document w) = Some element →
        applyHighlightFromData noteData w = Normal (tryApplyHighlight element noteData w))
     ∧ (getElementByXPath (elementPath noteData) (document w) = None →
        (∀ element,
           findElementContainingText (text noteData) (document w) = Normal (Some element) →
           applyHighlightFromData noteData w = Normal (tryApplyHighlight element noteData w)
           ∧ (properDocument (document w) = true →
              ∃ w' marker span,
                tryApplyHighlight element noteData w = (w', Some marker)
                ∧ nodeAt (document w') marker = Some span
                ∧ hasNoteId (noteId noteData) span = true
                ∧ descendantText span = text noteData))
        ∧ (∀ body p d,
             3 ≤ String.length (text noteData) →
             bodyPath (document w) = Some body → p ≠ [] →
             nodeAt (document w) (body ++ p) = Some (Text d) →
             acceptNode (text noteData) (document w) (body ++ p) d = FILTER_ACCEPT →
             ∃ element,
               findElementContainingText (text noteData) (document w)
               = Normal (Some element))
        ∧ (findElementContainingText (text noteData) (document w) = Normal None →
           applyHighlightFromData noteData w
           = Normal (scheduleHighlightRetry noteData w, None)))).
Proof.
  split; [intros existing; apply applyHighlightFromData_existing|].
  intros Hnone. split; [intros element; by apply applyHighlightFromData_path|].
  intros Hpath. split; [|split].
  - intros element Hfound. split; [by apply applyHighlightFromData_search|].
    intros Hdoc.
    destruct (findElementContainingText_Some _ _ _ Hfound)
      as (j & e & cs & i & d & Hnode & Hc & Hincl).
    eapply tryApplyHighlight_succeeds; [done..|].
    intros Hempty. rewrite Hempty in Hfound. discriminate.
  - intros body p d Hlen Hbody Hp Hnode Hacc.
    by eapply findElementContainingText_finds.
  - by apply applyHighlightFromData_retry.
Qed.

(** The note whose paragraph is gone while its text stands in another
    one: the path decodes to nothing and the text search resolves it. *)
Lemma C1_witness :
  querySelectorNoteId (noteId Example.helloNote) Example.helloPage = None
  ∧ getElementByXPath (H := ExampleHost.host) (elementPath Example.helloNote)
      Example.helloPage = None
  ∧ findElementContainingText (H := ExampleHost.host) (text Example.helloNote)
      Example.helloPage = Normal (Some [0; 1; 0])
  ∧ ∃ w' marker,
      applyHighlightFromData (H := ExampleHost.host) Example.helloNote
        (initialWorld Example.helloPage) = Normal (w', Some marker).
Proof.
  split; [reflexivity|]. split; [reflexivity|]. split; [reflexivity|].
  destruct (C1_resolution_precedence (H := ExampleHost.host) Example.helloNote
              (initialWorld Example.helloPage)) as [_ Hrest].
  destruct (Hrest eq_refl) as [_ Hsearch].
  destruct (Hsearch eq_refl) as [Hfound _].
  destruct (Hfound [0; 1; 0] eq_refl) as [Heq Hok].
  destruct (Hok eq_refl) as (w' & marker & span & Htry & _).
  exists w', marker. rewrite Heq. f_equal. exact Htry.
Defined.

(** ** Removing a marker *)

Lemma normalize_children (n : Node) :
  normalize n
  = match n with
    | Text d => Text d
    | _ => setChildNodes n
             (mergeAdjacentText (filter (λ c, isEmptyText c = false)
                                   (map normalize (childNodes n))))
    end.
Proof.
  destruct n as [d | i e cs | cs]; simpl; [done | |]; do 3 f_equal;
    induction cs as [|c cs IH]; simpl; try done; by rewrite IH.
Qed.

Lemma concatText_mergeAdjacentText (cs : list Node) :
  concatText (mergeAdjacentText cs) = concatText cs.
Proof.
  induction cs as [|c cs IH]; [done|].
  destruct c as [a | |]; cbn [mergeAdjacentText].
  - rewrite (concatText_cons (Text a) cs), <- IH.
    destruct (mergeAdjacentText cs) as [|[b | |] rest]; try done.
    rewrite !concatText_cons. cbn [descendantText]. by rewrite append_assoc.
  - by rewrite !concatText_cons, IH.
  - by rewrite !concatText_cons, IH.
Qed.

Lemma concatText_filter_nonempty (cs : list Node) :
  concatText (filter (λ c, isEmptyText c = false) cs) = concatText cs.
Proof.
  induction cs as [|c cs IH]; [done|].
  rewrite filter_cons. case_decide as Hc.
  - by rewrite !concatText_cons, IH.
  - rewrite concatText_cons, IH. destruct c as [d | |]; try done. simpl in *.
    destruct (bool_decide (d = EmptyString)) eqn:Hd; [|done].
    apply bool_decide_eq_true in Hd as ->. done.
Qed.

Lemma descendantText_normalize (n : Node) : descendantText (normalize n) = descendantText n.
Proof.
  induction n as [d | i e cs IH | cs IH] using Node_forall_ind; [done | |];
    rewrite normalize_children; apply descendantText_setChildNodes;
    cbn [childNodes];
    rewrite concatText_mergeAdjacentText, concatText_filter_nonempty;
    induction IH as [|c cs Hc _ IHcs]; [done | | done |];
    cbn [map]; by rewrite !concatText_cons, Hc, IHcs.
Qed.

Lemma nidOf_normalize (n : Node) : nidOf (normalize n) = nidOf n.
Proof. by destruct n. Qed.

Lemma isDocument_normalize (n : Node) : isDocument (normalize n) = isDocument n.
Proof. by destruct n. Qed.

Lemma isDocument_setChildNodes (n : Node) (cs : list Node) :
  isDocument (setChildNodes n cs) = isDocument n.
Proof. by destruct n. Qed.

Lemma textContent_eq (n m : Node) :
  isDocument n = isDocument m → descendantText n = descendantText m →
  textContent n = textContent m.
Proof. destruct n, m; simpl; try done; by intros _ ->. Qed.

(** A change below a node keeps the node what it is. *)
Lemma updateNodeAt_same_node (p : path) (f : Node → Node) (n : Node) :
  (∀ m, nidOf (f m) = nidOf m ∧ isDocument (f m) = isDocument m) →
  nidOf (updateNodeAt p f n) = nidOf n ∧ isDocument (updateNodeAt p f n) = isDocument n.
Proof.
  intros Hf. destruct p as [|i p]; simpl; [apply Hf|].
  destruct (childNodes n !! i); [|done].
  by rewrite nidOf_setChildNodes, isDocument_setChildNodes.
Qed.

Lemma movablePrefix_all (parent : Node) (cs : list Node) :
  isElement parent = true → Forall (λ c, isDocument c = false) cs →
  movablePrefix parent cs = (cs, []).
Proof.
  intros Hp Hcs. induction Hcs as [|c cs Hc _ IH]; simpl; [done|].
  rewrite IH. destruct parent; try done. by destruct c.
Qed.

(** Removing the marker that is child [k] of the element at [q]: its
    children take its place and the element is normalized. *)
Lemma removeHighlight_unwraps (x : string) (doc : Node) (q : path) (k : nat)
    (j : nat) (e : ElementData) (cs : list Node) (h : Node) :
  querySelectorNoteId x doc = Some (q ++ [k]) →
  nodeAt doc q = Some (Element j e cs) → cs !! k = Some h →
  Forall (λ c, isDocument c = false) (childNodes h) →
  removeHighlight x doc
  = (updateNodeAt q
       (λ m, normalize (setChildNodes m (spliceChild k (λ _, childNodes h) (childNodes m))))
       doc,
     Normal ()).
Proof.
  intros Hfound Hq Hk Hmovable. unfold removeHighlight.
  rewrite Hfound, lastIndex_snoc, parentPath_snoc, Hq, nodeAt_snoc, Hq. simpl.
  rewrite Hk, movablePrefix_all by done.
  f_equal. unfold updateChildren. by rewrite updateNodeAt_compose.
Qed.

(** ** C4: applying a marker and removing it again *)

(** The note's text already sits in a marker of the same note, and that
    marker is taken as the container. Application nests a second marker
    in it; removal then unwraps the first marker it finds, which is the
    container: element 5, the container, is no longer in the tree (its
    children were moved out, it holds no text any more), and in its
    place stands element 6, the marker that was just applied. *)
Lemma C4_counterexample :
  ∃ w' marker doc'',
    tryApplyHighlight [0; 1; 0; 0] Example.helloNote (initialWorld Example.markedPage)
    = (w', Some marker)
    ∧ removeHighlight (noteId Example.helloNote) (document w') = (doc'', Normal ())
    ∧ findByNid 5 Example.markedPage = Some [0; 1; 0; 0]
    ∧ findByNid 5 doc'' = None
    ∧ nidOf <$> nodeAt doc'' [0; 1; 0; 0] = Some (Some 6)
    ∧ markersOf (noteId Example.helloNote) doc'' = [[0; 1; 0; 0]].
Proof.
  eexists _, _, _. split; [vm_compute; reflexivity|].
  split; [vm_compute; reflexivity|]. split; [vm_compute; reflexivity|].
  split; [vm_compute; reflexivity|]. split; vm_compute; reflexivity.
Qed.

(** C4, amended. On a tree that holds no marker for the note's
    identifier (what [applyHighlightFromData] and the batch pass check
    before they apply one), whenever [tryApplyHighlight] wraps a range
    below a container, [removeHighlight] with the same identifier
    completes and leaves the container in place, the same element as
    before, with the text content it had before the application; and
    [removeHighlight] changes nothing when no marker carries the
    identifier. *)
Theorem C4_apply_then_remove (container : path) (noteData : NoteData) (w w' : World)
    (marker : path) :
  properDocument (document w) = true →
  querySelectorNoteId (noteId noteData) (document w) = None →
  tryApplyHighlight container noteData w = (w', Some marker) →
  (∃ doc'',
     removeHighlight (noteId noteData) (document w') = (doc'', Normal ())
     ∧ textContent <$> nodeAt doc'' container
       = textContent <$> nodeAt (document w) container
     ∧ nidOf <$> nodeAt doc'' container = nidOf <$> nodeAt (document w) container)
  ∧ removeHighlight (noteId noteData) (document w) = (document w, Normal ()).
Proof.
  intros Hdoc Hnone Htry. split; [|unfold removeHighlight; by rewrite Hnone].
  destruct (tryApplyHighlight_result _ _ _ _ _ Hdoc Htry)
    as [[? _] | (q0 & i & d & k & j & e & cs & Hq & Hc & Hk & -> & _)]; [done|].
  set (x := noteId noteData) in *.
  set (span := highlightSpan (nextNodeId w) x (highlightColor noteData)).
  set (eo := k + String.length (text noteData)).
  assert (Hwrapped : document (wrappedWorld (container ++ q0) i k d noteData w)
            = updateChildren (document w) (container ++ q0)
                (spliceChild i (λ _, wrapText k eo span d))) by done.
  pose proof (querySelectorNoteId_wrapped x _ _ _ _
    (JsString.take k (if bool_decide (k = eo) then d
                      else JsString.take k d +:+ JsString.drop eo d))
    (JsString.drop k (if bool_decide (k = eo) then d
                      else JsString.take k d +:+ JsString.drop eo d))
    (setChildNodes span (if bool_decide (k = eo) then []
                         else [Text (JsString.substringData d k (eo - k))]))
    _ _ _ Hnone Hq Hc) as Hfound.
  rewrite hasNoteId_setChildNodes in Hfound. specialize (Hfound (bool_decide_eq_true_2 _ eq_refl)).
  change (updateChildren _ _ _) with
    (document (wrappedWorld (container ++ q0) i k d noteData w)) in Hfound.
  pose proof (updateChildren_at _ _ (spliceChild i (λ _, wrapText k eo span d)) _ _ _ Hq)
    as Hparent.
  rewrite <- Hwrapped in Hparent.
  pose proof (spliceChild_three_lookup i _ _ _ _ _ Hc : spliceChild i
    (λ _, wrapText k eo span d) cs !! S i = Some _) as Hspan.
  eexists. split.
  { eapply removeHighlight_unwraps; [exact Hfound | exact Hparent | exact Hspan |].
    simpl. destruct (bool_decide (k = eo)); repeat constructor. }
  rewrite Hwrapped. unfold updateChildren. rewrite updateNodeAt_compose.
  rewrite nodeAt_app in Hq.
  destruct (nodeAt (document w) container) as [root|] eqn:Hroot; [|done].
  simpl in Hq. rewrite (nodeAt_updateNodeAt_prefix _ _ _ _ _ Hroot). simpl.
  assert (Htext : descendantText (updateNodeAt q0
            ((λ m, normalize (setChildNodes m
                 (spliceChild (S i) (λ _, childNodes (setChildNodes span
                    (if bool_decide (k = eo) then []
                     else [Text (JsString.substringData d k (eo - k))])))
                    (childNodes m))))
             ∘ (λ m, setChildNodes m
                 (spliceChild i (λ _, wrapText k eo span d) (childNodes m)))) root)
          = descendantText root).
  { apply descendantText_updateNodeAt. intros m Hm.
    assert (m = Element j e cs) as -> by congruence. unfold compose.
    rewrite descendantText_normalize, setChildNodes_twice.
    apply descendantText_setChildNodes. cbn [setChildNodes childNodes].
    rewrite concatText_spliceChild.
    - apply concatText_spliceChild. intros c0 Hc0.
      assert (c0 = Text d) as -> by congruence.
      apply concatText_wrapText; [lia | done].
    - intros c0 Hc0. rewrite Hspan in Hc0. injection Hc0 as <-.
      by rewrite descendantText_children. }
  pose proof (updateNodeAt_same_node q0
    ((λ m, normalize (setChildNodes m
         (spliceChild (S i) (λ _, childNodes (setChildNodes span
            (if bool_decide (k = eo) then []
             else [Text (JsString.substringData d k (eo - k))])))
            (childNodes m))))
     ∘ (λ m, setChildNodes m
         (spliceChild i (λ _, wrapText k eo span d) (childNodes m)))) root) as [Hnid Hkind].
  { intros m. simpl.
    by rewrite nidOf_normalize, isDocument_normalize, !nidOf_setChildNodes,
      !isDocument_setChildNodes. }
  split; f_equal; [by apply textContent_eq | done].
Qed.

Lemma C4_witness :
  ∃ doc'',
    removeHighlight "n1"
      (document (tryApplyHighlight [0; 1; 0] Example.helloNote
                   (initialWorld Example.helloPage)).1) = (doc'', Normal ())
    ∧ textContent <$> nodeAt doc'' [0; 1; 0] = Some (Some "say hello world now").
Proof.
  destruct (C4_apply_then_remove [0; 1; 0] Example.helloNote
              (initialWorld Example.helloPage)
              (tryApplyHighlight [0; 1; 0] Example.helloNote
                 (initialWorld Example.helloPage)).1
              [0; 1; 0; 1] eq_refl eq_refl eq_refl) as [(doc'' & Hremove & Htext & _) _].
  exists doc''. split; [exact Hremove | exact Htext].
Defined.

(** ** C3: one marker per identifier *)

(** Resolving a note again right after it was resolved returns the
    marker that is there and changes nothing. *)
Lemma applyHighlightFromData_again `{Host} (noteData : NoteData) (w w' : World)
    (marker : path) :
  properDocument (document w) = true →
  applyHighlightFromData noteData w = Normal (w', Some marker) →
  applyHighlightFromData noteData w' = Normal (w', Some marker).
Proof.
  intros Hdoc Hfirst. apply applyHighlightFromData_existing.
  unfold applyHighlightFromData in Hfirst.
  destruct (querySelectorNoteId (noteId noteData) (document w)) as [existing|] eqn:Hq.
  { by injection Hfirst as <- <-. }
  assert (∃ element, tryApplyHighlight element noteData w = (w', Some marker))
    as [element Htry].
  { destruct (getElementByXPath _ _) as [element|]; [injection Hfirst; eauto|].
    destruct (findElementContainingText _ _) as [[element|]|]; simpl in Hfirst;
      [injection Hfirst; eauto | done | done]. }
  destruct (tryApplyHighlight_result _ _ _ _ _ Hdoc Htry)
    as [[? _] | (q0 & i & d & k & j & e & cs & Hnode & Hc & Hk & -> & [= ->])]; [done|].
  rewrite app_assoc. simpl.
  eapply querySelectorNoteId_wrapped; [done | exact Hnode | exact Hc |].
  rewrite hasNoteId_setChildNodes. simpl. by rewrite bool_decide_eq_true_2.
Qed.

(** C3. The code breaks the claim. A note is loaded while its text is
    not on the page yet: [applyHighlightFromData] arms a retry timer and
    the observer is attached. The text arrives; the batch pass of the
    observer applies the marker. Then the retry timer fires: its callback
    does not look for an existing marker, the text search returns the
    marker itself as the container, and a second marker with the same
    identifier is nested in the first. *)
Theorem C3_second_marker_from_retry_timer :
  ∃ w,
    run (H := ExampleHost.host)
      [PageHighlights (Responded (Some [Example.helloNote]));
       Tick 200; Mutation Example.helloPage; FireTimer 3; FireTimer 1]
      (initialWorld Example.loadingPage) = Some w
    ∧ markersOf (noteId Example.helloNote) (document w) = [[0; 1; 0; 1]; [0; 1; 0; 1; 1]].
Proof. eexists. split; vm_compute; reflexivity. Qed.

(** ** C2: the retry bound *)

Lemma scheduleHighlightRetry_armed (noteData : NoteData) (w : World) :
  default 0 (retryCounts w !! retryKey noteData) < 3 →
  let retryCount := default 0 (retryCounts w !! retryKey noteData) in
  timers (scheduleHighlightRetry noteData w)
  = timers w ++ [mkTimer (nextTimerId w) (now w + 1000 * Z.of_nat (retryCount + 1))%Z
                   (RetryHighlightTask noteData)]
  ∧ retryCounts (scheduleHighlightRetry noteData w) !! retryKey noteData
    = Some (retryCount + 1).
Proof.
  intros Hlt. unfold scheduleHighlightRetry, maxRetries.
  destruct (Nat.ltb_spec (default 0 (retryCounts w !! retryKey noteData)) 3); [|lia].
  split; [done | apply lookup_insert_eq].
Qed.

Lemma scheduleHighlightRetry_exhausted (noteData : NoteData) (w : World) :
  3 ≤ default 0 (retryCounts w !! retryKey noteData) →
  scheduleHighlightRetry noteData w = w.
Proof.
  intros Hge. unfold scheduleHighlightRetry, maxRetries.
  by destruct (Nat.ltb_spec (default 0 (retryCounts w !! retryKey noteData)) 3); [lia|].
Qed.

(** C2. The code breaks the claim. A note whose text never appears is
    loaded on a page that never changes. One retry timer is armed, due
    after 1 s; when it fires the callback finds nothing and returns
    without arming another: the retry count stays at 1, short of the
    ceiling of 3, and the only timer left is the observer's 30 s cap. The
    attempts after 2 s and 3 s never happen. *)
Theorem C2_retry_timer_not_rearmed :
  ∃ w,
    run (H := ExampleHost.host)
      [PageHighlights (Responded (Some [Example.helloNote])); FireTimer 1]
      (initialWorld Example.loadingPage) = Some w
    ∧ now w = 1000%Z
    ∧ timers w = [mkTimer 2 30000 ObserverCapTask]
    ∧ retryCounts w !! retryKey Example.helloNote = Some 1
    ∧ markersOf (noteId Example.helloNote) (document w) = [].
Proof.
  eexists. split; [vm_compute; reflexivity|].
  split; [vm_compute; reflexivity|]. split; [vm_compute; reflexivity|].
  split; vm_compute; reflexivity.
Qed.

(** ** C6: a restoration that fails *)

Lemma findIndex_Some (f : Node → bool) (cs : list Node) (k : nat) :
  findIndex f cs = Some k → ∃ c, cs !! k = Some c ∧ f c = true.
Proof.
  revert k; induction cs as [|c cs IH]; intros k; simpl; [done|].
  destruct (f c) eqn:Hf.
  - intros [= <-]. eauto.
  - destruct (findIndex f cs) as [k'|]; [|done]. intros [= <-]. by apply IH.
Qed.

(** [document.body], when there is one, is an element. *)
Lemma bodyPath_element (doc : Node) (body : path) :
  bodyPath doc = Some body → ∃ j e cs, nodeAt doc body = Some (Element j e cs).
Proof.
  unfold bodyPath. destruct (documentElementPath doc) as [de|]; [|done].
  destruct (nodeAt doc de) as [html|] eqn:Hhtml; [|done].
  destruct (hasTag "HTML" html); [|done].
  destruct (findIndex _ _) as [k|] eqn:Hk; [|done]. intros [= <-].
  apply findIndex_Some in Hk as (c & Hc & Htag).
  rewrite nodeAt_snoc, Hhtml. simpl. rewrite Hc.
  destruct c as [| j e cs |]; [done | eauto | done].
Qed.

(** [showToast] appends the toast to the body. *)
Lemma showToast_appends (message : string) (duration : Z) (w : World) (body : path) :
  bodyPath (withoutToast (document w)) = Some body →
  ∃ j e cs,
    nodeAt (withoutToast (document w)) body = Some (Element j e cs)
    ∧ nodeAt (document (showToast message duration w)) body
      = Some (Element j e (cs ++ [toastElement (nextNodeId w) message])).
Proof.
  intros Hbody. destruct (bodyPath_element _ _ Hbody) as (j & e & cs & Hnode).
  exists j, e, cs. split; [done|].
  unfold showToast. cbn [document withDocument withNextNodeId nextNodeId].
  rewrite Hbody. unfold setTimeout, requestAnimationFrame.
  cbn [snd document withDocument withNextNodeId withFrames withTimers withNextTimerId].
  by rewrite (updateChildren_at _ _ _ _ _ _ Hnode).
Qed.

Lemma showToast_frame (message : string) (duration : Z) (w : World) :
  pendingHighlights (showToast message duration w) = pendingHighlights w
  ∧ observers (showToast message duration w) = observers w
  ∧ highlightObserver (showToast message duration w) = highlightObserver w
  ∧ retryCounts (showToast message duration w) = retryCounts w.
Proof.
  unfold showToast. cbn [document withDocument withNextNodeId nextNodeId].
  by destruct (bodyPath (withoutToast (document w))).
Qed.

(** The note is sent for restoration while its text is not on the page:
    after the settle delay the toast is shown and a retry timer for the
    note is pending all the same. *)
Lemma C6_counterexample :
  ∃ w,
    run (H := ExampleHost.host)
      [Incoming (RestoreNote Example.helloNote); FireTimer 1]
      (initialWorld Example.loadingPage) = Some w
    ∧ timers w = [mkTimer 2 1600 (RetryHighlightTask Example.helloNote);
                  mkTimer 3 3600 (ToastHideTask 8)]
    ∧ retryCounts w !! retryKey Example.helloNote = Some 1.
Proof.
  eexists. split; [vm_compute; reflexivity|].
  split; vm_compute; reflexivity.
Qed.

(** C6, amended. When the resolution started by [restoreNoteContext]
    returns [null], the callback shows the "could not locate" toast: it is
    appended to the body. The entry point adds nothing to the pending set
    and attaches no observer. A timer retry is armed all the same, by
    [applyHighlightFromData] itself, whenever neither the path nor the
    text search gave a container (and fewer than 3 retries are counted
    for the note); none is armed when a container was found and the text
    is not in it. *)
Theorem C6_restore_failure `{Host} (noteData : NoteData) (w w1 : World) :
  applyHighlightFromData noteData w = Normal (w1, None) →
  runRestoreHighlight noteData w = showToast couldNotLocate 3000 w1
  ∧ (∀ body, bodyPath (withoutToast (document w1)) = Some body →
     ∃ j e cs,
       nodeAt (withoutToast (document w1)) body = Some (Element j e cs)
       ∧ nodeAt (document (runRestoreHighlight noteData w)) body
         = Some (Element j e (cs ++ [toastElement (nextNodeId w1) couldNotLocate])))
  ∧ pendingHighlights (runRestoreHighlight noteData w) = pendingHighlights w
  ∧ observers (runRestoreHighlight noteData w) = observers w
  ∧ highlightObserver (runRestoreHighlight noteData w) = highlightObserver w
  ∧ ((∃ element, tryApplyHighlight element noteData w = (w1, None))
     ∨ (getElementByXPath (elementPath noteData) (document w) = None
        ∧ findElementContainingText (text noteData) (document w) = Normal None
        ∧ w1 = scheduleHighlightRetry noteData w)).
Proof.
  intros Hfail.
  assert (Hrun : runRestoreHighlight noteData w = showToast couldNotLocate 3000 w1).
  { unfold runRestoreHighlight. by rewrite Hfail. }
  assert (Hcases : (∃ element, tryApplyHighlight element noteData w = (w1, None))
     ∨ (getElementByXPath (elementPath noteData) (document w) = None
        ∧ findElementContainingText (text noteData) (document w) = Normal None
        ∧ w1 = scheduleHighlightRetry noteData w)).
  { unfold applyHighlightFromData in Hfail.
    destruct (querySelectorNoteId _ _); [done|].
    destruct (getElementByXPath _ _) as [element|]; [injection Hfail; eauto|].
    destruct (findElementContainingText _ _) as [[element|]|]; cbn [bindC] in Hfail;
      [injection Hfail; eauto | | done].
    injection Hfail as <-. right. done. }
  assert (Hframe : pendingHighlights w1 = pendingHighlights w
                   ∧ observers w1 = observers w
                   ∧ highlightObserver w1 = highlightObserver w).
  { destruct Hcases as [[element Htry] | (_ & _ & ->)].
    - unfold tryApplyHighlight in Htry.
      destruct (nodeAt (document w) element) as [root|]; [|by injection Htry as <-].
      destruct (firstTextWith _ _) as [[p k]|]; [|by injection Htry as <-].
      cbn [createHighlightSpan] in Htry.
      destruct (surroundContents _ _ _ _ _) as [doc1 [marker|err]];
        [by injection Htry as <- |].
      destruct (extractContents _ _ _ _) as [doc2 contents].
      destruct (insertNode _ _ _ _) as [doc3 [marker|err']];
        by injection Htry as <-.
    - unfold scheduleHighlightRetry. by destruct (_ <? _). }
  rewrite Hrun. pose proof (showToast_frame couldNotLocate 3000 w1) as (-> & -> & -> & _).
  split; [done|]. split; [intros body; apply showToast_appends|].
  destruct Hframe as (-> & -> & ->). done.
Qed.

Lemma C6_witness :
  runRestoreHighlight (H := ExampleHost.host) Example.helloNote
    (initialWorld Example.loadingPage)
  = showToast couldNotLocate 3000
      (scheduleHighlightRetry Example.helloNote (initialWorld Example.loadingPage)).
Proof.
  apply (C6_restore_failure (H := ExampleHost.host) Example.helloNote
           (initialWorld Example.loadingPage)
           (scheduleHighlightRetry Example.helloNote (initialWorld Example.loadingPage))).
  vm_compute. reflexivity.
Defined.

(** ** The event loop keeps its invariants *)

(** Reads the fields of a world built by field updates. *)
Ltac world_simpl :=
  cbn [document nextNodeId now timers nextTimerId frames retryCounts pendingHighlights
       highlightObserver observers nextObserverId extensionContextValid selection effects
       withDocument withNextNodeId withNow withTimers withNextTimerId withFrames
       withRetryCounts withPendingHighlights withHighlightObserver withObservers
       withNextObserverId withExtensionContextValid withSelection withEffects
       setTimeout clearTimeout requestAnimationFrame disconnect
       timerId due task observerId attachedAt debounceTimer fst snd] in *.

Ltac same_schedule := unfold sameSchedule; world_simpl; by repeat split.

Lemma sameSchedule_refl (w : World) : sameSchedule w w.
Proof. by repeat split. Qed.

Lemma sameSchedule_trans (w1 w2 w3 : World) :
  sameSchedule w1 w2 → sameSchedule w2 w3 → sameSchedule w1 w3.
Proof.
  intros (? & ? & ? & ? & ?) (? & ? & ? & ? & ?). repeat split; congruence.
Qed.

Lemma loopInvariant_sameSchedule (w w' : World) :
  sameSchedule w w' → loopInvariant w → loopInvariant w'.
Proof.
  intros (Hnow & Htimers & Hnext & Hobs & Hcur) [Hsound Hcapped].
  split.
  - intros t Ht. rewrite Htimers in Ht. rewrite Hnow, Hnext, Htimers. by apply Hsound.
  - intros ob Hob. rewrite Hobs in Hob. rewrite Hcur, Hnext, Htimers. by apply Hcapped.
Qed.

Lemma timersSound_same (w w' : World) :
  now w' = now w → timers w' = timers w → nextTimerId w' = nextTimerId w →
  timersSound w → timersSound w'.
Proof.
  intros Hnow Htimers Hnext Hsound t Ht. rewrite Htimers in Ht.
  rewrite Hnow, Hnext, Htimers. by apply Hsound.
Qed.

Lemma timersSound_setTimeout (t : Task) (delay : Z) (w : World) :
  (0 <= delay)%Z → timersSound w → timersSound (setTimeout t delay w).2.
Proof.
  intros Hdelay Hsound t0 Ht0. world_simpl.
  apply elem_of_app in Ht0 as [Hold | ->%list_elem_of_singleton].
  - destruct (Hsound _ Hold) as (Hid & Hdue & Huniq). split; [lia|]. split; [done|].
    intros t' [Hold' | ->%list_elem_of_singleton]%elem_of_app Heq; [by apply Huniq|].
    world_simpl. lia.
  - world_simpl. split; [lia|]. split; [lia|].
    intros t' [Hold' | ->%list_elem_of_singleton]%elem_of_app Heq; [|done].
    destruct (Hsound _ Hold') as (Hid & _). world_simpl. lia.
Qed.

Lemma loopInvariant_setTimeout (t : Task) (delay : Z) (w : World) :
  (0 <= delay)%Z → loopInvariant w → loopInvariant (setTimeout t delay w).2.
Proof.
  intros Hdelay [Hsound Hcapped]. split; [by apply timersSound_setTimeout|].
  intros ob Hob. world_simpl.
  destruct (Hcapped _ Hob) as (Hcur & Hdebounce & tc & Htc & Hcap & Hdue).
  split; [done|]. split.
  - intros i Hi. destruct (Hdebounce _ Hi) as [Hlt Htask]. split; [lia|].
    intros t0 [Hold | ->%list_elem_of_singleton]%elem_of_app Heq; [by apply Htask|].
    world_simpl. lia.
  - exists tc. split; [apply elem_of_app; by left | done].
Qed.

Section LoopInvariant.
Context {H : Host}.

Lemma tryApplyHighlight_sameSchedule (element : path) (noteData : NoteData) (w : World) :
  sameSchedule w (tryApplyHighlight element noteData w).1.
Proof.
  unfold tryApplyHighlight.
  destruct (nodeAt (document w) element) as [root|]; [|apply sameSchedule_refl].
  destruct (firstTextWith _ _) as [[p k]|]; [|apply sameSchedule_refl].
  cbn [createHighlightSpan].
  destruct (surroundContents _ _ _ _ _) as [doc1 [marker|err]]; [same_schedule|].
  destruct (extractContents _ _ _ _) as [doc2 contents].
  destruct (insertNode _ _ _ _) as [doc3 [marker|err']]; same_schedule.
Qed.

Lemma loopInvariant_scheduleHighlightRetry (noteData : NoteData) (w : World) :
  loopInvariant w → loopInvariant (scheduleHighlightRetry noteData w).
Proof.
  intros Hinv. unfold scheduleHighlightRetry. destruct (_ <? _); [|done].
  apply loopInvariant_setTimeout; [lia|].
  eapply loopInvariant_sameSchedule; [|done]. same_schedule.
Qed.

Lemma loopInvariant_applyHighlightFromData (noteData : NoteData) (w w' : World)
    (r : option path) :
  applyHighlightFromData noteData w = Normal (w', r) →
  loopInvariant w → loopInvariant w'.
Proof.
  unfold applyHighlightFromData. intros Hres Hinv.
  destruct (querySelectorNoteId _ _); [by injection Hres as <- _|].
  destruct (getElementByXPath _ _) as [element|].
  { injection Hres as Hres. apply (f_equal fst) in Hres. simpl in Hres. subst w'.
    eapply loopInvariant_sameSchedule; [apply tryApplyHighlight_sameSchedule | done]. }
  destruct (findElementContainingText _ _) as [[element|]|]; cbn [bindC] in Hres; [| |done].
  - injection Hres as Hres. apply (f_equal fst) in Hres. simpl in Hres. subst w'.
    eapply loopInvariant_sameSchedule; [apply tryApplyHighlight_sameSchedule | done].
  - injection Hres as <- _. by apply loopInvariant_scheduleHighlightRetry.
Qed.

Lemma loopInvariant_runRetryHighlight (noteData : NoteData) (w : World) :
  loopInvariant w → loopInvariant (runRetryHighlight noteData w).
Proof.
  intros Hinv. unfold runRetryHighlight.
  destruct (findElementContainingText _ _) as [[element|]|]; [|done..].
  eapply loopInvariant_sameSchedule; [|done].
  eapply sameSchedule_trans; [apply (tryApplyHighlight_sameSchedule element noteData)|].
  same_schedule.
Qed.

Lemma loopInvariant_showToast (message : string) (duration : Z) (w : World) :
  (0 <= duration)%Z → loopInvariant w → loopInvariant (showToast message duration w).
Proof.
  intros Hd Hinv. unfold showToast.
  destruct (bodyPath _).
  - apply loopInvariant_setTimeout; [done|].
    eapply loopInvariant_sameSchedule; [|done]. same_schedule.
  - eapply loopInvariant_sameSchedule; [|done]. same_schedule.
Qed.

Lemma loopInvariant_updateClasses (i : nat) (f : ElementData → ElementData) (w : World) :
  loopInvariant w → loopInvariant (updateClasses i f w).
Proof.
  intros Hinv. unfold updateClasses. destruct (findByNid _ _); [|done].
  eapply loopInvariant_sameSchedule; [|done]. same_schedule.
Qed.

Lemma loopInvariant_runRestoreHighlight (noteData : NoteData) (w : World) :
  loopInvariant w → loopInvariant (runRestoreHighlight noteData w).
Proof.
  intros Hinv. unfold runRestoreHighlight.
  destruct (applyHighlightFromData noteData w) as [[w1 [highlight|]]|] eqn:Hres; [| |done].
  - pose proof (loopInvariant_applyHighlightFromData _ _ _ _ Hres Hinv) as Hinv1.
    assert (Hinv3 : loopInvariant
              (withDocument (updateElementData highlight (addClass "mozhii-pulse")
                 (document (withEffects
                    (ScrollIntoView (nodeAt (document w1) highlight ≫= nidOf) :: effects w1)
                    w1)))
                 (withEffects
                    (ScrollIntoView (nodeAt (document w1) highlight ≫= nidOf) :: effects w1)
                    w1))).
    { eapply loopInvariant_sameSchedule; [|exact Hinv1]. same_schedule. }
    destruct (nodeAt (document w1) highlight ≫= nidOf); [|done].
    by apply loopInvariant_setTimeout.
  - apply loopInvariant_showToast; [done|].
    by eapply loopInvariant_applyHighlightFromData.
Qed.

(** Once the observer [highlightObserver] refers to is disconnected and
    forgotten, no observer is observing. *)
Lemma loopInvariant_disconnectHighlightObserver (w : World) :
  loopInvariant w → loopInvariant (disconnectHighlightObserver w).
Proof.
  intros [Hsound Hcapped]. unfold disconnectHighlightObserver.
  destruct (highlightObserver w) as [o|] eqn:Hcur; [|done].
  split; [done|]. intros ob Hob. world_simpl.
  apply list_elem_of_filter in Hob as [Hne Hob].
  destruct (Hcapped _ Hob) as (Hcur' & _). congruence.
Qed.

Lemma loopInvariant_setupDynamicContentObserver (w : World) :
  loopInvariant w → loopInvariant (setupDynamicContentObserver w).
Proof.
  intros Hinv. unfold setupDynamicContentObserver.
  destruct (highlightObserver w) as [o|] eqn:Hcur; [done|].
  assert (Hnone : ∀ ob, ob ∈ observers w → False).
  { intros ob Hob. destruct Hinv as [_ Hcapped].
    destruct (Hcapped _ Hob) as (Hcur' & _). congruence. }
  cbn [document withNextObserverId withHighlightObserver].
  destruct (bodyPath (document w)).
  - split.
    + apply timersSound_setTimeout; [done|].
      apply (timersSound_same w); [done.. | by destruct Hinv].
    + intros ob Hob. world_simpl.
      apply elem_of_app in Hob as [Hold | ->%list_elem_of_singleton];
        [by destruct (Hnone _ Hold)|].
      world_simpl. split; [done|]. split; [done|].
      eexists. split; [apply elem_of_app; right; by apply list_elem_of_singleton|].
      done.
  - split; [apply (timersSound_same w); [done.. | by destruct Hinv]|].
    intros ob Hob. world_simpl. by destruct (Hnone _ Hob).
Qed.

Lemma loopInvariant_batchPass (notes stillPending : list NoteData) (w : World) :
  loopInvariant w → loopInvariant (batchPass notes stillPending w).1.
Proof.
  revert stillPending w; induction notes as [|note rest IH]; intros stillPending w Hinv;
    cbn [batchPass]; [done|].
  destruct (querySelectorNoteId _ _); [by apply IH|].
  destruct (findElementContainingText _ _) as [[element|]|]; [| by apply IH | done].
  pose proof (tryApplyHighlight_sameSchedule element note w) as Hsame.
  destruct (tryApplyHighlight element note w) as [w1 [marker|]]; cbn [fst] in Hsame;
    apply IH; by eapply loopInvariant_sameSchedule.
Qed.

Lemma loopInvariant_runDebounce (w : World) :
  loopInvariant w → loopInvariant (runDebounce w).
Proof.
  intros Hinv. unfold runDebounce.
  destruct (pendingHighlights w) as [|note rest] eqn:Hpending.
  { by apply loopInvariant_disconnectHighlightObserver. }
  pose proof (loopInvariant_batchPass (note :: rest) [] w Hinv) as Hinv1.
  destruct (batchPass (note :: rest) [] w) as [w1 [stillPending|]]; [|done].
  cbn [fst] in Hinv1.
  assert (Hinv2 : loopInvariant (withPendingHighlights stillPending w1)).
  { eapply loopInvariant_sameSchedule; [|exact Hinv1]. same_schedule. }
  destruct stillPending; [|done]. by apply loopInvariant_disconnectHighlightObserver.
Qed.

Lemma loopInvariant_applyEach (response : list NoteData) (w : World) :
  loopInvariant w → loopInvariant (applyEach response w).1.
Proof.
  revert w; induction response as [|note rest IH]; intros w Hinv; cbn [applyEach]; [done|].
  destruct (applyHighlightFromData note w) as [[w1 [marker|]]|] eqn:Hres; [| |done].
  - apply IH. eapply loopInvariant_sameSchedule;
      [|by eapply loopInvariant_applyHighlightFromData]. same_schedule.
  - apply IH. by eapply loopInvariant_applyHighlightFromData.
Qed.

Lemma loopInvariant_loadPageHighlights (outcome : LoadOutcome) (w : World) :
  loopInvariant w → loopInvariant (loadPageHighlights outcome w).
Proof.
  intros Hinv. unfold loadPageHighlights.
  destruct outcome as [| [|] | [response|]]; try done.
  - apply loopInvariant_disconnectHighlightObserver.
    eapply loopInvariant_sameSchedule; [|done]. same_schedule.
  - assert (Hinv0 : loopInvariant (withPendingHighlights response w)).
    { eapply loopInvariant_sameSchedule; [|done]. same_schedule. }
    pose proof (loopInvariant_applyEach response _ Hinv0) as Hinv1.
    destruct (applyEach response (withPendingHighlights response w)) as [w1 [|]];
      cbn [fst] in Hinv1; [|done].
    destruct (pendingHighlights w1); [done|].
    by apply loopInvariant_setupDynamicContentObserver.
Qed.

Lemma loopInvariant_runTask (t : Task) (w : World) :
  loopInvariant w → loopInvariant (runTask t w).
Proof.
  intros Hinv. destruct t; cbn [runTask].
  - by apply loopInvariant_runRetryHighlight.
  - by apply loopInvariant_runRestoreHighlight.
  - by apply loopInvariant_updateClasses.
  - by apply loopInvariant_runDebounce.
  - by apply loopInvariant_disconnectHighlightObserver.
  - by apply loopInvariant_updateClasses.
  - apply loopInvariant_setTimeout; [done|]. by apply loopInvariant_updateClasses.
  - destruct (findByNid _ _); [|done].
    eapply loopInvariant_sameSchedule; [|done]. same_schedule.
Qed.

End LoopInvariant.

Lemma timersSound_subset (w w' : World) :
  (∀ t, t ∈ timers w' → t ∈ timers w) →
  nextTimerId w' = nextTimerId w →
  (∀ t, t ∈ timers w' → (now w' <= due t)%Z) →
  timersSound w → timersSound w'.
Proof.
  intros Hsub Hnext Hnow Hsound t Ht.
  destruct (Hsound _ (Hsub _ Ht)) as (Hid & _ & Huniq).
  rewrite Hnext. split; [done|]. split; [by apply Hnow|].
  intros t' Ht' Heq. apply Huniq; [by apply Hsub | done].
Qed.

Lemma applyHighlightToSelection_sameSchedule (noteId : string) (color : option string)
    (w : World) :
  sameSchedule w (applyHighlightToSelection noteId color w).1.
Proof.
  unfold applyHighlightToSelection.
  destruct (selection w) as [sel|]; [|apply sameSchedule_refl].
  destruct (_ || _); [apply sameSchedule_refl|].
  destruct (ranges sel) as [|range rest]; [apply sameSchedule_refl|].
  destruct (bool_decide _); [same_schedule|].
  cbn [createHighlightSpan].
  destruct (surroundContents _ _ _ _ _) as [doc1 [marker|err]]; same_schedule.
Qed.

Section LoopSteps.
Context {H : Host}.

Lemma loopInvariant_observerCallback (ob : Observer) (w : World) :
  ob ∈ observers w → loopInvariant w → loopInvariant (observerCallback ob w).
Proof.
  intros Hob [Hsound Hcapped]. unfold observerCallback.
  set (w1 := match debounceTimer ob with Some t => clearTimeout t w | None => w end).
  assert (Hsub : ∀ t, t ∈ timers w1 → t ∈ timers w).
  { intros t. unfold w1. destruct (debounceTimer ob); [|done]. world_simpl.
    by intros [_ ?]%list_elem_of_filter. }
  assert (Hfields : now w1 = now w ∧ nextTimerId w1 = nextTimerId w
                    ∧ observers w1 = observers w
                    ∧ highlightObserver w1 = highlightObserver w).
  { unfold w1. by destruct (debounceTimer ob). }
  destruct Hfields as (Hnow1 & Hnext1 & Hobs1 & Hcur1).
  assert (Hsound1 : timersSound w1).
  { apply (timersSound_subset w); [done.. | | done].
    intros t Ht. rewrite Hnow1. by apply Hsound, Hsub. }
  assert (Hkept : ∀ t, t ∈ timers w → task t = ObserverCapTask → t ∈ timers w1).
  { intros t Ht Hcap. unfold w1. destruct (debounceTimer ob) as [c|] eqn:Hc; [|done].
    world_simpl. apply list_elem_of_filter. split; [|done]. intros Heq.
    destruct (Hcapped _ Hob) as (_ & Hdebounce & _).
    destruct (Hdebounce _ Hc) as [_ Htask]. rewrite (Htask _ Ht Heq) in Hcap. done. }
  clearbody w1. cbv zeta. unfold setTimeout. cbv beta iota. split.
  - apply (timersSound_same (setTimeout DebounceTask 500 w1).2); [done.. |].
    by apply timersSound_setTimeout.
  - intros ob' Hob'. world_simpl. rewrite Hobs1 in Hob'.
    apply list_elem_of_In, in_map_iff in Hob' as (ob0 & <- & Hob0%list_elem_of_In).
    destruct (Hcapped _ Hob0) as (Hcur & Hdebounce & tc & Htc & Hcap & Hdue).
    rewrite Hcur1, Hnext1.
    assert (Hnew : ∀ t, t ∈ timers w1 ++ [mkTimer (nextTimerId w) (now w1 + 500)
                                            DebounceTask] →
                        timerId t = nextTimerId w → task t = DebounceTask).
    { intros t [Hold | ->%list_elem_of_singleton]%elem_of_app Heq; [|done].
      destruct (Hsound _ (Hsub _ Hold)) as (Hid & _). lia. }
    destruct (bool_decide (observerId ob0 = observerId ob)); world_simpl.
    + split; [done|]. split.
      * intros i [= <-]. split; [lia | done].
      * exists tc. split; [|done]. apply elem_of_app. left. by apply Hkept.
    + split; [done|]. split.
      * intros i Hi. destruct (Hdebounce _ Hi) as [Hlt Htask]. split; [lia|].
        intros t [Hold | ->%list_elem_of_singleton]%elem_of_app Heq.
        -- by apply Htask; [apply Hsub|].
        -- world_simpl. lia.
      * exists tc. split; [|done]. apply elem_of_app. left. by apply Hkept.
Qed.

Lemma loopInvariant_notifyObservers (w : World) :
  loopInvariant w → loopInvariant (notifyObservers w).
Proof.
  unfold notifyObservers. generalize (observers w). intros l. revert w.
  induction l as [|ob l IH]; intros w Hinv; [done|]. cbn [foldl]. apply IH.
  destruct (List.find _ (observers w)) as [current|] eqn:Hfind; [|done].
  apply find_some in Hfind as [Hin _].
  apply loopInvariant_observerCallback; [by apply list_elem_of_In | done].
Qed.

Lemma loopInvariant_onMessage (m : Message) (w : World) :
  loopInvariant w → loopInvariant (onMessage m w).
Proof.
  intros Hinv. unfold onMessage. destruct (negb _); [done|].
  destruct m as [noteId | noteData | noteId].
  - eapply loopInvariant_sameSchedule; [apply applyHighlightToSelection_sameSchedule|done].
  - unfold restoreNoteContext. by apply loopInvariant_setTimeout.
  - done.
Qed.

(** Firing the timer that is due first. *)
Lemma loopInvariant_fire (t : Timer) (w : World) :
  t ∈ timers w →
  forallb (λ t', (due t <=? due t')%Z) (timers w) = true →
  loopInvariant w →
  loopInvariant
    (runTask (task t)
       (withNow (Z.max (now w) (due t))
          (withTimers (filter (λ t', timerId t' ≠ timerId t) (timers w)) w))).
Proof.
  intros Ht Hfirst [Hsound Hcapped].
  set (w0 := withNow (Z.max (now w) (due t))
               (withTimers (filter (λ t', timerId t' ≠ timerId t) (timers w)) w)).
  rewrite forallb_forall in Hfirst.
  assert (Hsound0 : timersSound w0).
  { apply (timersSound_subset w); [|done| |done].
    - intros t'. unfold w0. world_simpl. by intros [_ ?]%list_elem_of_filter.
    - intros t'. unfold w0. world_simpl. intros [_ Ht']%list_elem_of_filter.
      apply Z.max_lub; [by apply Hsound|].
      apply Z.leb_le, Hfirst. by apply list_elem_of_In. }
  assert (task t = ObserverCapTask ∨ task t ≠ ObserverCapTask) as [Hcap | Hother]
    by (destruct (task t); (by left) || (by right)).
  - rewrite Hcap. cbn [runTask]. unfold disconnectHighlightObserver.
    assert (Hgone : ∀ o, highlightObserver w = Some o → ∀ ob,
              ob ∈ filter (λ ob, observerId ob ≠ o) (observers w) → False).
    { intros o Hcur ob [Hne Hob]%list_elem_of_filter.
      destruct (Hcapped _ Hob) as (Hcur' & _). congruence. }
    change (highlightObserver w0) with (highlightObserver w).
    destruct (highlightObserver w) as [o|] eqn:Hcur.
    + split; [done|]. intros ob Hob. by destruct (Hgone o eq_refl ob).
    + split; [done|]. intros ob Hob. change (observers w0) with (observers w) in Hob.
      destruct (Hcapped _ Hob) as (Hcur' & _). congruence.
  - apply loopInvariant_runTask. split; [done|].
    intros ob Hob. change (observers w0) with (observers w) in Hob.
    destruct (Hcapped _ Hob) as (Hcur & Hdebounce & tc & Htc & Hcap & Hdue).
    split; [done|]. split.
    + intros i Hi. destruct (Hdebounce _ Hi) as [Hlt Htask]. split; [done|].
      intros t'. unfold w0. world_simpl. intros [_ Ht']%list_elem_of_filter.
      by apply Htask.
    + exists tc. split; [|done]. unfold w0. world_simpl.
      apply list_elem_of_filter. split; [|done]. intros Heq.
      destruct (Hsound _ Ht) as (_ & _ & Huniq).
      rewrite (Huniq _ Htc Heq) in Hcap. done.
Qed.

Lemma loopInvariant_frames (tasks : list Task) (w : World) :
  loopInvariant w → loopInvariant (foldl (λ w' t, runTask t w') w tasks).
Proof.
  revert w; induction tasks as [|t tasks IH]; intros w Hinv; [done|].
  cbn [foldl]. by apply IH, loopInvariant_runTask.
Qed.

Lemma loopInvariant_dispatch (ev : Event) (w w' : World) :
  dispatch ev w = Some w' → loopInvariant w → loopInvariant w'.
Proof.
  intros Hstep Hinv. destruct ev as [i | | d | doc' | sel | m | outcome];
    cbn [dispatch] in Hstep.
  - destruct (List.find _ (timers w)) as [t|] eqn:Hfind; [|done].
    destruct (forallb _ (timers w)) eqn:Hfirst; [|done].
    injection Hstep as <-. apply find_some in Hfind as [Hin Hid].
    apply bool_decide_eq_true in Hid as <-.
    apply loopInvariant_fire; [by apply list_elem_of_In | done | done].
  - injection Hstep as <-. by apply loopInvariant_frames.
  - destruct ((0 <=? d)%Z && forallb _ (timers w)) eqn:Hguard; [|done].
    injection Hstep as <-. apply andb_true_iff in Hguard as [_ Hguard].
    rewrite forallb_forall in Hguard. destruct Hinv as [Hsound Hcapped].
    split; [|done].
    apply (timersSound_subset w); [done.. | | done].
    intros t Ht. world_simpl. apply Z.leb_le, Hguard. by apply list_elem_of_In.
  - injection Hstep as <-. by apply loopInvariant_notifyObservers.
  - by injection Hstep as <-.
  - injection Hstep as <-. by apply loopInvariant_onMessage.
  - injection Hstep as <-. by apply loopInvariant_loadPageHighlights.
Qed.

Lemma reachable_loopInvariant (w : World) : reachable w → loopInvariant w.
Proof.
  induction 1 as [doc | w ev w' _ IH Hstep].
  - split; intros x Hx; cbn in Hx; by apply elem_of_nil in Hx.
  - by eapply loopInvariant_dispatch.
Qed.

End LoopSteps.

(** ** C8: the observer's hard cap *)

(** C8. In every world the content script can reach, whatever the page
    mutates and whatever resolves or not, an observer that is observing
    was attached at most 30 s ago: it is the one [highlightObserver]
    refers to and the auto-disconnect timer set at its attachment, due
    30 s after it, is still pending; timers fire when they are due, so
    the observer is disconnected by then at the latest. *)
Theorem C8_observer_hard_cap `{Host} (w : World) (ob : Observer) :
  reachable w → ob ∈ observers w →
  (now w <= attachedAt ob + 30000)%Z
  ∧ highlightObserver w = Some (observerId ob)
  ∧ ∃ t, t ∈ timers w ∧ task t = ObserverCapTask
         ∧ due t = (attachedAt ob + 30000)%Z.
Proof.
  intros Hreach Hob. destruct (reachable_loopInvariant w Hreach) as [Hsound Hcapped].
  destruct (Hcapped _ Hob) as (Hcur & _ & t & Ht & Hcap & Hdue).
  split; [|split; [done | by exists t]].
  destruct (Hsound _ Ht) as (_ & Hnow & _). by rewrite <- Hdue.
Qed.

Lemma run_reachable `{Host} (evs : list Event) (w w' : World) :
  reachable w → run evs w = Some w' → reachable w'.
Proof.
  revert w; induction evs as [|ev evs IH]; intros w Hreach; cbn [run].
  - by intros [= <-].
  - destruct (dispatch ev w) as [w1|] eqn:Hstep; [|done].
    apply IH. by eapply reachable_step.
Qed.

(** A note that never resolves is loaded; the retry timer has fired and
    the clock stands at 30 s: the observer attached at time 0 is still
    observing, with its auto-disconnect timer due now. *)
Lemma C8_witness :
  ∃ w,
    run (H := ExampleHost.host)
      [PageHighlights (Responded (Some [Example.helloNote])); FireTimer 1; Tick 29000]
      (initialWorld Example.loadingPage) = Some w
    ∧ mkObserver 0 0 None ∈ observers w
    ∧ now w = 30000%Z
    ∧ (now w <= attachedAt (mkObserver 0 0 None) + 30000)%Z.
Proof.
  destruct (run (H := ExampleHost.host)
              [PageHighlights (Responded (Some [Example.helloNote])); FireTimer 1;
               Tick 29000]
              (initialWorld Example.loadingPage)) as [w|] eqn:Hrun;
    [|vm_compute in Hrun; discriminate].
  exists w. split; [reflexivity|].
  assert (Hreach : reachable (H := ExampleHost.host) w)
    by (eapply run_reachable; [apply reachable_initial | exact Hrun]).
  assert (Hob : mkObserver 0 0 None ∈ observers w)
    by (vm_compute in Hrun; injection Hrun as <-; apply list_elem_of_here).
  split; [exact Hob|].
  split; [vm_compute in Hrun; injection Hrun as <-; reflexivity|].
  apply (C8_observer_hard_cap (H := ExampleHost.host) w (mkObserver 0 0 None) Hreach Hob).
Defined.

(** * Further properties of the content script *)

(** ** The whole-document text search *)

Section SearchFacts.
Context {H : Host}.

(** What the filter has checked of a [Text] node it accepts. *)
Lemma accepted_checked (t : string) (doc : Node) (body : path) (pd : path * string) :
  accepted t doc body pd = true →
  ∃ parent,
    parentElement doc (body ++ pd.1) = Some parent
    ∧ display (getComputedStyle doc parent) ≠ "none"
    ∧ visibility (getComputedStyle doc parent) ≠ "hidden"
    ∧ (default None (tagNameOf <$> nodeAt doc parent)
       ∉ [Some "SCRIPT"; Some "STYLE"; Some "NOSCRIPT"])
    ∧ JsString.includes t pd.2 = true.
Proof.
  unfold accepted, acceptNode.
  destruct (parentElement doc (body ++ pd.1)) as [parent|]; [|done].
  destruct (bool_decide (display _ = "none")) eqn:Hd; [done|].
  destruct (bool_decide (visibility _ = "hidden")) eqn:Hv; [done|]. simpl.
  destruct (bool_decide (_ ∈ _)) eqn:Htag; [done|].
  destruct (negb _ && JsString.includes t pd.2) eqn:Hacc; [|done].
  apply andb_true_iff in Hacc as [_ Hacc].
  apply bool_decide_eq_false in Hd, Hv, Htag. intros _. by exists parent.
Qed.

Lemma accepted_intro (t : string) (doc : Node) (body q : path) (i j : nat)
    (e : ElementData) (cs : list Node) (d : string) :
  t ≠ EmptyString →
  nodeAt doc (body ++ q) = Some (Element j e cs) →
  JsString.includes t d = true →
  tagName e ∉ ["SCRIPT"; "STYLE"; "NOSCRIPT"] →
  display (getComputedStyle doc (body ++ q)) ≠ "none" →
  visibility (getComputedStyle doc (body ++ q)) ≠ "hidden" →
  accepted t doc body (q ++ [i], d) = true.
Proof.
  intros Ht Hq Hincl Htag Hd Hv. unfold accepted, acceptNode, parentElement. simpl.
  rewrite app_assoc, lastIndex_snoc, parentPath_snoc, Hq. simpl.
  rewrite (bool_decide_eq_false_2 _ Hd), (bool_decide_eq_false_2 _ Hv). simpl.
  rewrite bool_decide_eq_false_2.
  - rewrite Hincl, bool_decide_eq_false_2; [done|].
    intros ->. apply bool_decide_eq_true in Hincl as [k Hk].
    destruct t; [done | by simpl in Hk].
  - intros Hin. apply Htag. rewrite Hq in Hin.
    apply (list_elem_of_fmap_inj_2 Some). exact Hin.
Qed.

End SearchFacts.



(** X2. Completeness of [findElementContainingText]: when some displayed,
    visible element of the body's tree, no [script], [style] or [noscript],
    has a [Text] child that contains the text, of three characters at least,
    the search returns a container; and when the document has no body the
    search throws. *)
Theorem findElementContainingText_complete `{Host} (t : string) (doc : Node) :
  3 ≤ String.length t →
  (bodyPath doc = None → findElementContainingText t doc = Throw TypeError)
  ∧ ∀ body q i j e cs d,
      bodyPath doc = Some body →
      nodeAt doc (body ++ q) = Some (Element j e cs) →
      cs !! i = Some (Text d) →
      JsString.includes t d = true →
      tagName e ∉ ["SCRIPT"; "STYLE"; "NOSCRIPT"] →
      display (getComputedStyle doc (body ++ q)) ≠ "none" →
      visibility (getComputedStyle doc (body ++ q)) ≠ "hidden" →
      ∃ container, findElementContainingText t doc = Normal (Some container).
Proof.
  intros Hlen.
  assert (Hne : t ≠ EmptyString) by (intros ->; simpl in Hlen; lia).
  unfold findElementContainingText. rewrite (bool_decide_eq_false_2 _ Hne).
  destruct (Nat.ltb_spec (String.length t) 3); [lia|]. simpl. split.
  - by intros ->.
  - intros body q i j e cs d Hbody Hq Hc Hincl Htag Hd Hv. rewrite Hbody.
    pose proof Hq as Hq'. rewrite nodeAt_app in Hq'.
    destruct (nodeAt doc body) as [bodyNode|] eqn:Hb; [|done]. simpl in Hq'.
    destruct (find_exists (accepted t doc body) (textDescendants bodyNode) (q ++ [i], d))
      as [[p' d'] Hfind].
    { apply nodeAt_textDescendants; [by destruct q|].
      rewrite nodeAt_snoc, Hq'. simpl. exact Hc. }
    { by eapply accepted_intro. }
    rewrite Hfind.
    apply find_some in Hfind as [_ (parent & Hparent & _)%accepted_checked].
    simpl in *. rewrite Hparent. eauto.
Qed.

Lemma findElementContainingText_complete_witness :
  ∃ container,
    findElementContainingText (H := ExampleHost.host) "hello world" Example.helloPage
    = Normal (Some container).
Proof.
  refine (proj2 (findElementContainingText_complete (H := ExampleHost.host)
                   "hello world" Example.helloPage _)
            [0; 1] [0] 0 4 _ _ "say hello world now" eq_refl eq_refl eq_refl eq_refl _ _ _).
  - simpl. lia.
  - simpl. intros Hin.
    repeat (apply elem_of_cons in Hin as [Hin | Hin]; [discriminate|]).
    by apply elem_of_nil in Hin.
  - vm_compute. discriminate.
  - vm_compute. discriminate.
Defined.

(** ** Counting markers *)

Lemma countMarkers_children (x : string) (n : Node) :
  countMarkers x n
  = (if hasNoteId x n then 1 else 0) + countMarkersIn x (childNodes n).
Proof.
  destruct n as [d | i e cs | cs]; simpl; [done | |]; f_equal;
    induction cs as [|c cs IH]; simpl; try done; by rewrite IH.
Qed.

Lemma countMarkersIn_app (x : string) (a b : list Node) :
  countMarkersIn x (a ++ b) = countMarkersIn x a + countMarkersIn x b.
Proof.
  induction a as [|c a IH]; [done|].
  unfold countMarkersIn in *. simpl. rewrite IH. lia.
Qed.

Lemma countMarkersIn_cons (x : string) (c : Node) (cs : list Node) :
  countMarkersIn x (c :: cs) = countMarkers x c + countMarkersIn x cs.
Proof. done. Qed.

Lemma countMarkersIn_insert (x : string) (cs : list Node) (i : nat) (c c' : Node) :
  cs !! i = Some c →
  countMarkersIn x (<[i := c']> cs) + countMarkers x c
  = countMarkersIn x cs + countMarkers x c'.
Proof.
  revert i; induction cs as [|a cs IH]; intros [|i] Hc; try done.
  - injection Hc as ->. change (<[0 := c']> (c :: cs)) with (c' :: cs).
    rewrite !countMarkersIn_cons. lia.
  - change (<[S i := c']> (a :: cs)) with (a :: <[i := c']> cs).
    rewrite !countMarkersIn_cons. specialize (IH i Hc). lia.
Qed.

Lemma countMarkersIn_spliceChild (x : string) (i : nat) (g : Node → list Node)
    (cs : list Node) (c : Node) :
  cs !! i = Some c →
  countMarkersIn x (spliceChild i g cs) + countMarkers x c
  = countMarkersIn x cs + countMarkersIn x (g c).
Proof.
  intros Hc. unfold spliceChild. rewrite Hc.
  rewrite <- (take_drop_middle cs i c Hc) at 3.
  rewrite !countMarkersIn_app, countMarkersIn_cons. lia.
Qed.

Lemma hasNoteId_setChildren (x : string) (n : Node) (cs : list Node) :
  hasNoteId x (setChildNodes n cs) = hasNoteId x n.
Proof. by destruct n. Qed.

(** Replacing the node at [p] changes the count by what the replacement
    holds more or less than the node. *)
Lemma countMarkers_updateNodeAt (x : string) (p : path) (f : Node → Node) (n m : Node) :
  nodeAt n p = Some m →
  countMarkers x (updateNodeAt p f n) + countMarkers x m
  = countMarkers x n + countMarkers x (f m).
Proof.
  revert n; induction p as [|i p IH]; intros n; simpl.
  - intros [= ->]. lia.
  - destruct (childNodes n !! i) as [c|] eqn:Hc; [|done]. intros Hm.
    specialize (IH c Hm).
    rewrite (countMarkers_children x (setChildNodes _ _)), (countMarkers_children x n).
    rewrite hasNoteId_setChildren.
    rewrite childNodes_setChildNodes by (left; by eapply child_lookup_not_nil).
    pose proof (countMarkersIn_insert x _ _ _ (updateNodeAt p f c) Hc). lia.
Qed.

Lemma length_markers_shift (x : string) (k : nat) (l : list (path * Node)) :
  length (filter (λ pn : path * Node, hasNoteId x pn.2 = true)
            (map (λ pn : path * Node, (k :: pn.1, pn.2)) l))
  = length (filter (λ pn : path * Node, hasNoteId x pn.2 = true) l).
Proof.
  induction l as [|a l IH]; [done|]. cbn [map]. rewrite !filter_cons. cbn [snd].
  destruct (decide (hasNoteId x a.2 = true)); cbn [length]; [f_equal|]; exact IH.
Qed.

Lemma length_markers_elementsFrom (x : string) (k : nat) (cs : list Node) :
  Forall (λ c, length (filter (λ pn : path * Node, hasNoteId x pn.2 = true) (elementsOf c))
               = countMarkers x c) cs →
  length (filter (λ pn : path * Node, hasNoteId x pn.2 = true) (elementsFrom k cs))
  = countMarkersIn x cs.
Proof.
  intros Hcs. revert k; induction Hcs as [|c cs Hc _ IH]; intros k; [done|].
  cbn [elementsFrom]. rewrite filter_app, length_app, IH, countMarkersIn_cons.
  f_equal. rewrite <- Hc. apply length_markers_shift.
Qed.

(** The markers [markersOf] lists are as many as [countMarkers] counts. *)
Lemma length_markersOf (x : string) (n : Node) :
  length (markersOf x n) = countMarkers x n.
Proof.
  unfold markersOf. rewrite length_fmap.
  induction n as [d | i e cs IH | cs IH] using Node_forall_ind;
    rewrite elementsOf_children, countMarkers_children.
  - done.
  - rewrite filter_cons. cbn [snd childNodes].
    destruct (decide (hasNoteId x (Element i e cs) = true)) as [Hm | Hm].
    + rewrite Hm. cbn [length]. by rewrite length_markers_elementsFrom.
    + apply not_true_is_false in Hm. rewrite Hm.
      by rewrite length_markers_elementsFrom.
  - cbn [hasNoteId childNodes]. by rewrite length_markers_elementsFrom.
Qed.

Lemma find_filter_length {A} (P : A → bool) (l : list A) :
  is_Some (List.find P l) ↔ 0 < length (filter (λ a, P a = true) l).
Proof.
  induction l as [|a l IH]; simpl.
  - split; [by intros [? ?] | lia].
  - rewrite filter_cons. destruct (P a) eqn:Ha.
    + rewrite decide_True by done. simpl. split; [lia | eauto].
    + by rewrite decide_False by done.
Qed.

(** [querySelector] finds a marker exactly when there is one. *)
Lemma querySelectorNoteId_is_Some (x : string) (n : Node) :
  is_Some (querySelectorNoteId x n) ↔ 0 < length (markersOf x n).
Proof.
  unfold querySelectorNoteId, firstElement, markersOf.
  rewrite length_fmap, fmap_is_Some.
  apply (find_filter_length (λ pn : path * Node, hasNoteId x pn.2)).
Qed.

Lemma countMarkersIn_mergeAdjacentText (x : string) (cs : list Node) :
  countMarkersIn x (mergeAdjacentText cs) = countMarkersIn x cs.
Proof.
  induction cs as [|c cs IH]; [done|].
  destruct c as [a | |]; cbn [mergeAdjacentText].
  - rewrite (countMarkersIn_cons x (Text a) cs), <- IH.
    by destruct (mergeAdjacentText cs) as [|[b | |] rest].
  - by rewrite !countMarkersIn_cons, IH.
  - by rewrite !countMarkersIn_cons, IH.
Qed.

Lemma countMarkersIn_filter_nonempty (x : string) (cs : list Node) :
  countMarkersIn x (filter (λ c, isEmptyText c = false) cs) = countMarkersIn x cs.
Proof.
  induction cs as [|c cs IH]; [done|].
  rewrite filter_cons. case_decide as Hc.
  - by rewrite !countMarkersIn_cons, IH.
  - rewrite countMarkersIn_cons, IH. by destruct c.
Qed.

(** [normalize] touches [Text] nodes only. *)
Lemma countMarkers_normalize (x : string) (n : Node) :
  countMarkers x (normalize n) = countMarkers x n.
Proof.
  induction n as [d | i e cs IH | cs IH] using Node_forall_ind; [done | |];
    rewrite normalize_children, (countMarkers_children x (setChildNodes _ _)),
      (countMarkers_children x (_ cs));
    cbn [setChildNodes childNodes hasNoteId]; f_equal;
    rewrite countMarkersIn_mergeAdjacentText, countMarkersIn_filter_nonempty;
    induction IH as [|c cs Hc _ IHcs]; try done;
    cbn [map]; by rewrite !countMarkersIn_cons, Hc, IHcs.
Qed.

(** ** DOM trees stay DOM trees *)

Lemma withoutDocuments_forall (n : Node) :
  withoutDocuments n = true →
  isDocument n = false ∧ Forall (λ c, withoutDocuments c = true) (childNodes n).
Proof.
  destruct n as [d | i e cs | cs]; [done | | done]. intros Hn. split; [done|].
  rewrite withoutDocuments_children in Hn. simpl.
  apply Forall_forall. intros c Hc. rewrite forallb_forall in Hn.
  apply Hn. by apply list_elem_of_In.
Qed.

Lemma withoutDocuments_setChildNodes (n : Node) (cs : list Node) :
  withoutDocuments n = true → Forall (λ c, withoutDocuments c = true) cs →
  withoutDocuments (setChildNodes n cs) = true.
Proof.
  destruct n as [d | i e cs0 | cs0]; [done | | done]. intros _ Hcs.
  cbn [setChildNodes]. rewrite withoutDocuments_children. apply forallb_forall.
  intros c Hc. rewrite Forall_forall in Hcs. apply Hcs. by apply list_elem_of_In.
Qed.

Lemma withoutDocuments_updateNodeAt (p : path) (f : Node → Node) (n : Node) :
  withoutDocuments n = true →
  (∀ m, nodeAt n p = Some m → withoutDocuments m = true → withoutDocuments (f m) = true) →
  withoutDocuments (updateNodeAt p f n) = true.
Proof.
  revert n; induction p as [|i p IH]; intros n Hn Hf; simpl; [by apply Hf|].
  destruct (childNodes n !! i) as [c|] eqn:Hc; [|done].
  destruct (withoutDocuments_forall n Hn) as [_ Hcs].
  apply withoutDocuments_setChildNodes; [done|].
  apply Forall_insert; [done|].
  rewrite Forall_forall in Hcs.
  apply IH; [apply Hcs; by eapply list_elem_of_lookup_2|].
  intros m Hm. apply Hf. simpl. by rewrite Hc.
Qed.

(** A change strictly below the document node that keeps elements
    elements and brings in no document leaves a DOM tree. *)
Lemma properDocument_updateNodeAt (p : path) (f : Node → Node) (doc : Node) :
  properDocument doc = true → p ≠ [] →
  (∀ m, nodeAt doc p = Some m → withoutDocuments m = true →
        withoutDocuments (f m) = true ∧ isElement (f m) = isElement m) →
  properDocument (updateNodeAt p f doc) = true.
Proof.
  intros Hdoc Hp Hf. destruct doc as [| |roots]; try done.
  destruct p as [|i p]; [done|]. cbn [updateNodeAt childNodes].
  destruct (roots !! i) as [c|] eqn:Hc; [|done].
  assert (Hf' : ∀ m, nodeAt c p = Some m → withoutDocuments m = true →
                     withoutDocuments (f m) = true ∧ isElement (f m) = isElement m).
  { intros m Hm. apply Hf. simpl. by rewrite Hc. }
  cbn [setChildNodes properDocument] in *.
  rewrite forallb_forall in Hdoc. apply forallb_forall. intros c' Hc'.
  apply list_elem_of_In, list_elem_of_lookup in Hc' as [k Hk].
  destruct (decide (k = i)) as [-> | Hne].
  - rewrite list_lookup_insert_eq in Hk by (by eapply lookup_lt_Some).
    injection Hk as <-.
    assert (Hc0 : isElement c && withoutDocuments c = true).
    { apply Hdoc, list_elem_of_In. by eapply list_elem_of_lookup_2. }
    apply andb_true_iff in Hc0 as [Hel Hwd]. apply andb_true_iff. split.
    + destruct p as [|j p]; simpl.
      * destruct (Hf' c) as [_ ->]; done.
      * destruct (childNodes c !! j); [by rewrite isElement_setChildNodes | done].
    + apply withoutDocuments_updateNodeAt; [done|].
      intros m Hm Hwm. by apply Hf'.
  - rewrite list_lookup_insert_ne in Hk by done.
    apply Hdoc, list_elem_of_In. by eapply list_elem_of_lookup_2.
Qed.

(** ** Applying a marker *)

Lemma includes_is_Some (t s : string) :
  JsString.includes t s = true ↔ is_Some (JsString.indexOf t s).
Proof. unfold JsString.includes. apply bool_decide_eq_true. Qed.

(** X3. On a DOM tree [tryApplyHighlight] returns a marker exactly when some
    [Text] node below the element contains the note's text by itself; a text
    that is there only across several nodes gets no marker, and then nothing
    has changed. *)
Theorem tryApplyHighlight_marker_iff (element : path) (noteData : NoteData) (w : World)
    (root : Node) :
  properDocument (document w) = true →
  nodeAt (document w) element = Some root →
  (is_Some (tryApplyHighlight element noteData w).2
   ↔ ∃ p d, p ≠ [] ∧ nodeAt root p = Some (Text d)
            ∧ JsString.includes (text noteData) d = true)
  ∧ ((tryApplyHighlight element noteData w).2 = None
     → (tryApplyHighlight element noteData w).1 = w).
Proof.
  intros Hdoc Hroot.
  destruct (firstTextWith (text noteData) (textDescendants root)) as [[p k]|] eqn:Hfirst.
  - destruct (tryApplyHighlight_found _ _ _ _ _ _ Hdoc Hroot Hfirst)
      as (q0 & i & d & j & e & cs & -> & Hq & Hc & Hk & ->).
    cbn [fst snd]. split; [|done]. split; [|eauto]. intros _.
    exists (q0 ++ [i]), d. split; [by destruct q0|]. split.
    + rewrite nodeAt_app, Hroot in Hq. simpl in Hq. rewrite nodeAt_snoc, Hq. done.
    + apply includes_is_Some. eauto.
  - unfold tryApplyHighlight. rewrite Hroot, Hfirst. cbn [fst snd].
    split; [|done]. split; [by intros [? ?]|].
    intros (p & d & Hp & Hnode & Hincl). exfalso.
    apply includes_is_Some in Hincl.
    destruct (firstTextWith_exists (text noteData) (textDescendants root) p d)
      as [? Hsome]; [by apply nodeAt_textDescendants | done | congruence].
Qed.

Lemma tryApplyHighlight_marker_iff_witness :
  is_Some (tryApplyHighlight [0; 1; 0] Example.helloNote
             (initialWorld Example.helloPage)).2
  ∧ ((tryApplyHighlight [0; 1] Example.helloNote
        (initialWorld Example.twoParagraphs)).2 = None
     → (tryApplyHighlight [0; 1] Example.helloNote
          (initialWorld Example.twoParagraphs)).1
       = initialWorld Example.twoParagraphs).
Proof.
  split.
  - apply (tryApplyHighlight_marker_iff [0; 1; 0] Example.helloNote
             (initialWorld Example.helloPage)
             (Example.element 4 "P" [Text "say hello world now"]) eq_refl eq_refl).
    exists [0], "say hello world now".
    split; [done|]. split; [reflexivity | vm_compute; reflexivity].
  - apply (tryApplyHighlight_marker_iff [0; 1] Example.helloNote
             (initialWorld Example.twoParagraphs)
             (Example.element 3 "BODY"
                [Example.element 4 "P" [Text "first"];
                 Example.element 5 "P" [Text "second"]]) eq_refl eq_refl).
Defined.

(** X4. The marker [tryApplyHighlight] returns on a DOM tree lies below the
    element it was given and is the span of [createHighlightSpan] for the
    note, the next element object, holding exactly the note's text. *)
Theorem tryApplyHighlight_marker_content (element : path) (noteData : NoteData)
    (w w' : World) (marker : path) :
  properDocument (document w) = true →
  tryApplyHighlight element noteData w = (w', Some marker) →
  ∃ q children,
    marker = element ++ q ∧ q ≠ []
    ∧ nodeAt (document w') marker
      = Some (setChildNodes
                (highlightSpan (nextNodeId w) (noteId noteData) (highlightColor noteData))
                children)
    ∧ concatText children = text noteData
    ∧ nextNodeId w' = S (nextNodeId w).
Proof.
  intros Hdoc Htry.
  destruct (tryApplyHighlight_result _ _ _ _ _ Hdoc Htry)
    as [[? _] | (q0 & i & d & k & j & e & cs & Hq & Hc & Hk & -> & [= ->])]; [done|].
  set (len := String.length (text noteData)).
  exists (q0 ++ [S i]),
    (if bool_decide (k = k + len) then []
     else [Text (JsString.substringData d k (k + len - k))]).
  split; [done|]. split; [by destruct q0|]. split; [|split; [|done]].
  - cbn [wrappedWorld document withDocument withNextNodeId].
    rewrite app_assoc, nodeAt_snoc, (updateChildren_at _ _ _ _ _ _ Hq).
    cbn [mbind option_bind childNodes]. unfold wrapText.
    by erewrite spliceChild_three_lookup.
  - destruct (bool_decide (k = k + len)) eqn:Hcollapsed.
    + apply bool_decide_eq_true in Hcollapsed.
      assert (len = 0) as Hlen by lia. unfold len in Hlen.
      destruct (text noteData); [done | by simpl in Hlen].
    + replace (k + len - k) with len by lia. unfold concatText. simpl.
      rewrite append_empty_r. by apply indexOf_substringData.
Qed.

Lemma tryApplyHighlight_marker_content_witness :
  ∃ q children,
    [0; 1; 0; 1] = [0; 1; 0] ++ q ∧ q ≠ []
    ∧ nodeAt (document (tryApplyHighlight [0; 1; 0] Example.helloNote
                          (initialWorld Example.helloPage)).1) [0; 1; 0; 1]
      = Some (setChildNodes (highlightSpan 5 "n1" None) children)
    ∧ concatText children = "hello world"
    ∧ nextNodeId (tryApplyHighlight [0; 1; 0] Example.helloNote
                    (initialWorld Example.helloPage)).1 = 6.
Proof.
  apply (tryApplyHighlight_marker_content [0; 1; 0] Example.helloNote
           (initialWorld Example.helloPage) _ [0; 1; 0; 1] eq_refl).
  vm_compute. reflexivity.
Defined.

Lemma Forall_spliceChild {P : Node → Prop} (i : nat) (g : Node → list Node)
    (cs : list Node) :
  Forall P cs → (∀ c, cs !! i = Some c → Forall P (g c)) →
  Forall P (spliceChild i g cs).
Proof.
  intros Hcs Hg. unfold spliceChild. destruct (cs !! i) as [c|] eqn:Hc; [|done].
  apply Forall_app. split; [by apply Forall_take|].
  apply Forall_app. split; [by apply Hg | by apply Forall_drop].
Qed.

Lemma element_path_nonempty (doc : Node) (q : path) (j : nat) (e : ElementData)
    (cs : list Node) :
  properDocument doc = true → nodeAt doc q = Some (Element j e cs) → q ≠ [].
Proof. intros Hdoc Hq ->. simpl in Hq. injection Hq as ->. done. Qed.

(** What wrapping a text does to the page as a whole. *)
Lemma wrapped_page (q : path) (i so eo : nat) (d : string) (span : Node) (doc : Node)
    (j : nat) (e : ElementData) (cs : list Node) (x : string) :
  properDocument doc = true →
  nodeAt doc q = Some (Element j e cs) → cs !! i = Some (Text d) →
  so ≤ eo → isElement span = true →
  let doc' := updateChildren doc q (spliceChild i (λ _, wrapText so eo span d)) in
  properDocument doc' = true
  ∧ descendantText doc' = descendantText doc
  ∧ countMarkers x doc' = countMarkers x doc + (if hasNoteId x span then 1 else 0).
Proof.
  intros Hdoc Hq Hc Hle Hspan doc'. unfold doc', updateChildren. split; [|split].
  - apply properDocument_updateNodeAt; [done | by eapply element_path_nonempty|].
    intros m Hm Hwd. assert (m = Element j e cs) as -> by congruence.
    split; [|done]. apply withoutDocuments_setChildNodes; [done|].
    destruct (withoutDocuments_forall _ Hwd) as [_ Hcs]. cbn [childNodes] in *.
    apply Forall_spliceChild; [done|]. intros _ _. unfold wrapText.
    repeat constructor. destruct span as [| s es scs |]; try done.
    cbn [setChildNodes]. rewrite withoutDocuments_children.
    by destruct (bool_decide (so = eo)).
  - apply descendantText_updateNodeAt. intros m Hm.
    assert (m = Element j e cs) as -> by congruence.
    apply descendantText_setChildNodes. cbn [childNodes].
    apply concatText_spliceChild. intros c0 Hc0.
    assert (c0 = Text d) as -> by congruence. by apply concatText_wrapText.
  - pose proof (countMarkers_updateNodeAt x q
      (λ m, setChildNodes m (spliceChild i (λ _, wrapText so eo span d) (childNodes m)))
      doc _ Hq) as Hcount.
    cbn [setChildNodes childNodes] in Hcount.
    rewrite (countMarkers_children x (Element j e (spliceChild _ _ _))),
      (countMarkers_children x (Element j e cs)) in Hcount.
    cbn [childNodes hasNoteId] in Hcount.
    pose proof (countMarkersIn_spliceChild x i (λ _, wrapText so eo span d) cs _ Hc)
      as Hsplice.
    assert (Hwrap : countMarkersIn x (wrapText so eo span d)
                    = if hasNoteId x span then 1 else 0).
    { unfold wrapText. rewrite !countMarkersIn_cons.
      rewrite (countMarkers_children x (setChildNodes _ _)), hasNoteId_setChildren.
      rewrite childNodes_setChildNodes by (by right).
      cbn [countMarkers hasNoteId countMarkersIn foldr].
      destruct (bool_decide (so = eo)); cbn [countMarkersIn foldr countMarkers hasNoteId];
        lia. }
    cbv beta in Hsplice. rewrite Hwrap in Hsplice.
    cbn [countMarkers hasNoteId] in Hsplice. lia.
Qed.

(** X5. [tryApplyHighlight] on a DOM tree leaves a DOM tree with the same
    text; it adds one marker for the note's identifier when it returns one,
    and in no case a marker for another identifier. *)
Theorem tryApplyHighlight_keeps_page (element : path) (noteData : NoteData) (w : World) :
  properDocument (document w) = true →
  properDocument (document (tryApplyHighlight element noteData w).1) = true
  ∧ descendantText (document (tryApplyHighlight element noteData w).1)
    = descendantText (document w)
  ∧ ∀ y, length (markersOf y (document (tryApplyHighlight element noteData w).1))
         = length (markersOf y (document w))
           + match (tryApplyHighlight element noteData w).2 with
             | Some _ => if bool_decide (y = noteId noteData) then 1 else 0
             | None => 0
             end.
Proof.
  intros Hdoc.
  destruct (tryApplyHighlight element noteData w) as [w' r] eqn:Htry.
  destruct (tryApplyHighlight_result _ _ _ _ _ Hdoc Htry)
    as [[-> ->] | (q0 & i & d & k & j & e & cs & Hq & Hc & Hk & -> & ->)].
  { cbn [fst snd]. repeat split; [done | intros y; lia]. }
  cbn [fst snd wrappedWorld document withDocument withNextNodeId].
  set (span := highlightSpan (nextNodeId w) (noteId noteData) (highlightColor noteData)).
  assert (Hle : k ≤ k + String.length (text noteData)) by lia.
  split; [|split].
  - by apply (wrapped_page _ _ _ _ _ span _ _ _ _ EmptyString Hdoc Hq Hc Hle).
  - by apply (wrapped_page _ _ _ _ _ span _ _ _ _ EmptyString Hdoc Hq Hc Hle).
  - intros y. rewrite !length_markersOf.
    destruct (wrapped_page _ _ _ _ _ span _ _ _ _ y Hdoc Hq Hc Hle eq_refl)
      as (_ & _ & ->).
    f_equal. cbn [span highlightSpan hasNoteId dataNoteId].
    destruct (decide (y = noteId noteData)) as [-> | Hne].
    + by rewrite !bool_decide_eq_true_2.
    + by rewrite !bool_decide_eq_false_2 by congruence.
Qed.

Lemma tryApplyHighlight_keeps_page_witness :
  properDocument (document (tryApplyHighlight [0; 1; 0] Example.helloNote
                              (initialWorld Example.helloPage)).1) = true
  ∧ descendantText (document (tryApplyHighlight [0; 1; 0] Example.helloNote
                                (initialWorld Example.helloPage)).1)
    = "say hello world now"
  ∧ ∀ y, length (markersOf y (document (tryApplyHighlight [0; 1; 0] Example.helloNote
                                         (initialWorld Example.helloPage)).1))
         = length (markersOf y Example.helloPage)
           + match (tryApplyHighlight [0; 1; 0] Example.helloNote
                      (initialWorld Example.helloPage)).2 with
             | Some _ => if bool_decide (y = "n1") then 1 else 0
             | None => 0
             end.
Proof.
  apply (tryApplyHighlight_keeps_page [0; 1; 0] Example.helloNote
           (initialWorld Example.helloPage) eq_refl).
Defined.

(** ** Elements and their paths *)

Lemma elementsFrom_In (k : nat) (cs : list Node) (p : path) (n : Node) :
  In (p, n) (elementsFrom k cs) →
  ∃ j c p', p = (k + j) :: p' ∧ cs !! j = Some c ∧ In (p', n) (elementsOf c).
Proof.
  revert k; induction cs as [|c cs IH]; intros k; simpl; [done|].
  rewrite in_app_iff, in_map_iff. intros [([p' n'] & [= <- <-] & Hin) | Hin].
  - exists 0, c, p'. simpl. by rewrite Nat.add_0_r.
  - destruct (IH _ Hin) as (j & c' & p' & -> & Hc & Hin').
    exists (S j), c', p'. simpl. split; [f_equal; lia | done].
Qed.

(** [elementsOf] lists elements, each with the path that leads to it. *)
Lemma elementsOf_nodeAt (root : Node) (p : path) (n : Node) :
  In (p, n) (elementsOf root) → nodeAt root p = Some n ∧ isElement n = true.
Proof.
  revert p. induction root as [d | i e cs IH | cs IH] using Node_forall_ind; intros p;
    rewrite elementsOf_children; [done | |].
  - intros [[= <- <-] | Hin]; [done|].
    apply elementsFrom_In in Hin as (j & c & p' & -> & Hc & Hin). simpl in Hc |- *.
    rewrite Hc. rewrite Forall_forall in IH. eapply IH; [|done].
    by eapply list_elem_of_lookup_2.
  - intros Hin.
    apply elementsFrom_In in Hin as (j & c & p' & -> & Hc & Hin). simpl in Hc |- *.
    rewrite Hc. rewrite Forall_forall in IH. eapply IH; [|done].
    by eapply list_elem_of_lookup_2.
Qed.

Lemma firstElement_Some (f : Node → bool) (doc : Node) (p : path) :
  firstElement f doc = Some p →
  ∃ n, nodeAt doc p = Some n ∧ isElement n = true ∧ f n = true.
Proof.
  unfold firstElement. destruct (List.find _ _) as [[p' n]|] eqn:Hfind; [|done].
  intros [= <-]. apply find_some in Hfind as [Hin Hf].
  apply elementsOf_nodeAt in Hin as [Hnode Hel]. by exists n.
Qed.

Lemma properDocument_inner (doc : Node) (q : path) (m : Node) :
  properDocument doc = true → q ≠ [] → nodeAt doc q = Some m →
  withoutDocuments m = true.
Proof.
  intros Hdoc Hq Hm. destruct doc as [| |roots]; try done.
  destruct q as [|r q]; [done|]. simpl in Hm, Hdoc.
  destruct (roots !! r) as [c|] eqn:Hr; [|done].
  rewrite forallb_forall in Hdoc.
  apply list_elem_of_lookup_2, list_elem_of_In, Hdoc in Hr.
  apply andb_true_iff in Hr as [_ Hr]. by eapply withoutDocuments_nodeAt.
Qed.

(** ** Highlighting the selection *)

(** X6. Highlighting a selection that lies within one [Text] node of a DOM
    tree: the function returns [true], the selected characters stand in a
    new marker for the note right after what precedes them in the node, the
    page has the text it had, it has one marker more for the note and as
    many for any other identifier, and the selection is cleared. *)
Theorem applyHighlightToSelection_wraps (noteId : string) (color : option string)
    (w : World) (sel : Selection) (range : Range) (rest : list Range)
    (q : path) (i j : nat) (e : ElementData) (cs : list Node) (d : string) :
  properDocument (document w) = true →
  selection w = Some sel → ranges sel = range :: rest → isCollapsed sel = false →
  startContainer range = q ++ [i] → endContainer range = q ++ [i] →
  nodeAt (document w) q = Some (Element j e cs) → cs !! i = Some (Text d) →
  startOffset range < endOffset range →
  ∃ w',
    applyHighlightToSelection noteId color w = (w', true)
    ∧ selection w' = Some (removeAllRanges sel)
    ∧ nodeAt (document w') (q ++ [S i])
      = Some (setChildNodes (highlightSpan (nextNodeId w) noteId color)
                [Text (JsString.substringData d (startOffset range)
                         (endOffset range - startOffset range))])
    ∧ descendantText (document w') = descendantText (document w)
    ∧ ∀ y, length (markersOf y (document w'))
           = length (markersOf y (document w)) + if bool_decide (y = noteId) then 1 else 0.
Proof.
  intros Hdoc Hsel Hranges Hcollapsed Hstart Hend Hq Hc Hlt.
  unfold applyHighlightToSelection. rewrite Hsel. unfold rangeCount.
  rewrite Hranges, Hcollapsed. cbn [length Nat.eqb orb].
  rewrite bool_decide_eq_false_2 by (rewrite Hstart, Hend; by intros ?).
  cbn [createHighlightSpan document withNextNodeId]. rewrite Hstart.
  erewrite surroundContents_text; [| exact Hq | exact Hc | reflexivity].
  eexists. split; [reflexivity|]. split; [done|].
  cbn [document withSelection withDocument withNextNodeId].
  set (span := highlightSpan (nextNodeId w) noteId color).
  assert (Hle : startOffset range ≤ endOffset range) by lia.
  split; [|split].
  - rewrite nodeAt_snoc, (updateChildren_at _ _ _ _ _ _ Hq).
    cbn [mbind option_bind childNodes]. unfold wrapText.
    erewrite spliceChild_three_lookup by done.
    by rewrite bool_decide_eq_false_2 by lia.
  - by apply (wrapped_page _ _ _ _ _ span _ _ _ _ EmptyString Hdoc Hq Hc Hle).
  - intros y. rewrite !length_markersOf.
    destruct (wrapped_page _ _ _ _ _ span _ _ _ _ y Hdoc Hq Hc Hle eq_refl)
      as (_ & _ & ->).
    f_equal. cbn [span highlightSpan hasNoteId dataNoteId].
    destruct (decide (y = noteId)) as [-> | Hne].
    + by rewrite !bool_decide_eq_true_2.
    + by rewrite !bool_decide_eq_false_2 by congruence.
Qed.

Lemma applyHighlightToSelection_wraps_witness :
  ∃ w',
    applyHighlightToSelection "n1" None
      (withSelection (Some {| ranges := [mkRange [0; 1; 0; 0] 4 [0; 1; 0; 0] 15];
                              isCollapsed := false |})
         (initialWorld Example.helloPage)) = (w', true)
    ∧ selection w' = Some {| ranges := []; isCollapsed := true |}
    ∧ nodeAt (document w') [0; 1; 0; 1]
      = Some (setChildNodes (highlightSpan 5 "n1" None) [Text "hello world"])
    ∧ descendantText (document w') = "say hello world now"
    ∧ ∀ y, length (markersOf y (document w'))
           = length (markersOf y Example.helloPage) + if bool_decide (y = "n1") then 1 else 0.
Proof.
  apply (applyHighlightToSelection_wraps "n1" None
           (withSelection (Some {| ranges := [mkRange [0; 1; 0; 0] 4 [0; 1; 0; 0] 15];
                                   isCollapsed := false |})
              (initialWorld Example.helloPage))
           _ _ [] [0; 1; 0] 0 4 _ _ "say hello world now"
           eq_refl eq_refl eq_refl eq_refl eq_refl eq_refl eq_refl eq_refl).
  simpl. lia.
Defined.

(** ** Removing one marker *)

(** X7. On a DOM tree, when the first marker for the identifier is not the
    document element, [removeHighlight] completes, leaves the page with the
    text it had, with one marker fewer for the identifier and as many for
    any other. *)
Theorem removeHighlight_removes_one (x : string) (doc : Node) (marker : path) :
  properDocument doc = true →
  querySelectorNoteId x doc = Some marker → 2 ≤ length marker →
  ∃ doc',
    removeHighlight x doc = (doc', Normal ())
    ∧ descendantText doc' = descendantText doc
    ∧ ∀ y, length (markersOf y doc') + (if bool_decide (y = x) then 1 else 0)
           = length (markersOf y doc).
Proof.
  intros Hdoc Hfound Hlen.
  destruct (path_snoc marker) as [-> | (q & k & ->)]; [simpl in Hlen; lia|].
  assert (Hq : q ≠ []) by (intros ->; simpl in Hlen; lia).
  pose proof Hfound as (h & Hh & Hel & Hmark)%firstElement_Some.
  rewrite nodeAt_snoc in Hh.
  destruct (nodeAt doc q) as [parent|] eqn:Hparent; [|done]. simpl in Hh.
  pose proof (properDocument_inner _ _ _ Hdoc Hq Hparent) as Hwd.
  destruct parent as [| j e cs |]; [done | | done]. simpl in Hh.
  assert (Hwh : withoutDocuments h = true).
  { destruct (withoutDocuments_forall _ Hwd) as [_ Hcs]. rewrite Forall_forall in Hcs.
    apply Hcs. by eapply list_elem_of_lookup_2. }
  assert (Hmovable : Forall (λ c, isDocument c = false) (childNodes h)).
  { destruct (withoutDocuments_forall _ Hwh) as [_ Hcs].
    eapply Forall_impl; [exact Hcs|]. intros c Hc.
    by destruct (withoutDocuments_forall _ Hc). }
  eexists. split; [by eapply removeHighlight_unwraps|]. split.
  - apply descendantText_updateNodeAt. intros m Hm.
    assert (m = Element j e cs) as -> by congruence.
    rewrite descendantText_normalize. apply descendantText_setChildNodes.
    cbn [childNodes]. apply concatText_spliceChild. intros c0 Hc0.
    assert (c0 = h) as -> by congruence.
    rewrite (descendantText_children h). by destruct h.
  - intros y. rewrite !length_markersOf.
    pose proof (countMarkers_updateNodeAt y q
      (λ m, normalize (setChildNodes m (spliceChild k (λ _, childNodes h) (childNodes m))))
      doc _ Hparent) as Hcount.
    cbv beta in Hcount. rewrite countMarkers_normalize in Hcount.
    cbn [setChildNodes childNodes] in Hcount.
    rewrite (countMarkers_children y (Element j e (spliceChild _ _ _))),
      (countMarkers_children y (Element j e cs)) in Hcount.
    cbn [childNodes hasNoteId] in Hcount.
    pose proof (countMarkersIn_spliceChild y k (λ _, childNodes h) cs _ Hh) as Hsplice.
    cbv beta in Hsplice. rewrite (countMarkers_children y h) in Hsplice.
    assert (Hy : (if hasNoteId y h then 1 else 0) = if bool_decide (y = x) then 1 else 0).
    { destruct h as [| hi he hcs |]; try done. simpl in Hmark |- *.
      apply bool_decide_eq_true in Hmark. rewrite Hmark.
      destruct (decide (y = x)) as [-> | Hne].
      - by rewrite !bool_decide_eq_true_2.
      - by rewrite !bool_decide_eq_false_2 by congruence. }
    lia.
Qed.

Lemma removeHighlight_removes_one_witness :
  ∃ doc',
    removeHighlight "n1" Example.markedPage = (doc', Normal ())
    ∧ descendantText doc' = "hello world"
    ∧ ∀ y, length (markersOf y doc') + (if bool_decide (y = "n1") then 1 else 0)
           = length (markersOf y Example.markedPage).
Proof.
  apply (removeHighlight_removes_one "n1" Example.markedPage [0; 1; 0; 0] eq_refl eq_refl).
  simpl. lia.
Defined.

(** ** Finding an element *)

Section FirstElement.
Variable f : Node → bool.
(* [f] looks at the element, not at what is below it *)
Hypothesis f_own : ∀ n cs, f (setChildNodes n cs) = f n.

Lemma firstElementIn_cons (k : nat) (c : Node) (cs : list Node) :
  firstElementIn f k (c :: cs)
  = match firstElement f c with
    | Some p => Some (k :: p)
    | None => firstElementIn f (S k) cs
    end.
Proof.
  unfold firstElementIn, firstElement. simpl.
  rewrite find_app_first, find_map_shift. simpl.
  change (List.find (λ x0 : list nat * Node, f x0.2) (elementsOf c))
    with (List.find (λ pn : path * Node, f pn.2) (elementsOf c)).
  by destruct (List.find (λ pn : path * Node, f pn.2) (elementsOf c)) as [[p n]|].
Qed.

Lemma firstElement_children (n : Node) :
  firstElement f n
  = if isElement n && f n then Some [] else firstElementIn f 0 (childNodes n).
Proof.
  unfold firstElement, firstElementIn. rewrite elementsOf_children.
  destruct n as [d | i e cs | cs]; simpl; [done | | done].
  by destruct (f (Element i e cs)).
Qed.

Lemma firstElementIn_lookup (b k0 : nat) (cs : list Node) (c0 : Node) (p : path) :
  (∀ k c, k < k0 → cs !! k = Some c → firstElement f c = None) →
  cs !! k0 = Some c0 → firstElement f c0 = Some p →
  firstElementIn f b cs = Some ((b + k0) :: p).
Proof.
  revert b k0; induction cs as [|c cs IH]; intros b k0 Hbefore Hk0 Hp; [done|].
  rewrite firstElementIn_cons. destruct k0 as [|k0].
  - injection Hk0 as ->. by rewrite Hp, Nat.add_0_r.
  - rewrite (Hbefore 0 c) by (done || lia).
    rewrite (IH (S b) k0); [f_equal; f_equal; lia | | done | done].
    intros k c' Hlt Hc'. apply (Hbefore (S k) c'); [lia | done].
Qed.

Lemma firstElementIn_None (b : nat) (cs : list Node) :
  firstElementIn f b cs = None → ∀ k c, cs !! k = Some c → firstElement f c = None.
Proof.
  revert b; induction cs as [|c cs IH]; intros b Hnone k c' Hc'; [done|].
  rewrite firstElementIn_cons in Hnone.
  destruct (firstElement f c) eqn:Hq; [done|].
  destruct k as [|k]; [by injection Hc' as <- | by eapply IH].
Qed.

(** In a tree where [f] accepts no element, an accepted element appended
    to the children of the element at [q] is the first one accepted. *)
Lemma firstElement_appended (doc : Node) (q : path) (c : Node)
    (j : nat) (e : ElementData) (cs : list Node) :
  firstElement f doc = None →
  nodeAt doc q = Some (Element j e cs) →
  isElement c = true → f c = true →
  firstElement f (updateChildren doc q (λ l, l ++ [c])) = Some (q ++ [length cs]).
Proof.
  unfold updateChildren.
  revert doc; induction q as [|r q IH]; intros doc Hnone Hq Hel Hc.
  - simpl in Hq. injection Hq as ->. cbn [updateNodeAt childNodes].
    rewrite firstElement_children in Hnone |- *.
    rewrite isElement_setChildNodes, f_own.
    destruct (isElement (Element j e cs) && f (Element j e cs)); [done|].
    cbn [setChildNodes childNodes] in *.
    apply (firstElementIn_lookup 0 (length cs) _ c []).
    + intros k c' Hk Hkc. rewrite lookup_app_l in Hkc by done.
      by eapply firstElementIn_None.
    + by rewrite lookup_app_r, Nat.sub_diag by lia.
    + rewrite firstElement_children. by rewrite Hel, Hc.
  - simpl in Hq |- *. destruct (childNodes doc !! r) as [c0|] eqn:Hr; [|done].
    rewrite firstElement_children in Hnone |- *.
    rewrite isElement_setChildNodes, f_own.
    destruct (isElement doc && f doc); [done|].
    rewrite childNodes_setChildNodes by (left; by eapply child_lookup_not_nil).
    pose proof (lookup_lt_Some _ _ _ Hr) as Hlt.
    eapply (firstElementIn_lookup 0 r _ _ (q ++ [length cs])).
    + intros k c' Hk Hkc. rewrite list_lookup_insert_ne in Hkc by lia.
      by eapply firstElementIn_None.
    + by apply list_lookup_insert_eq.
    + apply IH; try done. by eapply firstElementIn_None.
Qed.

End FirstElement.

Lemma firstElementIn_all_None (f : Node → bool) (b : nat) (cs : list Node) :
  Forall (λ c, firstElement f c = None) cs → firstElementIn f b cs = None.
Proof.
  intros Hcs. revert b; induction Hcs as [|c cs Hc _ IH]; intros b; [done|].
  by rewrite firstElementIn_cons, Hc.
Qed.

Lemma maxNid_children (n : Node) :
  maxNid n
  = Nat.max (default 0 (nidOf n)) (foldr (λ c acc, Nat.max (maxNid c) acc) 0 (childNodes n)).
Proof.
  destruct n as [d | i e cs | cs]; simpl; [done | f_equal |];
    induction cs as [|c cs IH]; simpl; try done; by rewrite IH.
Qed.

Lemma maxNid_child (cs : list Node) (c : Node) :
  c ∈ cs → maxNid c ≤ foldr (λ c acc, Nat.max (maxNid c) acc) 0 cs.
Proof.
  induction cs as [|a cs IH]; [by intros ?%elem_of_nil|].
  intros [-> | Hin]%elem_of_cons; simpl; [lia|]. specialize (IH Hin). lia.
Qed.

(** An identity above every identity in the tree names no element of it. *)
Lemma findByNid_fresh (i : nat) (doc : Node) : maxNid doc < i → findByNid i doc = None.
Proof.
  unfold findByNid.
  induction doc as [d | i0 e cs IH | cs IH] using Node_forall_ind; intros Hmax;
    rewrite firstElement_children; rewrite maxNid_children in Hmax.
  - done.
  - simpl in Hmax. cbn [isElement nidOf andb childNodes].
    rewrite bool_decide_eq_false_2 by (intros [= ->]; lia).
    apply firstElementIn_all_None. apply Forall_forall. intros c Hc.
    rewrite Forall_forall in IH. apply IH; [done|].
    pose proof (maxNid_child cs c Hc). lia.
  - simpl in Hmax. cbn [isElement nidOf andb childNodes].
    apply firstElementIn_all_None. apply Forall_forall. intros c Hc.
    rewrite Forall_forall in IH. apply IH; [done|].
    pose proof (maxNid_child cs c Hc). lia.
Qed.

Lemma updateNodeAt_id (p : path) (f : Node → Node) (n : Node) :
  (∀ m, nodeAt n p = Some m → f m = m) → updateNodeAt p f n = n.
Proof.
  revert n; induction p as [|i p IH]; intros n Hf; simpl; [by apply Hf|].
  destruct (childNodes n !! i) as [c|] eqn:Hc; [|done].
  rewrite IH by (intros m Hm; apply Hf; simpl; by rewrite Hc).
  by rewrite list_insert_id, setChildNodes_same.
Qed.

(** Replacing the child that was appended last. *)
Lemma spliceAt_appended (doc : Node) (q : path) (c : Node) (g : Node → list Node)
    (j : nat) (e : ElementData) (cs : list Node) :
  nodeAt doc q = Some (Element j e cs) →
  spliceAt (updateChildren doc q (λ l, l ++ [c])) (q ++ [length cs]) g
  = updateChildren doc q (λ l, l ++ g c).
Proof.
  intros Hq. rewrite spliceAt_snoc.
  erewrite updateChildren_compose; [| done | done].
  apply updateChildren_ext. intros m Hm.
  assert (m = Element j e cs) as -> by congruence. cbn [childNodes compose].
  unfold spliceChild. rewrite lookup_app_r, Nat.sub_diag by lia. cbn [lookup list_lookup].
  rewrite take_app_length, drop_ge by (rewrite length_app; simpl; lia).
  by rewrite app_nil_r.
Qed.

(** ** The life of a toast *)

Lemma nid_own (i : nat) (n : Node) (cs : list Node) :
  bool_decide (nidOf (setChildNodes n cs) = Some i) = bool_decide (nidOf n = Some i).
Proof. by rewrite nidOf_setChildNodes. Qed.

Lemma id_own (x : string) (n : Node) (cs : list Node) :
  isElement (setChildNodes n cs) && bool_decide (idOf (setChildNodes n cs) = x)
  = isElement n && bool_decide (idOf n = x).
Proof. by destruct n. Qed.

(** The classes of the element object [i], the child appended last to
    the element at [q], change in place. *)
Lemma updateClasses_appended (i : nat) (f : ElementData → ElementData) (w : World)
    (doc : Node) (q : path) (ed : ElementData) (ch : list Node)
    (j : nat) (e : ElementData) (cs : list Node) :
  maxNid doc < i → nodeAt doc q = Some (Element j e cs) →
  document w = updateChildren doc q (λ l, l ++ [Element i ed ch]) →
  document (updateClasses i f w)
  = updateChildren doc q (λ l, l ++ [Element i (f ed) ch]).
Proof.
  intros Hfresh Hq Hdoc. unfold updateClasses, findByNid. rewrite Hdoc.
  erewrite (firstElement_appended _ (nid_own i));
    [| by apply findByNid_fresh | exact Hq | done | by apply bool_decide_eq_true_2].
  cbn [document withDocument]. unfold updateElementData.
  by erewrite spliceAt_appended.
Qed.

(** X8. A toast leaves no trace. On a page with a body and no toast showing,
    [showToast] appends the toast, holding the message, as the last child of
    the body, where [getElementById] finds it; once its animation frame, its
    hide timer and its removal timer have run, the tree is what it was
    before. *)
Theorem showToast_leaves_no_trace `{Host} (message : string) (duration : Z) (w : World)
    (body : path) :
  bodyPath (document w) = Some body →
  getElementById "mozhii-toast" (document w) = None →
  maxNid (document w) < nextNodeId w →
  (∃ j e cs,
     nodeAt (document w) body = Some (Element j e cs)
     ∧ getElementById "mozhii-toast" (document (showToast message duration w))
       = Some (body ++ [length cs])
     ∧ nodeAt (document (showToast message duration w)) (body ++ [length cs])
       = Some (toastElement (nextNodeId w) message))
  ∧ document (runTask (ToastRemoveTask (nextNodeId w))
               (runTask (ToastHideTask (nextNodeId w))
                  (runTask (ToastVisibleTask (nextNodeId w))
                     (showToast message duration w))))
    = document w.
Proof.
  intros Hbody Hnone Hfresh.
  destruct (bodyPath_element _ _ Hbody) as (j & e & cs & Hnode).
  set (i := nextNodeId w) in *.
  assert (Hshown : document (showToast message duration w)
                   = updateChildren (document w) body (λ l, l ++ [toastElement i message])).
  { unfold showToast, withoutToast. rewrite Hnone.
    cbn [document withDocument withNextNodeId nextNodeId]. rewrite Hbody.
    unfold setTimeout, requestAnimationFrame.
    by cbn [snd document withDocument withNextNodeId withFrames withTimers
            withNextTimerId]. }
  split.
  - exists j, e, cs. split; [done|]. rewrite Hshown. split.
    + unfold getElementById.
      by erewrite (firstElement_appended _ (id_own "mozhii-toast")).
    + rewrite nodeAt_snoc, (updateChildren_at _ _ _ _ _ _ Hnode).
      cbn [mbind option_bind childNodes].
      by rewrite lookup_app_r, Nat.sub_diag by lia.
  - unfold toastElement in Hshown. cbn [runTask].
    pose proof (updateClasses_appended i (addClass "mozhii-toast-visible") _ _ _ _ _ _ _ _
                  Hfresh Hnode Hshown) as Hvisible.
    pose proof (updateClasses_appended i (removeClass "mozhii-toast-visible") _ _ _ _ _ _ _ _
                  Hfresh Hnode Hvisible) as Hhidden.
    set (w2 := updateClasses i (removeClass "mozhii-toast-visible") _) in *.
    assert (Hdoc3 : document (setTimeout (ToastRemoveTask i) 300 w2).2 = document w2)
      by done.
    rewrite Hdoc3, Hhidden. unfold findByNid.
    erewrite (firstElement_appended _ (nid_own i));
      [| by apply findByNid_fresh | exact Hnode | done | by apply bool_decide_eq_true_2].
    cbn [document withDocument].
    erewrite spliceAt_appended by done.
    unfold updateChildren. apply updateNodeAt_id. intros m Hm.
    by rewrite app_nil_r, setChildNodes_same.
Qed.

Lemma showToast_leaves_no_trace_witness :
  (∃ j e cs,
     nodeAt Example.helloPage [0; 1] = Some (Element j e cs)
     ∧ getElementById "mozhii-toast"
         (document (showToast "Saved" 2500 (initialWorld Example.helloPage)))
       = Some ([0; 1] ++ [length cs])
     ∧ nodeAt (document (showToast "Saved" 2500 (initialWorld Example.helloPage)))
         ([0; 1] ++ [length cs])
       = Some (toastElement 5 "Saved"))
  ∧ document (runTask (H := ExampleHost.host) (ToastRemoveTask 5)
               (runTask (H := ExampleHost.host) (ToastHideTask 5)
                  (runTask (H := ExampleHost.host) (ToastVisibleTask 5)
                     (showToast "Saved" 2500 (initialWorld Example.helloPage)))))
    = Example.helloPage.
Proof.
  apply (showToast_leaves_no_trace (H := ExampleHost.host) "Saved" 2500
           (initialWorld Example.helloPage) [0; 1] eq_refl eq_refl).
  simpl. lia.
Defined.

(** ** Loading the highlights of a page *)

Lemma tryApplyHighlight_effect (element : path) (noteData : NoteData) (w w' : World)
    (r : option path) :
  properDocument (document w) = true →
  tryApplyHighlight element noteData w = (w', r) →
  properDocument (document w') = true
  ∧ pendingHighlights w' = pendingHighlights w
  ∧ (∀ y, countMarkers y (document w) ≤ countMarkers y (document w'))
  ∧ (is_Some r → 0 < countMarkers (noteId noteData) (document w')).
Proof.
  intros Hdoc Htry.
  destruct (tryApplyHighlight_result _ _ _ _ _ Hdoc Htry)
    as [[-> ->] | (q0 & i & d & k & j & e & cs & Hq & Hc & Hk & -> & ->)].
  { split; [done|]. split; [done|]. split; [by intros y | by intros [? ?]]. }
  cbn [wrappedWorld document withDocument withNextNodeId pendingHighlights].
  set (span := highlightSpan (nextNodeId w) (noteId noteData) (highlightColor noteData)).
  assert (Hle : k ≤ k + String.length (text noteData)) by lia.
  split; [|split; [done|split]].
  - by apply (wrapped_page _ _ _ _ _ span _ _ _ _ EmptyString Hdoc Hq Hc Hle).
  - intros y.
    destruct (wrapped_page _ _ _ _ _ span _ _ _ _ y Hdoc Hq Hc Hle eq_refl)
      as (_ & _ & ->). lia.
  - intros _.
    destruct (wrapped_page _ _ _ _ _ span _ _ _ _ (noteId noteData) Hdoc Hq Hc Hle eq_refl)
      as (_ & _ & ->).
    cbn [span highlightSpan hasNoteId dataNoteId]. rewrite bool_decide_eq_true_2 by done.
    lia.
Qed.

Section Loading.
Context {H : Host}.

Lemma applyHighlightFromData_effect (noteData : NoteData) (w w' : World)
    (r : option path) :
  properDocument (document w) = true →
  applyHighlightFromData noteData w = Normal (w', r) →
  properDocument (document w') = true
  ∧ pendingHighlights w' = pendingHighlights w
  ∧ (∀ y, countMarkers y (document w) ≤ countMarkers y (document w'))
  ∧ (is_Some r → 0 < countMarkers (noteId noteData) (document w')).
Proof.
  intros Hdoc. unfold applyHighlightFromData.
  destruct (querySelectorNoteId (noteId noteData) (document w)) as [existing|] eqn:Hq.
  { intros [= <- <-]. split; [done|]. split; [done|]. split; [by intros y|]. intros _.
    rewrite <- length_markersOf. apply querySelectorNoteId_is_Some. by rewrite Hq. }
  destruct (getElementByXPath _ _) as [element|].
  { intros [= Htry]. apply (tryApplyHighlight_effect element); [done|].
    by destruct (tryApplyHighlight element noteData w); simplify_eq. }
  destruct (findElementContainingText _ _) as [[element|]|]; simpl; [| |done].
  - intros [= Htry]. apply (tryApplyHighlight_effect element); [done|].
    by destruct (tryApplyHighlight element noteData w); simplify_eq.
  - intros [= <- <-]. unfold scheduleHighlightRetry.
    destruct (_ <? _); (split; [done|]; split; [done|]; split;
      [by intros y | by intros [? ?]]).
Qed.

(** The [forEach]: every note of [all] stays pending or has a marker. *)
Lemma applyEach_partition (response : list NoteData) (w : World) (all : list NoteData) :
  properDocument (document w) = true →
  (∀ note, note ∈ all →
     note ∈ pendingHighlights w ∨ 0 < countMarkers (noteId note) (document w)) →
  pendingHighlights w ⊆ all →
  properDocument (document (applyEach response w).1) = true
  ∧ (∀ note, note ∈ all →
       note ∈ pendingHighlights (applyEach response w).1
       ∨ 0 < countMarkers (noteId note) (document (applyEach response w).1))
  ∧ pendingHighlights (applyEach response w).1 ⊆ all.
Proof.
  revert w; induction response as [|note rest IH]; intros w Hdoc Hall Hsub; [done|].
  cbn [applyEach].
  destruct (applyHighlightFromData note w) as [[w1 r]|] eqn:Happly; [|done].
  destruct (applyHighlightFromData_effect _ _ _ _ Hdoc Happly)
    as (Hdoc1 & Hpending & Hmono & Hmarker).
  destruct r as [marker|].
  - apply IH; [done | |].
    + intros n Hn. cbn [pendingHighlights withPendingHighlights document].
      destruct (decide (noteId n = noteId note)) as [Heq | Hne].
      * right. rewrite Heq. by apply Hmarker.
      * destruct (Hall n Hn) as [Hin | Hcount].
        -- left. apply list_elem_of_filter. split; [done | by rewrite Hpending].
        -- right. specialize (Hmono (noteId n)). lia.
    + cbn [pendingHighlights withPendingHighlights]. intros n Hn.
      apply list_elem_of_filter in Hn as [_ Hn]. apply Hsub. by rewrite <- Hpending.
  - apply IH; [done | |].
    + intros n Hn. rewrite Hpending. destruct (Hall n Hn) as [Hin | Hcount]; [by left|].
      right. specialize (Hmono (noteId n)). lia.
    + by rewrite Hpending.
Qed.

End Loading.

(** X9. After [loadPageHighlights] got the notes of the page and went
    through them on a DOM tree, every one of them is either still pending or
    has a marker in the tree, and nothing else is pending. *)
Theorem loadPageHighlights_partition `{Host} (response : list NoteData) (w : World) :
  properDocument (document w) = true →
  (∀ note, note ∈ response →
     note ∈ pendingHighlights (loadPageHighlights (Responded (Some response)) w)
     ∨ is_Some (querySelectorNoteId (noteId note)
                  (document (loadPageHighlights (Responded (Some response)) w))))
  ∧ pendingHighlights (loadPageHighlights (Responded (Some response)) w) ⊆ response.
Proof.
  intros Hdoc.
  destruct (applyEach_partition response (withPendingHighlights response w) response)
    as (_ & Hall & Hsub); [done | by left | done |].
  assert (Hsame : ∀ w1,
            pendingHighlights (setupDynamicContentObserver w1) = pendingHighlights w1
            ∧ document (setupDynamicContentObserver w1) = document w1).
  { intros w1. unfold setupDynamicContentObserver.
    destruct (highlightObserver w1); [done|].
    cbn [document withNextObserverId withHighlightObserver].
    by destruct (bodyPath (document w1)). }
  cbn [loadPageHighlights].
  destruct (applyEach response (withPendingHighlights response w)) as [w1 ok].
  cbn [fst] in Hall, Hsub.
  assert (Hgoal : (∀ note, note ∈ response →
                     note ∈ pendingHighlights w1
                     ∨ is_Some (querySelectorNoteId (noteId note) (document w1)))
                  ∧ pendingHighlights w1 ⊆ response).
  { split; [|done]. intros note Hnote. destruct (Hall note Hnote) as [? | Hcount];
      [by left | right].
    apply querySelectorNoteId_is_Some. by rewrite length_markersOf. }
  destruct ok; [|done]. destruct (pendingHighlights w1) eqn:Hp; [by rewrite Hp|].
  destruct (Hsame w1) as [-> ->]. by rewrite Hp.
Qed.

Lemma loadPageHighlights_partition_witness :
  (∀ note, note ∈ [Example.helloNote] →
     note ∈ pendingHighlights
              (loadPageHighlights (H := ExampleHost.host)
                 (Responded (Some [Example.helloNote])) (initialWorld Example.helloPage))
     ∨ is_Some (querySelectorNoteId (noteId note)
                  (document (loadPageHighlights (H := ExampleHost.host)
                               (Responded (Some [Example.helloNote]))
                               (initialWorld Example.helloPage)))))
  ∧ pendingHighlights
      (loadPageHighlights (H := ExampleHost.host)
         (Responded (Some [Example.helloNote])) (initialWorld Example.helloPage))
    ⊆ [Example.helloNote].
Proof.
  apply (loadPageHighlights_partition (H := ExampleHost.host) [Example.helloNote]
           (initialWorld Example.helloPage) eq_refl).
Defined.

(** ** Paths of attached elements *)

Lemma getXPath_up_unfold (root : Node) (rp : list nat) :
  getXPath_up root rp
  = match nodeAt root (rev rp) with
    | None => Normal EmptyString
    | Some element =>
        if negb (bool_decide (idOf element = EmptyString)) then
          Normal ("//*[@id=" +:+ JsString.dquote +:+ idOf element +:+ JsString.dquote +:+ "]")
        else if bool_decide (bodyPath root = Some (rev rp)) then Normal "/html/body"
        else if bool_decide (documentElementPath root = Some (rev rp)) then Normal "/html"
        else
          match rp with
          | [] => Normal EmptyString
          | i :: rp' =>
              match nodeAt root (rev rp') with
              | None => Normal EmptyString
              | Some parent =>
                  match getXPath_loop (childNodes parent) i (tagNameOf element) 0 with
                  | None => Normal EmptyString
                  | Some index =>
                      match element with
                      | Element _ e _ =>
                          bindC (getXPath_up root rp') (λ parentXPath,
                            Normal (parentXPath +:+ "/" +:+ JsString.toLowerCase (tagName e)
                                    +:+ "[" +:+ JsString.ofNat (index + 1) +:+ "]"))
                      | _ => Throw TypeError
                      end
                  end
              end
          end
    end.
Proof. by destruct rp. Qed.

(** The sibling loop reaches every position that exists. *)
Lemma getXPath_loop_is_Some (siblings : list Node) (pos : nat) (tag : option string)
    (index : nat) :
  pos < length siblings → is_Some (getXPath_loop siblings pos tag index).
Proof.
  revert pos index; induction siblings as [|s rest IH]; intros pos index Hlt;
    [simpl in Hlt; lia|].
  destruct pos as [|pos]; simpl; [by eexists|].
  destruct (_ && _); apply IH; simpl in Hlt; lia.
Qed.

Lemma append_slash_nonempty (a b : string) : a +:+ "/" +:+ b ≠ EmptyString.
Proof. destruct a; [by rewrite append_nil_l | by rewrite append_cons]. Qed.

(** [getXPath] on the document node itself. *)
Lemma getXPath_up_document (cs : list Node) :
  getXPath_up (DocumentNode cs) [] = Normal EmptyString.
Proof.
  rewrite getXPath_up_unfold. cbn [rev nodeAt idOf]. rewrite bool_decide_eq_true_2 by done.
  cbn [negb]. rewrite !bool_decide_eq_false_2; [done | |].
  - unfold documentElementPath. by destruct (findIndex isElement cs).
  - unfold bodyPath, documentElementPath. destruct (findIndex isElement cs) as [i|]; [|done].
    cbn [fmap option_fmap option_map]. destruct (nodeAt _ _); [|done].
    destruct (hasTag _ _); [|done]. by destruct (findIndex _ _).
Qed.

(** X10. Every element of a DOM tree gets a path: [getXPath] returns for it,
    and what it returns is not the empty string that stands for "no path". *)
Theorem getXPath_element_nonempty (root : Node) (p : path) (j : nat) (e : ElementData)
    (cs : list Node) :
  properDocument root = true → nodeAt root p = Some (Element j e cs) →
  ∃ s, getXPath root p = Normal s ∧ s ≠ EmptyString.
Proof.
  intros Hdoc. unfold getXPath. rewrite <- (rev_involutive p) at 1.
  generalize (rev p) as rp. clear p. intros rp. revert j e cs.
  induction rp as [|i rp IH]; intros j e cs Hnode.
  { destruct root; done. }
  rewrite getXPath_up_unfold, Hnode. cbn [idOf tagNameOf].
  destruct (negb _); [by eexists|].
  destruct (bool_decide (bodyPath _ = _)); [by eexists|].
  destruct (bool_decide (documentElementPath _ = _)); [by eexists|].
  cbn [rev] in Hnode. rewrite nodeAt_snoc in Hnode.
  destruct (nodeAt root (rev rp)) as [parent|] eqn:Hparent; [|done].
  cbn [mbind option_bind] in Hnode.
  destruct (getXPath_loop_is_Some (childNodes parent) i (Some (tagName e)) 0)
    as [index ->]; [by eapply lookup_lt_Some|].
  assert (∃ s, getXPath_up root rp = Normal s) as [s ->].
  { destruct parent as [d | pj pe pcs | pcs].
    - done.
    - destruct (IH _ _ _ eq_refl) as (s & -> & _). eauto.
    - destruct rp as [|i' rp].
      + simpl in Hparent. injection Hparent as ->. rewrite getXPath_up_document. eauto.
      + assert (Hne : rev (i' :: rp) ≠ []) by (simpl; by destruct (rev rp)).
        by pose proof (properDocument_inner _ _ _ Hdoc Hne Hparent). }
  cbn [bindC]. eexists. split; [done|]. apply append_slash_nonempty.
Qed.

Lemma getXPath_element_nonempty_witness :
  ∃ s, getXPath Example.helloPage [0; 1; 0] = Normal s ∧ s ≠ EmptyString.
Proof.
  apply (getXPath_element_nonempty Example.helloPage [0; 1; 0] 4
           {| tagName := "P"; id := EmptyString; classList := [];
              dataNoteId := None; style := [] |}
           [Text "say hello world now"] eq_refl eq_refl).
Defined.

(** ** The retry counters and the context flag along the event loop *)

Lemma kept_refl (w : World) : kept w w.
Proof. by split. Qed.

Lemma kept_trans (w1 w2 w3 : World) : kept w1 w2 → kept w2 w3 → kept w1 w3.
Proof. intros [? ?] [? ?]. split; auto. Qed.

Lemma kept_same (w w' : World) :
  retryCounts w' = retryCounts w → extensionContextValid w' = extensionContextValid w →
  kept w w'.
Proof. intros Hr He. split; [unfold retryBounded; by rewrite Hr | by rewrite He]. Qed.

Ltac keep_same := apply kept_same; world_simpl; done.

Section Kept.
Context {H : Host}.

Lemma kept_tryApplyHighlight (element : path) (noteData : NoteData) (w : World) :
  kept w (tryApplyHighlight element noteData w).1.
Proof.
  unfold tryApplyHighlight.
  destruct (nodeAt (document w) element) as [root|]; [|apply kept_refl].
  destruct (firstTextWith _ _) as [[p k]|]; [|apply kept_refl].
  cbn [createHighlightSpan].
  destruct (surroundContents _ _ _ _ _) as [doc1 [marker|err]]; [keep_same|].
  destruct (extractContents _ _ _ _) as [doc2 contents].
  destruct (insertNode _ _ _ _) as [doc3 [marker|err']]; keep_same.
Qed.

(** A counter is raised only while it is below [maxRetries]. *)
Lemma kept_scheduleHighlightRetry (noteData : NoteData) (w : World) :
  kept w (scheduleHighlightRetry noteData w).
Proof.
  unfold scheduleHighlightRetry.
  destruct (Nat.ltb_spec (default 0 (retryCounts w !! retryKey noteData)) maxRetries)
    as [Hlt|]; [|apply kept_refl].
  split; [|done]. intros Hb key count. world_simpl.
  destruct (decide (key = retryKey noteData)) as [-> | Hne].
  - rewrite lookup_insert_eq. intros [= <-]. lia.
  - rewrite lookup_insert_ne by done. apply Hb.
Qed.

Lemma kept_runRetryHighlight (noteData : NoteData) (w : World) :
  kept w (runRetryHighlight noteData w).
Proof.
  unfold runRetryHighlight.
  destruct (findElementContainingText _ _) as [[element|]|]; [|apply kept_refl..].
  eapply kept_trans; [apply (kept_tryApplyHighlight element noteData)|].
  split; [|done]. intros Hb key count. world_simpl.
  intros [_ Hc]%lookup_delete_Some. by apply (Hb key).
Qed.

Lemma kept_applyHighlightFromData (noteData : NoteData) (w w' : World) (r : option path) :
  applyHighlightFromData noteData w = Normal (w', r) → kept w w'.
Proof.
  unfold applyHighlightFromData. intros Hres.
  destruct (querySelectorNoteId _ _); [injection Hres as <- _; apply kept_refl|].
  destruct (getElementByXPath _ _) as [element|].
  { injection Hres as Hres. apply (f_equal fst) in Hres. simpl in Hres. subst w'.
    apply kept_tryApplyHighlight. }
  destruct (findElementContainingText _ _) as [[element|]|]; cbn [bindC] in Hres; [| |done].
  - injection Hres as Hres. apply (f_equal fst) in Hres. simpl in Hres. subst w'.
    apply kept_tryApplyHighlight.
  - injection Hres as <- _. apply kept_scheduleHighlightRetry.
Qed.

Lemma kept_showToast (message : string) (duration : Z) (w : World) :
  kept w (showToast message duration w).
Proof. unfold showToast. destruct (bodyPath _); keep_same. Qed.

Lemma kept_updateClasses (i : nat) (f : ElementData → ElementData) (w : World) :
  kept w (updateClasses i f w).
Proof. unfold updateClasses. destruct (findByNid _ _); [keep_same | apply kept_refl]. Qed.

Lemma kept_runRestoreHighlight (noteData : NoteData) (w : World) :
  kept w (runRestoreHighlight noteData w).
Proof.
  unfold runRestoreHighlight.
  destruct (applyHighlightFromData noteData w) as [[w1 [highlight|]]|] eqn:Hres;
    [| |apply kept_refl].
  - eapply kept_trans; [by eapply kept_applyHighlightFromData|].
    destruct (nodeAt (document w1) highlight ≫= nidOf); keep_same.
  - eapply kept_trans; [by eapply kept_applyHighlightFromData | apply kept_showToast].
Qed.

Lemma kept_disconnectHighlightObserver (w : World) :
  kept w (disconnectHighlightObserver w).
Proof.
  unfold disconnectHighlightObserver.
  destruct (highlightObserver w); [keep_same | apply kept_refl].
Qed.

Lemma kept_setupDynamicContentObserver (w : World) :
  kept w (setupDynamicContentObserver w).
Proof.
  unfold setupDynamicContentObserver. destruct (highlightObserver w); [apply kept_refl|].
  cbn [document withNextObserverId withHighlightObserver].
  destruct (bodyPath (document w)); keep_same.
Qed.

Lemma kept_observerCallback (ob : Observer) (w : World) : kept w (observerCallback ob w).
Proof. unfold observerCallback. destruct (debounceTimer ob); keep_same. Qed.

Lemma kept_batchPass (notes stillPending : list NoteData) (w : World) :
  kept w (batchPass notes stillPending w).1.
Proof.
  revert stillPending w; induction notes as [|note rest IH]; intros stillPending w;
    cbn [batchPass]; [apply kept_refl|].
  destruct (querySelectorNoteId _ _); [apply IH|].
  destruct (findElementContainingText _ _) as [[element|]|]; [| apply IH | apply kept_refl].
  pose proof (kept_tryApplyHighlight element note w) as Hkept.
  destruct (tryApplyHighlight element note w) as [w1 [marker|]]; cbn [fst] in Hkept;
    (eapply kept_trans; [exact Hkept | apply IH]).
Qed.

Lemma kept_runDebounce (w : World) : kept w (runDebounce w).
Proof.
  unfold runDebounce.
  destruct (pendingHighlights w) as [|note rest].
  { apply kept_disconnectHighlightObserver. }
  pose proof (kept_batchPass (note :: rest) [] w) as Hkept.
  destruct (batchPass (note :: rest) [] w) as [w1 [stillPending|]]; [|done].
  cbn [fst] in Hkept. eapply kept_trans; [exact Hkept|].
  destruct stillPending; [|keep_same].
  eapply kept_trans; [|apply kept_disconnectHighlightObserver]. keep_same.
Qed.

Lemma kept_applyEach (response : list NoteData) (w : World) :
  kept w (applyEach response w).1.
Proof.
  revert w; induction response as [|note rest IH]; intros w; cbn [applyEach];
    [apply kept_refl|].
  destruct (applyHighlightFromData note w) as [[w1 [marker|]]|] eqn:Hres;
    [| |apply kept_refl].
  - eapply kept_trans; [by eapply kept_applyHighlightFromData|].
    eapply kept_trans; [|apply IH]. keep_same.
  - eapply kept_trans; [by eapply kept_applyHighlightFromData | apply IH].
Qed.

Lemma kept_loadPageHighlights (outcome : LoadOutcome) (w : World) :
  kept w (loadPageHighlights outcome w).
Proof.
  unfold loadPageHighlights.
  destruct outcome as [| [|] | [response|]]; try apply kept_refl.
  - by split.
  - eapply kept_trans; [|apply kept_disconnectHighlightObserver]. by split.
  - pose proof (kept_applyEach response (withPendingHighlights response w)) as Hkept.
    destruct (applyEach response (withPendingHighlights response w)) as [w1 [|]];
      cbn [fst] in Hkept.
    + eapply kept_trans; [keep_same|]. eapply kept_trans; [exact Hkept|].
      destruct (pendingHighlights w1);
        [apply kept_refl | apply kept_setupDynamicContentObserver].
    + eapply kept_trans; [keep_same | exact Hkept].
Qed.

Lemma kept_runTask (t : Task) (w : World) : kept w (runTask t w).
Proof.
  destruct t; cbn [runTask].
  - apply kept_runRetryHighlight.
  - apply kept_runRestoreHighlight.
  - apply kept_updateClasses.
  - apply kept_runDebounce.
  - apply kept_disconnectHighlightObserver.
  - apply kept_updateClasses.
  - eapply kept_trans; [apply kept_updateClasses | keep_same].
  - destruct (findByNid _ _); [keep_same | apply kept_refl].
Qed.

Lemma kept_applyHighlightToSelection (noteId : string) (color : option string) (w : World) :
  kept w (applyHighlightToSelection noteId color w).1.
Proof.
  unfold applyHighlightToSelection.
  destruct (selection w) as [sel|]; [|apply kept_refl].
  destruct (_ || _); [apply kept_refl|].
  destruct (ranges sel) as [|range rest]; [apply kept_refl|].
  destruct (bool_decide _); [keep_same|].
  cbn [createHighlightSpan].
  destruct (surroundContents _ _ _ _ _) as [doc1 [marker|err]]; keep_same.
Qed.

Lemma kept_onMessage (m : Message) (w : World) : kept w (onMessage m w).
Proof.
  unfold onMessage. destruct (negb _); [apply kept_refl|].
  destruct m as [noteId | noteData | noteId].
  - apply kept_applyHighlightToSelection.
  - unfold restoreNoteContext. keep_same.
  - keep_same.
Qed.

Lemma kept_foldl {A} (step : World → A → World) (l : list A) (w : World) :
  (∀ w' a, kept w' (step w' a)) → kept w (foldl step w l).
Proof.
  intros Hstep. revert w; induction l as [|a l IH]; intros w; [apply kept_refl|].
  cbn [foldl]. eapply kept_trans; [apply Hstep | apply IH].
Qed.

Lemma kept_dispatch (ev : Event) (w w' : World) : dispatch ev w = Some w' → kept w w'.
Proof.
  destruct ev as [i | | d | doc' | sel | m | outcome]; cbn [dispatch].
  - destruct (List.find _ _) as [t|]; [|done]. destruct (forallb _ _); [|done].
    intros [= <-]. eapply kept_trans; [|apply kept_runTask]. keep_same.
  - intros [= <-]. eapply kept_trans; [|apply kept_foldl; intros; apply kept_runTask].
    keep_same.
  - destruct (_ && _); [|done]. intros [= <-]. keep_same.
  - intros [= <-]. unfold notifyObservers.
    eapply kept_trans; [|apply kept_foldl]; [keep_same|].
    intros w1 ob. destruct (List.find _ _); [apply kept_observerCallback | apply kept_refl].
  - intros [= <-]. keep_same.
  - intros [= <-]. apply kept_onMessage.
  - intros [= <-]. apply kept_loadPageHighlights.
Qed.

Lemma kept_run (evs : list Event) (w w' : World) : run evs w = Some w' → kept w w'.
Proof.
  revert w; induction evs as [|ev evs IH]; intros w; cbn [run].
  - intros [= <-]. apply kept_refl.
  - destruct (dispatch ev w) as [w1|] eqn:Hstep; [|done]. intros Hrun.
    eapply kept_trans; [by eapply kept_dispatch | by apply IH].
Qed.

End Kept.

(** X11. In every world the content script can reach, a retry counter that
    is set stands between 1 and 3: whatever happens, no more than three
    retry timers are counted for a note. *)
Theorem retry_counter_bounded {H : Host} (w : World) (key : string) (count : nat) :
  reachable w → retryCounts w !! key = Some count → 1 ≤ count ≤ 3.
Proof.
  intros Hreach. revert key count. change (retryBounded w).
  induction Hreach as [doc | w ev w' _ IH Hstep]; [done|].
  by apply (kept_dispatch ev w w' Hstep).
Qed.

Lemma retry_counter_bounded_witness :
  ∃ w,
    run (H := ExampleHost.host)
      [PageHighlights (Responded (Some [Example.helloNote])); FireTimer 1]
      (initialWorld Example.loadingPage) = Some w
    ∧ retryCounts w !! "retry_n1" = Some 1
    ∧ 1 ≤ 1 ≤ 3.
Proof.
  destruct (run (H := ExampleHost.host)
              [PageHighlights (Responded (Some [Example.helloNote])); FireTimer 1]
              (initialWorld Example.loadingPage)) as [w|] eqn:Hrun;
    [|vm_compute in Hrun; discriminate].
  exists w. split; [reflexivity|].
  assert (Hreach : reachable (H := ExampleHost.host) w)
    by (eapply run_reachable; [apply reachable_initial | exact Hrun]).
  assert (Hcount : retryCounts w !! "retry_n1" = Some 1)
    by (vm_compute in Hrun; injection Hrun as <-; vm_compute; reflexivity).
  split; [exact Hcount|].
  apply (retry_counter_bounded (H := ExampleHost.host) w "retry_n1" 1 Hreach Hcount).
Defined.

(** X12. Once the content script has found the extension context gone, it
    never takes it for valid again: whatever happens afterwards, the flag
    stays down and every command that arrives is dropped. *)
Theorem context_invalid_is_final {H : Host} (evs : list Event) (w w' : World) :
  extensionContextValid w = false → run evs w = Some w' →
  extensionContextValid w' = false ∧ ∀ m, onMessage m w' = w'.
Proof.
  intros Hflag Hrun. destruct (kept_run evs w w' Hrun) as [_ Hkept].
  specialize (Hkept Hflag). split; [done|].
  intros m. unfold onMessage. by rewrite Hkept.
Qed.

Lemma context_invalid_is_final_witness :
  ∃ w',
    run (H := ExampleHost.host)
      [Mutation Example.helloPage; PageHighlights (Responded (Some [Example.helloNote]))]
      (loadPageHighlights (H := ExampleHost.host) ContextInvalid
         (initialWorld Example.loadingPage)) = Some w'
    ∧ extensionContextValid w' = false
    ∧ ∀ m, onMessage m w' = w'.
Proof.
  destruct (run (H := ExampleHost.host)
              [Mutation Example.helloPage;
               PageHighlights (Responded (Some [Example.helloNote]))]
              (loadPageHighlights (H := ExampleHost.host) ContextInvalid
                 (initialWorld Example.loadingPage))) as [w'|] eqn:Hrun;
    [|vm_compute in Hrun; discriminate].
  exists w'. split; [reflexivity|].
  apply (context_invalid_is_final (H := ExampleHost.host)
           [Mutation Example.helloPage;
            PageHighlights (Responded (Some [Example.helloNote]))]
           (loadPageHighlights (H := ExampleHost.host) ContextInvalid
              (initialWorld Example.loadingPage)) w' eq_refl Hrun).
Defined.

(** * Properties of the database module *)

(** ** Sorting *)

Section StableSort.
Context {A : Type} (le : A → A → bool).

Lemma insertSorted_Permutation (x : A) (l : list A) : insertSorted le x l ≡ₚ x :: l.
Proof.
  induction l as [|y l IH]; simpl; [done|].
  destruct (le x y); [done|]. rewrite IH. apply Permutation_swap.
Qed.

Lemma stableSort_Permutation (l : list A) : stableSort le l ≡ₚ l.
Proof.
  induction l as [|x l IH]; simpl; [done|].
  by rewrite insertSorted_Permutation, IH.
Qed.

Hypothesis le_total : ∀ a b, le a b = true ∨ le b a = true.
Hypothesis le_trans : ∀ a b c, le a b = true → le b c = true → le a c = true.

Lemma insertSorted_sorted (x : A) (l : list A) :
  StronglySorted (λ a b, le a b = true) l →
  StronglySorted (λ a b, le a b = true) (insertSorted le x l).
Proof.
  induction 1 as [|y l Hl IH Hy]; simpl; [repeat constructor|].
  destruct (le x y) eqn:Hxy.
  - constructor; [by constructor|]. constructor; [done|].
    eapply Forall_impl; [exact Hy|]. intros z Hz. by eapply le_trans.
  - constructor; [done|].
    rewrite insertSorted_Permutation. constructor; [|done].
    destruct (le_total x y); congruence.
Qed.

Lemma stableSort_sorted (l : list A) :
  StronglySorted (λ a b, le a b = true) (stableSort le l).
Proof.
  induction l as [|x l IH]; simpl; [constructor | by apply insertSorted_sorted].
Qed.

(** Elements that compare equal keep the order they came in. *)
Lemma insertSorted_stable (P : A → Prop) `{∀ a, Decision (P a)} (x : A) (l : list A) :
  (∀ y, P x → P y → le x y = true) →
  filter P (insertSorted le x l) = filter P (x :: l).
Proof.
  intros Hequal. induction l as [|y l IH]; simpl; [done|].
  destruct (le x y) eqn:Hxy; [done|].
  rewrite (filter_cons _ y), IH, !filter_cons.
  destruct (decide (P x)) as [Hx|]; [|done].
  destruct (decide (P y)) as [Hy|]; [|done].
  rewrite Hequal in Hxy; done.
Qed.

Lemma stableSort_stable (P : A → Prop) `{∀ a, Decision (P a)} (l : list A) :
  (∀ x y, P x → P y → le x y = true) →
  filter P (stableSort le l) = filter P l.
Proof.
  intros Hequal. induction l as [|x l IH]; simpl; [done|].
  rewrite insertSorted_stable by (by apply Hequal).
  by rewrite !filter_cons, IH.
Qed.

End StableSort.

Lemma filter_all {A} (P : A → Prop) `{∀ a, Decision (P a)} (l : list A) :
  Forall P l → filter P l = l.
Proof.
  induction 1 as [|x l Hx _ IH]; [done|].
  by rewrite filter_cons, decide_True, IH by done.
Qed.

Lemma StronglySorted_weaken {A} (R R' : A → A → Prop) (l : list A) :
  (∀ a b, R a b → R' a b) → StronglySorted R l → StronglySorted R' l.
Proof.
  intros HR. induction 1 as [|x l Hl IH Hx]; constructor; [done|].
  eapply Forall_impl; [exact Hx|]. intros y. apply HR.
Qed.

(** ** The order of keys *)

Lemma ascii_compare_trans (a b c : ascii) (o : comparison) :
  Ascii.compare a b = o → Ascii.compare b c = o → Ascii.compare a c = o.
Proof.
  unfold Ascii.compare. destruct o.
  - rewrite !N.compare_eq_iff. congruence.
  - rewrite !N.compare_lt_iff. lia.
  - rewrite !N.compare_gt_iff. lia.
Qed.

Lemma string_compare_trans_lt (a b c : string) :
  String.compare a b = Lt → String.compare b c = Lt → String.compare a c = Lt.
Proof.
  revert b c; induction a as [|x a IH]; intros [|y b] [|z c]; simpl; try done.
  destruct (Ascii.compare x y) eqn:Hxy; [| |done].
  - apply Ascii.compare_eq_iff in Hxy as ->.
    destruct (Ascii.compare y z); [by apply IH | done | done].
  - destruct (Ascii.compare y z) eqn:Hyz; [| |done].
    + apply Ascii.compare_eq_iff in Hyz as <-. by rewrite Hxy.
    + by rewrite (ascii_compare_trans x y z Lt).
Qed.

Lemma string_compare_refl (a : string) : String.compare a a = Eq.
Proof.
  induction a as [|x a IH]; simpl; [done|].
  unfold Ascii.compare. by rewrite N.compare_refl.
Qed.

Lemma string_leb_trans (a b c : string) :
  String.leb a b = true → String.leb b c = true → String.leb a c = true.
Proof.
  unfold String.leb.
  destruct (String.compare a b) eqn:Hab; [| |done];
    destruct (String.compare b c) eqn:Hbc; try done; intros _ _.
  - apply String.compare_eq_iff in Hab as ->. by rewrite Hbc.
  - apply String.compare_eq_iff in Hab as ->. by rewrite Hbc.
  - apply String.compare_eq_iff in Hbc as <-. by rewrite Hab.
  - by rewrite (string_compare_trans_lt a b c).
Qed.

Lemma string_leb_refl (a : string) : String.leb a a = true.
Proof. unfold String.leb. by rewrite string_compare_refl. Qed.

(** ** Saving, reading and deleting a note *)

Lemma withStore_same (db : Db.Database) : Db.withStore (Db.store db) db = db.
Proof. by destruct db. Qed.

(** X13. A note saved under a free key is what [getNoteById] returns for the
    key afterwards, and the other keys read as before; on a key that is
    taken [saveNote] rejects with a constraint error and the store is as it
    was. *)
Theorem saveNote_then_getNoteById (note : Db.Note) (key : string) (db : Db.Database) :
  Db.opens db = true → Db.id note = Some key →
  (Db.store db !! key = None →
     ∃ db', Db.saveNote note db = (db', Db.Resolved key)
       ∧ Db.getNoteById key db' = Db.Resolved (Some note)
       ∧ ∀ other, other ≠ key → Db.getNoteById other db' = Db.getNoteById other db)
  ∧ (is_Some (Db.store db !! key) →
     Db.saveNote note db = (db, Db.Rejected Db.ConstraintError)).
Proof.
  intros Hopen Hid. unfold Db.saveNote, Db.getNoteById. rewrite Hopen, Hid. split.
  - intros ->. eexists. split; [done|]. cbn [Db.opens Db.store Db.withStore].
    rewrite Hopen, lookup_insert_eq. split; [done|].
    intros other Hne. by rewrite lookup_insert_ne.
  - by intros [? ->].
Qed.

Lemma saveNote_then_getNoteById_witness :
  (∃ db', Db.saveNote DbExample.older DbExample.empty = (db', Db.Resolved "a1")
     ∧ Db.getNoteById "a1" db' = Db.Resolved (Some DbExample.older)
     ∧ ∀ other, other ≠ "a1" →
         Db.getNoteById other db' = Db.getNoteById other DbExample.empty)
  ∧ Db.saveNote DbExample.revised DbExample.two
    = (DbExample.two, Db.Rejected Db.ConstraintError).
Proof.
  split.
  - apply (saveNote_then_getNoteById DbExample.older "a1" DbExample.empty
             eq_refl eq_refl). reflexivity.
  - apply (saveNote_then_getNoteById DbExample.revised "a1" DbExample.two
             eq_refl eq_refl). vm_compute. eauto.
Defined.

(** X14. After [deleteNote] the key reads as [null] and the other keys read
    as before; deleting a key that is not there resolves all the same and
    changes nothing. *)
Theorem deleteNote_then_getNoteById (key : string) (db : Db.Database) :
  Db.opens db = true →
  ∃ db', Db.deleteNote key db = (db', Db.Resolved ())
    ∧ Db.getNoteById key db' = Db.Resolved None
    ∧ (∀ other, other ≠ key → Db.getNoteById other db' = Db.getNoteById other db)
    ∧ (Db.store db !! key = None → db' = db).
Proof.
  intros Hopen. unfold Db.deleteNote, Db.getNoteById. rewrite Hopen.
  eexists. split; [done|]. cbn [Db.opens Db.store Db.withStore].
  rewrite Hopen, lookup_delete_eq. split; [done|]. split.
  - intros other Hne. by rewrite lookup_delete_ne.
  - intros Hnone. rewrite delete_id by done. apply withStore_same.
Qed.

Lemma deleteNote_then_getNoteById_witness :
  ∃ db', Db.deleteNote "a1" DbExample.two = (db', Db.Resolved ())
    ∧ Db.getNoteById "a1" db' = Db.Resolved None
    ∧ (∀ other, other ≠ "a1" →
         Db.getNoteById other db' = Db.getNoteById other DbExample.two)
    ∧ (Db.store DbExample.two !! "a1" = None → db' = DbExample.two).
Proof. apply (deleteNote_then_getNoteById "a1" DbExample.two eq_refl). Defined.

(** ** Reading all notes *)

Lemma string_leb_total (a b : string) : String.leb a b = true ∨ String.leb b a = true.
Proof. apply String.leb_total. Qed.

(** X15. [getAllNotes] returns every stored note once, the newest first, and
    notes of the same time in the order in which the store yields them,
    which is the order of their keys. *)
Theorem getAllNotes_newest_first (db : Db.Database) (notes : list Db.Note) :
  Db.getAllNotes db = Db.Resolved notes →
  notes ≡ₚ (map_to_list (Db.store db)).*2
  ∧ StronglySorted (λ a b, (Db.timestamp b <= Db.timestamp a)%Z) notes
  ∧ ∃ records,
      records ≡ₚ map_to_list (Db.store db)
      ∧ StronglySorted (λ a b : string * Db.Note, String.leb a.1 b.1 = true) records
      ∧ ∀ t, filter (λ n, Db.timestamp n = t) notes
             = filter (λ n, Db.timestamp n = t) records.*2.
Proof.
  unfold Db.getAllNotes. destruct (Db.opens db); [|done]. intros [= <-].
  unfold Db.getAll. split; [|split].
  - by rewrite !stableSort_Permutation.
  - eapply StronglySorted_weaken; [|apply (stableSort_sorted Db.newestFirst)].
    + intros a b Hab. by apply Z.leb_le.
    + intros a b. unfold Db.newestFirst. rewrite !Z.leb_le. lia.
    + intros a b c. unfold Db.newestFirst. rewrite !Z.leb_le. lia.
  - eexists. split; [apply stableSort_Permutation|]. split.
    + apply stableSort_sorted.
      * intros a b. apply string_leb_total.
      * intros a b c. apply string_leb_trans.
    + intros t. apply (stableSort_stable Db.newestFirst (λ n, Db.timestamp n = t)).
      intros x y Hx Hy. unfold Db.newestFirst. rewrite Hx, Hy. apply Z.leb_refl.
Qed.

Lemma getAllNotes_newest_first_witness :
  [DbExample.newer; DbExample.older] ≡ₚ (map_to_list (Db.store DbExample.two)).*2
  ∧ StronglySorted (λ a b, (Db.timestamp b <= Db.timestamp a)%Z)
      [DbExample.newer; DbExample.older]
  ∧ ∃ records,
      records ≡ₚ map_to_list (Db.store DbExample.two)
      ∧ StronglySorted (λ a b : string * Db.Note, String.leb a.1 b.1 = true) records
      ∧ ∀ t, filter (λ n, Db.timestamp n = t) [DbExample.newer; DbExample.older]
             = filter (λ n, Db.timestamp n = t) records.*2.
Proof.
  apply (getAllNotes_newest_first DbExample.two [DbExample.newer; DbExample.older]).
  vm_compute. reflexivity.
Defined.

(** ** The tags of all notes *)

Lemma StronglySorted_strict {A} (R : A → A → Prop) (l : list A) :
  StronglySorted R l → NoDup l → StronglySorted (λ a b, R a b ∧ a ≠ b) l.
Proof.
  induction 1 as [|x l Hl IH Hx]; intros Hnd; [constructor|].
  apply NoDup_cons in Hnd as [Hnotin Hnd]. constructor; [by apply IH|].
  apply Forall_forall. intros y Hy. rewrite Forall_forall in Hx.
  split; [by apply Hx|]. by intros ->.
Qed.

Lemma elem_of_getAll (s : gmap string Db.Note) (note : Db.Note) :
  note ∈ Db.getAll s ↔ ∃ key, s !! key = Some note.
Proof.
  unfold Db.getAll. rewrite list_elem_of_fmap. split.
  - intros ([key n] & -> & Hin). rewrite stableSort_Permutation in Hin.
    apply elem_of_map_to_list in Hin. eauto.
  - intros [key Hkey]. exists (key, note). split; [done|].
    rewrite stableSort_Permutation. by apply elem_of_map_to_list.
Qed.

(** X16. [getAllTags] returns the tags in strictly increasing order, so each
    of them once, and they are exactly the tags some stored note carries. *)
Theorem getAllTags_sorted_unique (db : Db.Database) (tagList : list string) :
  Db.getAllTags db = Db.Resolved tagList →
  StronglySorted (λ a b, String.leb a b = true ∧ a ≠ b) tagList
  ∧ ∀ tag, tag ∈ tagList
           ↔ ∃ key note noteTags,
               Db.store db !! key = Some note
               ∧ Db.tags note = Some noteTags ∧ tag ∈ noteTags.
Proof.
  unfold Db.getAllTags, Db.getAllNotes. destruct (Db.opens db); [|done].
  intros [= <-]. split.
  - apply StronglySorted_strict.
    + apply stableSort_sorted;
        [intros a b; apply string_leb_total | intros a b c; apply string_leb_trans].
    + rewrite stableSort_Permutation. apply NoDup_remove_dups.
  - intros tag. rewrite stableSort_Permutation, elem_of_remove_dups, list_elem_of_bind.
    split.
    + intros (note & Htag & Hnote). rewrite stableSort_Permutation in Hnote.
      apply elem_of_getAll in Hnote as [key Hkey].
      destruct (Db.tags note) as [noteTags|] eqn:Htags; [|by apply elem_of_nil in Htag].
      by exists key, note, noteTags.
    + intros (key & note & noteTags & Hkey & Htags & Htag). exists note.
      rewrite Htags. split; [done|]. rewrite stableSort_Permutation.
      apply elem_of_getAll. eauto.
Qed.

Lemma getAllTags_sorted_unique_witness :
  StronglySorted (λ a b, String.leb a b = true ∧ a ≠ b) ["Important"; "research"]
  ∧ ∀ tag, tag ∈ ["Important"; "research"]
           ↔ ∃ key note noteTags,
               Db.store DbExample.two !! key = Some note
               ∧ Db.tags note = Some noteTags ∧ tag ∈ noteTags.
Proof.
  apply (getAllTags_sorted_unique DbExample.two ["Important"; "research"]).
  vm_compute. reflexivity.
Defined.

(** ** Searching *)






Lemma filterNotes_without_text (lowerQuery : string) (notes : list Db.Note)
    (note : Db.Note) :
  note ∈ notes → Db.text note = None →
  Db.filterNotes lowerQuery notes = Db.Rejected Db.JsTypeError.
Proof.
  intros Hin Htext. induction notes as [|n notes IH]; [by apply elem_of_nil in Hin|].
  cbn [Db.filterNotes].
  destruct (Db.matchesQuery lowerQuery n) as [keep|e] eqn:Hmatch.
  - apply elem_of_cons in Hin as [<- | Hin].
    + unfold Db.matchesQuery in Hmatch. by rewrite Htext in Hmatch.
    + by rewrite IH.
  - f_equal. unfold Db.matchesQuery in Hmatch.
    destruct (Db.text n); [|by injection Hmatch].
    destruct (JsString.includes _ _); [done|].
    destruct (Db.title n); [|by injection Hmatch].
    destruct (JsString.includes _ _); [done|].
    by destruct (Db.comment n); [destruct (_ && _)|].
Qed.

(** X18. One stored note without a text makes every search fail:
    [searchNotes] rejects with the type error of reading [toLowerCase] of
    [undefined], whatever the query and the other notes are. *)
Theorem searchNotes_rejects_without_text (query : string) (db : Db.Database)
    (notes : list Db.Note) (note : Db.Note) :
  Db.getAllNotes db = Db.Resolved notes → note ∈ notes → Db.text note = None →
  Db.searchNotes query db = Db.Rejected Db.JsTypeError.
Proof.
  intros Hall Hin Htext. unfold Db.searchNotes. rewrite Hall.
  by eapply filterNotes_without_text.
Qed.

Lemma searchNotes_rejects_without_text_witness :
  Db.searchNotes "hello"
    {| Db.opens := true;
       Db.store := <["c3" := {| Db.id := Some "c3"; Db.timestamp := 2500;
                                Db.url := Some "https://example.org/";
                                Db.title := Some "Example"; Db.text := None;
                                Db.comment := None; Db.tags := None |}]>
                     (Db.store DbExample.two) |}
  = Db.Rejected Db.JsTypeError.
Proof.
  apply (searchNotes_rejects_without_text "hello" _
           [{| Db.id := Some "c3"; Db.timestamp := 2500;
               Db.url := Some "https://example.org/";
               Db.title := Some "Example"; Db.text := None;
               Db.comment := None; Db.tags := None |};
            DbExample.newer; DbExample.older]
           {| Db.id := Some "c3"; Db.timestamp := 2500;
              Db.url := Some "https://example.org/";
              Db.title := Some "Example"; Db.text := None;
              Db.comment := None; Db.tags := None |}).
  - vm_compute. reflexivity.
  - apply list_elem_of_here.
  - reflexivity.
Defined.

(** ** Importing *)

Lemma opens_withStore (s : gmap string Db.Note) (db : Db.Database) :
  Db.opens (Db.withStore s db) = Db.opens db.
Proof. done. Qed.

Lemma withStore_twice (s s' : gmap string Db.Note) (db : Db.Database) :
  Db.withStore s (Db.withStore s' db) = Db.withStore s db.
Proof. done. Qed.

(** One turn of the import puts the note, whether its key was free or
    taken. *)
Lemma importNote_upsert (db : Db.Database) (count : nat) (note : Db.Note) :
  Db.opens db = true →
  Db.importNote (db, count) note
  = (Db.withStore (Db.upsert (Db.store db) note) db,
     count + match Db.id note with Some _ => 1 | None => 0 end).
Proof.
  intros Hopen. unfold Db.importNote, Db.saveNote, Db.updateNote, Db.upsert.
  rewrite Hopen. destruct (Db.id note) as [key|].
  - destruct (Db.store db !! key); by rewrite ?Hopen.
  - rewrite ?Hopen, withStore_same. f_equal. lia.
Qed.

Lemma foldl_importNote (notes : list Db.Note) (db : Db.Database) (count : nat) :
  Db.opens db = true →
  foldl Db.importNote (db, count) notes
  = (Db.withStore (foldl Db.upsert (Db.store db) notes) db,
     count + length (filter (λ n, is_Some (Db.id n)) notes)).
Proof.
  intros Hopen. revert db count Hopen.
  induction notes as [|note notes IH]; intros db count Hopen; cbn [foldl].
  { rewrite withStore_same. f_equal. simpl. lia. }
  rewrite importNote_upsert by done. rewrite IH by done.
  cbn [Db.store Db.withStore]. f_equal. rewrite filter_cons.
  destruct (Db.id note); [rewrite decide_True by eauto | rewrite decide_False
    by (by intros [? ?])]; simpl; lia.
Qed.

(** X19. [importNotes] puts every note that has a key, in the order of the
    list, over whatever the store holds under that key, and counts those
    notes; a note without a key is skipped. When the database does not open
    nothing is imported. *)
Theorem importNotes_upserts (notes : list Db.Note) (db : Db.Database) :
  Db.importNotes notes db
  = if Db.opens db
    then (Db.withStore (foldl Db.upsert (Db.store db) notes) db,
          length (filter (λ n, is_Some (Db.id n)) notes))
    else (db, 0).
Proof.
  unfold Db.importNotes. destruct (Db.opens db) eqn:Hopen.
  - by rewrite foldl_importNote.
  - induction notes as [|note notes IH]; [done|]. cbn [foldl].
    unfold Db.importNote at 2, Db.saveNote, Db.updateNote. by rewrite !Hopen.
Qed.

Lemma foldl_upsert_list_to_map (notes : list Db.Note) :
  Forall (λ n, is_Some (Db.id n)) notes →
  foldl Db.upsert ∅ notes
  = list_to_map ((λ n, (default EmptyString (Db.id n), n)) <$> reverse notes).
Proof.
  induction notes as [|note notes IH] using rev_ind; [done|].
  intros [Hnotes [[key Hkey] _]%Forall_cons]%Forall_app.
  rewrite foldl_snoc, reverse_snoc, IH by done.
  cbn [fmap list_fmap list_to_map foldr]. unfold Db.upsert at 1. by rewrite Hkey.
Qed.

(** X20. What [getAllNotes] returns, imported into the emptied store, gives
    the store back: the notes are those of before, each under its key, and
    all of them are counted. *)
Theorem import_of_getAllNotes_restores (db : Db.Database) (notes : list Db.Note) :
  Db.opens db = true → Db.keyed db → Db.getAllNotes db = Db.Resolved notes →
  Db.importNotes notes (Db.clearAllNotes db).1 = (db, size (Db.store db)).
Proof.
  intros Hopen Hkeyed Hall. unfold Db.importNotes, Db.clearAllNotes. rewrite Hopen.
  cbn [fst]. rewrite foldl_importNote by done.
  cbn [Db.store Db.withStore]. rewrite withStore_twice.
  unfold Db.getAllNotes in Hall. rewrite Hopen in Hall. injection Hall as <-.
  set (notes := stableSort Db.newestFirst (Db.getAll (Db.store db))).
  assert (Hperm : notes ≡ₚ (map_to_list (Db.store db)).*2).
  { unfold notes, Db.getAll. by rewrite !stableSort_Permutation. }
  assert (Hids : ∀ n, n ∈ notes → ∃ key, Db.store db !! key = Some n ∧ Db.id n = Some key).
  { intros n Hn. rewrite Hperm in Hn.
    apply list_elem_of_fmap in Hn as ([key n'] & -> & Hin).
    apply elem_of_map_to_list in Hin. exists key. split; [done | by apply Hkeyed]. }
  assert (Hsome : Forall (λ n, is_Some (Db.id n)) notes).
  { apply Forall_forall. intros n Hn. destruct (Hids n Hn) as (key & _ & ->). eauto. }
  rewrite foldl_upsert_list_to_map by done. f_equal.
  - rewrite <- (withStore_same db) at 2. f_equal. symmetry. apply list_to_map_flip.
    rewrite reverse_Permutation, Hperm. rewrite <- list_fmap_compose.
    assert (Heq : (λ n, (default EmptyString (Db.id n), n)) ∘ snd
                    <$> map_to_list (Db.store db)
                  = map_to_list (Db.store db)).
    { rewrite <- (list_fmap_id (map_to_list (Db.store db))) at 2.
      apply list_fmap_ext. intros i [key n] Hin.
      apply list_elem_of_lookup_2, elem_of_map_to_list in Hin. cbn [compose snd id].
      by rewrite (Hkeyed _ _ Hin). }
    by rewrite Heq.
  - rewrite filter_all by done.
    by rewrite Hperm, length_fmap, length_map_to_list.
Qed.

Lemma import_of_getAllNotes_restores_witness :
  Db.importNotes [DbExample.newer; DbExample.older] (Db.clearAllNotes DbExample.two).1
  = (DbExample.two, size (Db.store DbExample.two)).
Proof.
  apply (import_of_getAllNotes_restores DbExample.two [DbExample.newer; DbExample.older]
           eq_refl).
  - intros key note. unfold DbExample.two. cbn [Db.store].
    destruct (decide (key = "a1")) as [-> | Ha];
      [rewrite lookup_insert_eq; by intros [= <-]|].
    rewrite lookup_insert_ne by done.
    destruct (decide (key = "b2")) as [-> | Hb];
      [rewrite lookup_insert_eq; by intros [= <-]|].
    by rewrite lookup_insert_ne, lookup_empty by done.
  - vm_compute. reflexivity.
Defined.

(** * Properties of the XPath utility module *)

Lemma XPathUtils_getXPath_up_unfold (root : Node) (rp : list nat) :
  XPathUtils.getXPath_up root rp
  = match nodeAt root (rev rp) with
    | None => Throw TypeError
    | Some element =>
        if negb (bool_decide (idOf element = EmptyString)) then
          Normal ("//*[@id=" +:+ JsString.dquote +:+ idOf element +:+ JsString.dquote +:+ "]")
        else if bool_decide (bodyPath root = Some (rev rp)) then Normal "/html/body"
        else if bool_decide (documentElementPath root = Some (rev rp)) then Normal "/html"
        else
          match rp with
          | [] => Normal EmptyString
          | i :: rp' =>
              match nodeAt root (rev rp') with
              | None => Normal EmptyString
              | Some parent =>
                  match getXPath_loop (childNodes parent) i (tagNameOf element) 0 with
                  | None => Normal EmptyString
                  | Some index =>
                      match element with
                      | Element _ e _ =>
                          bindC (XPathUtils.getXPath_up root rp') (λ parentXPath,
                            Normal (parentXPath +:+ "/" +:+ JsString.toLowerCase (tagName e)
                                    +:+ "[" +:+ JsString.ofNat (index + 1) +:+ "]"))
                      | _ => Throw TypeError
                      end
                  end
              end
          end
    end.
Proof. by destruct rp. Qed.

(** X21. The two copies of [getXPath], the one of the content script and the
    one the utility module exports, return the same for every node there is;
    for a missing element the content script's returns the empty string and
    the module's throws. *)
Theorem XPathUtils_getXPath_agrees (root : Node) (p : path) :
  (is_Some (nodeAt root p) → XPathUtils.getXPath root p = getXPath root p)
  ∧ (nodeAt root p = None →
     XPathUtils.getXPath root p = Throw TypeError
     ∧ getXPath root p = Normal EmptyString).
Proof.
  unfold XPathUtils.getXPath, getXPath. rewrite <- (rev_involutive p) at 1 4.
  generalize (rev p) as rp. clear p. intros rp. split.
  - induction rp as [|i rp IH]; intros [element Hnode];
      rewrite XPathUtils_getXPath_up_unfold, getXPath_up_unfold, Hnode; [done|].
    destruct (negb _); [done|]. destruct (bool_decide _); [done|].
    destruct (bool_decide _); [done|].
    destruct (nodeAt root (rev rp)) as [parent|] eqn:Hparent; [|done].
    destruct (getXPath_loop _ _ _ _); [|done].
    destruct element; [done | | done]. by rewrite IH by eauto.
  - intros Hnone. rewrite XPathUtils_getXPath_up_unfold, getXPath_up_unfold.
    by rewrite Hnone.
Qed.

Lemma XPathUtils_getXPath_agrees_witness :
  XPathUtils.getXPath Example.helloPage [0; 1; 0] = getXPath Example.helloPage [0; 1; 0]
  ∧ XPathUtils.getXPath Example.helloPage [0; 7] = Throw TypeError
  ∧ getXPath Example.helloPage [0; 7] = Normal EmptyString.
Proof.
  split.
  - apply (XPathUtils_getXPath_agrees Example.helloPage [0; 1; 0]). vm_compute. eauto.
  - apply (XPathUtils_getXPath_agrees Example.helloPage [0; 7]). reflexivity.
Defined.

Lemma take_prefix (t s : string) :
  JsString.take (String.length t) s = t → String.prefix t s = true.
Proof.
  revert s; induction t as [|c t IH]; intros [|c' s]; simpl; try done.
  intros [= -> Ht]. destruct (ascii_dec _ _); [by apply IH | done].
Qed.

(** [indexOf] returns the first place where the text stands. *)
Lemma indexOf_least (t s : string) (k j : nat) :
  JsString.indexOf t s = Some k → j < k →
  JsString.substringData s j (String.length t) ≠ t.
Proof.
  unfold JsString.substringData.
  revert k j; induction s as [|c s IH]; intros k j.
  - cbn [JsString.indexOf]. destruct (String.prefix t ""); [|done]. intros [= <-]. lia.
  - rewrite indexOf_cons. destruct (String.prefix t (String c s)) eqn:Hp.
    + intros [= <-]. lia.
    + destruct (JsString.indexOf t s) as [k'|] eqn:Hk; [|done]. intros [= <-] Hlt.
      destruct j as [|j].
      * cbn [JsString.drop]. intros Htake. apply take_prefix in Htake. congruence.
      * cbn [JsString.drop]. apply (IH k'); [done | lia].
Qed.

Lemma firstTextWith_first (t : string) (nodes : list (path * string)) (p : path) (k : nat) :
  firstTextWith t nodes = Some (p, k) →
  ∃ d before after,
    nodes = before ++ (p, d) :: after
    ∧ JsString.indexOf t d = Some k
    ∧ Forall (λ pd, JsString.includes t pd.2 = false) before.
Proof.
  induction nodes as [|[p' d'] nodes IH]; simpl; [done|].
  destruct (JsString.indexOf t d') as [k'|] eqn:Hi.
  - intros [= <- <-]. by exists d', [], nodes.
  - intros (d & before & after & -> & Hk & Hbefore)%IH.
    exists d, ((p', d') :: before), after. split; [done|]. split; [done|].
    constructor; [|done]. simpl. apply bool_decide_eq_false. rewrite Hi. by intros [? ?].
Qed.

(** X22. What [findTextInElement] returns is a [Text] node below the element
    and the first place in it where the text stands; no [Text] node that the
    walker visits earlier contains the text. It returns [null] exactly when
    no [Text] node below the element contains the text by itself. *)
Theorem findTextInElement_first (doc : Node) (element : path) (t : string) (root : Node) :
  nodeAt doc element = Some root →
  (∀ node offset,
     XPathUtils.findTextInElement doc element t = Normal (Some (node, offset)) →
     ∃ q d before after,
       node = element ++ q ∧ q ≠ []
       ∧ nodeAt doc node = Some (Text d)
       ∧ JsString.substringData d offset (String.length t) = t
       ∧ (∀ j, j < offset → JsString.substringData d j (String.length t) ≠ t)
       ∧ textDescendants root = before ++ (q, d) :: after
       ∧ Forall (λ pd, JsString.includes t pd.2 = false) before)
  ∧ (XPathUtils.findTextInElement doc element t = Normal None
     ↔ ∀ q d, q ≠ [] → nodeAt root q = Some (Text d) → JsString.includes t d = false).
Proof.
  intros Hroot. unfold XPathUtils.findTextInElement. rewrite Hroot. split.
  - intros node offset.
    destruct (firstTextWith t (textDescendants root)) as [[q k]|] eqn:Hfirst; [|done].
    cbn [fmap option_fmap option_map fst snd]. intros [= <- <-].
    destruct (firstTextWith_first _ _ _ _ Hfirst) as (d & before & after & Hsplit & Hk & Hb).
    assert (Hin : In (q, d) (textDescendants root)).
    { rewrite Hsplit. apply in_app_iff. right. by left. }
    apply textDescendants_nodeAt in Hin as (q0 & i & -> & Hnode).
    exists (q0 ++ [i]), d, before, after. split; [done|]. split; [by destruct q0|].
    split; [by rewrite nodeAt_app, Hroot|]. split; [by apply indexOf_substringData|].
    split; [intros j Hj; by eapply indexOf_least | done].
  - destruct (firstTextWith t (textDescendants root)) as [[q k]|] eqn:Hfirst.
    + cbn [fmap option_fmap option_map]. split; [done|]. intros Hnone. exfalso.
      destruct (firstTextWith_Some _ _ _ _ Hfirst) as (d & Hin & Hk).
      pose proof Hin as (q0 & i & -> & Hnode)%textDescendants_nodeAt.
      assert (Hincl : JsString.includes t d = true) by (apply includes_is_Some; eauto).
      rewrite (Hnone (q0 ++ [i]) d) in Hincl; [done | by destruct q0 | done].
    + split; [|done]. intros _ q d Hq Hnode.
      destruct (JsString.includes t d) eqn:Hincl; [|done]. exfalso.
      apply includes_is_Some in Hincl.
      destruct (firstTextWith_exists t (textDescendants root) q d)
        as [? Hsome]; [by apply nodeAt_textDescendants | done | congruence].
Qed.

Lemma findTextInElement_first_witness :
  ∃ q d before after,
    [0; 1; 0; 0] = [0; 1] ++ q ∧ q ≠ []
    ∧ nodeAt Example.helloPage [0; 1; 0; 0] = Some (Text d)
    ∧ JsString.substringData d 4 (String.length "hello") = "hello"
    ∧ (∀ j, j < 4 → JsString.substringData d j (String.length "hello") ≠ "hello")
    ∧ textDescendants (Example.element 3 "BODY"
                         [Example.element 4 "P" [Text "say hello world now"]])
      = before ++ (q, d) :: after
    ∧ Forall (λ pd, JsString.includes "hello" pd.2 = false) before.
Proof.
  apply (findTextInElement_first Example.helloPage [0; 1] "hello"
           (Example.element 3 "BODY" [Example.element 4 "P" [Text "say hello world now"]])
           eq_refl).
  vm_compute. reflexivity.
Defined.

(** * Properties of the capture *)

(** ** Trimming *)

Lemma trimStart_head (s : string) (c : ascii) (rest : string) :
  trimStart s = String c rest → isWhiteSpace c = false.
Proof.
  induction s as [|x s IH]; simpl; [done|].
  destruct (isWhiteSpace x) eqn:Hx; [done|]. by intros [= <- _].
Qed.

Lemma trimStart_fixed (c : ascii) (rest : string) :
  isWhiteSpace c = false → trimStart (String c rest) = String c rest.
Proof. intros Hc. simpl. by rewrite Hc. Qed.

(** [trimEnd] keeps the first character of a text that does not begin
    with white space. *)
Lemma trimEnd_head (c : ascii) (rest : string) :
  isWhiteSpace c = false → ∃ rest', trimEnd (String c rest) = String c rest'.
Proof.
  intros Hc. cbn [trimEnd]. destruct (trimEnd rest); [rewrite Hc|]; eauto.
Qed.

Lemma trimEnd_idempotent (s : string) : trimEnd (trimEnd s) = trimEnd s.
Proof.
  induction s as [|c s IH]; [done|]. cbn [trimEnd].
  destruct (trimEnd s) as [|c' t] eqn:Ht.
  - destruct (isWhiteSpace c) eqn:Hc; [done|]. cbn [trimEnd]. by rewrite Hc.
  - cbn [trimEnd] in IH |- *. by rewrite IH.
Qed.

Lemma trim_head (s : string) (c : ascii) (rest : string) :
  trim s = String c rest → isWhiteSpace c = false.
Proof.
  unfold trim. destruct (trimStart s) as [|x u] eqn:Hs; [done|].
  pose proof (trimStart_head _ _ _ Hs) as Hx.
  destruct (trimEnd_head x u Hx) as [rest' ->]. by intros [= <- _].
Qed.

(** A trimmed text is left alone by [trim]. *)
Lemma trim_idempotent (s : string) : trim (trim s) = trim s.
Proof.
  unfold trim at 1. destruct (trim s) as [|c rest] eqn:Ht; [done|].
  rewrite trimStart_fixed by (by eapply trim_head).
  rewrite <- Ht. unfold trim. apply trimEnd_idempotent.
Qed.

Lemma commonPrefix_prefix (p q : path) :
  commonPrefix p q `prefix_of` p ∧ commonPrefix p q `prefix_of` q.
Proof.
  revert q; induction p as [|i p IH]; intros [|j q]; simpl;
    try (split; apply prefix_nil).
  case_bool_decide as Hij; [|split; apply prefix_nil].
  subst j. destruct (IH q). split; by apply prefix_cons.
Qed.

Lemma parentPath_prefix (p : path) : parentPath p `prefix_of` p.
Proof.
  destruct (path_snoc p) as [-> | (q & i & ->)]; [done|].
  rewrite parentPath_snoc. by apply prefix_app_r.
Qed.

(** X23. [captureNoteContext] returns [null] for a selection whose text is
    empty or white space only. The note it returns otherwise carries the
    selected text trimmed, which is not empty and has no white space at its
    start; its element path is what [getXPath] returns for a node that
    contains both ends of the first range; and a position it gives for the
    text in that node's text is a place where the text stands. *)
Theorem captureNoteContext_note (win : Window) (w : World) :
  (trim (selectionText win) = EmptyString → captureNoteContext win w = Normal None)
  ∧ ∀ note,
      captureNoteContext win w = Normal (Some note) →
      capturedText note = trim (selectionText win)
      ∧ capturedText note ≠ EmptyString
      ∧ trim (capturedText note) = capturedText note
      ∧ (∀ c rest, capturedText note = String c rest → isWhiteSpace c = false)
      ∧ ∃ sel range rest element elementNode,
          selection w = Some sel ∧ ranges sel = range :: rest
          ∧ element `prefix_of` startContainer range
          ∧ element `prefix_of` endContainer range
          ∧ nodeAt (document w) element = Some elementNode
          ∧ getXPath (document w) element = Normal (capturedElementPath note)
          ∧ ∀ k, textInParentOffset note = Z.of_nat k →
                 JsString.substringData (default EmptyString (textContent elementNode)) k
                   (String.length (capturedText note))
                 = capturedText note.
Proof.
  unfold captureNoteContext. split.
  - intros Hempty. destruct (selection w) as [sel|]; [|done].
    destruct (ranges sel); [done|]. by rewrite Hempty.
  - intros note. destruct (selection w) as [sel|]; [|done].
    destruct (ranges sel) as [|range rest] eqn:Hranges; [done|].
    destruct (Nat.eqb_spec (String.length (trim (selectionText win))) 0) as [|Hlen];
      [done|].
    set (container := commonAncestorContainer range).
    set (element := match nodeAt (document w) container with
                    | Some (Text _) =>
                        match lastIndex container with
                        | Some _ => Some (parentPath container)
                        | None => None
                        end
                    | Some _ => Some container
                    | None => None
                    end).
    assert (Hprefix : ∀ p, element = Some p → p `prefix_of` container).
    { unfold element. intros p.
      destruct (nodeAt (document w) container) as [[| |]|]; [| | |done].
      - destruct (lastIndex container); [|done]. intros [= <-]. apply parentPath_prefix.
      - by intros [= <-].
      - by intros [= <-]. }
    destruct element as [p|]; [|done]. cbn [mbind option_bind].
    destruct (nodeAt (document w) p) as [elementNode|] eqn:Hnode; [|done].
    cbn [fmap option_fmap option_map].
    destruct (getXPath (document w) p) as [xpath|] eqn:Hxpath; [|done]. cbn [bindC].
    destruct (documentElementPath (document w)); [|done].
    intros [= <-]. cbn [capturedText capturedElementPath textInParentOffset].
    split; [done|]. split; [intros Heq; by rewrite Heq in Hlen|].
    split; [apply trim_idempotent|]. split; [intros c r; apply trim_head|].
    exists sel, range, rest, p, elementNode.
    destruct (commonPrefix_prefix (startContainer range) (endContainer range)).
    specialize (Hprefix p eq_refl). unfold container, commonAncestorContainer in Hprefix.
    split; [done|]. split; [done|].
    split; [by etrans|]. split; [by etrans|]. split; [done|]. split; [done|].
    intros k.
    destruct (JsString.indexOf _ _) as [k'|] eqn:Hk; [|lia].
    intros ->%Nat2Z.inj. by apply indexOf_substringData.
Qed.

(** * The observer's batch pass *)



Section BatchPass.
Context {H : Host}.


End BatchPass.



(** * Paths written by [getXPath], read back *)

(** ** Letters *)












(** ** Numbers *)





(** ** Steps *)









(** ** Children with a given name *)









(** ** Chains below the body *)









